(** * openmetrics-tui: the series store, the delta projection, the metric
    filter, the column-fit layout and the event handler, embedded from
    [store.go] and [main.go] and checked against the specification.

    Conventions of the embedding.
    - A Go [float64] is a primitive binary64 float ([PrimFloat.float]);
      [math.IsNaN] is [is_nan], [math.NaN()] is [nan], and the Go
      subtraction is [PrimFloat.sub].
    - A Go [string] is a sequence of bytes: [string] of the Standard
      Library, whose characters are the 256 bytes.
    - A Go [map[string]T] is a [gmap string T]; a loop over a map visits
      it in an unspecified order, which the model either shows to be
      irrelevant or takes as an argument.
    - A Go [int] is a [Z]; the lengths and widths that occur are far from
      the 64-bit bounds, so no wrap-around is written.
    - Functions of libraries outside the repository (regexp, lipgloss,
      bubbles/viewport, the float formatter of fmt) are Section variables. *)

From Stdlib Require Import ZArith String Ascii List Lia.
From Stdlib Require Import Floats.PrimFloat Floats.FloatOps Floats.SpecFloat.
From stdpp Require Import gmap strings list fin_maps sorting pretty.

Open Scope string_scope.
Open Scope list_scope.
Open Scope Z_scope.

(** ** Floats *)

#[global] Instance float_inhabited : Inhabited float := populate 0%float.

(** ** The client model of Prometheus ([dto]), as far as the store reads it *)

Module dto.

Record LabelPair := {
  lp_Name : option string;
  lp_Value : option string
}.

(** [Gauge], [Counter] and [Untyped] each hold one optional value. *)
Record Scalar := { sc_Value : option float }.

Record Metric := {
  Label : list LabelPair;
  Gauge : option Scalar;
  Counter : option Scalar;
  Untyped : option Scalar
}.

Record MetricFamily := {
  mf_Name : option string;
  mf_Metric : list Metric
}.

(** The generated getters return the zero value through a nil pointer. *)
Definition LabelPair_GetName (l : LabelPair) : string := default "" (lp_Name l).
Definition LabelPair_GetValue (l : LabelPair) : string := default "" (lp_Value l).
Definition GetValue (s : Scalar) : float := default 0%float (sc_Value s).
Definition GetName (f : MetricFamily) : string := default "" (mf_Name f).
Definition GetMetric (f : MetricFamily) : list Metric := mf_Metric f.
Definition GetLabel (m : Metric) : list LabelPair := Label m.

End dto.

(** ** Go strings, [unicode/utf8] and [strconv.Quote]

    The verb [%q] of [fmt.Sprintf] is [strconv.Quote]. These are functions of the
    Go library, written here after the library's code; the repository calls
    them from [GenerateSignature]. *)

Definition byte (c : ascii) : Z := Z.of_N (N_of_ascii c).
Definition chr (b : Z) : ascii := ascii_of_N (Z.to_N b).
Definition dquote : ascii := "034"%char.
Definition backslash : ascii := "092"%char.

(** [lowerhex[i]] *)
Definition lowerhex (i : Z) : ascii :=
  if i <? 10 then chr (48 + i) else chr (87 + i).

Module utf8.

Definition RuneError : Z := 0xFFFD.
Definition RuneSelf : Z := 0x80.
Definition MaxRune : Z := 0x10FFFF.
Definition surrogateMin : Z := 0xD800.
Definition surrogateMax : Z := 0xDFFF.
Definition tx : Z := 0x80.
Definition t2 : Z := 0xC0.
Definition t3 : Z := 0xE0.
Definition t4 : Z := 0xF0.
Definition maskx : Z := 0x3F.
Definition mask2 : Z := 0x1F.
Definition mask3 : Z := 0x0F.
Definition mask4 : Z := 0x07.
Definition rune1Max : Z := 0x7F.
Definition rune2Max : Z := 0x7FF.
Definition rune3Max : Z := 0xFFFF.
Definition locb : Z := 0x80.
Definition hicb : Z := 0xBF.
Definition xx : Z := 0xF1.
Definition as_ : Z := 0xF0.
Definition s1 : Z := 0x02.
Definition s2 : Z := 0x13.
Definition s3 : Z := 0x03.
Definition s4 : Z := 0x23.
Definition s5 : Z := 0x34.
Definition s6 : Z := 0x04.
Definition s7 : Z := 0x44.

(** The table [first], by the ranges of its 256 entries. *)
Definition first (b : Z) : Z :=
  if b <? 0x80 then as_
  else if b <? 0xC2 then xx
  else if b <? 0xE0 then s1
  else if b =? 0xE0 then s2
  else if b <? 0xED then s3
  else if b =? 0xED then s4
  else if b <? 0xF0 then s3
  else if b =? 0xF0 then s5
  else if b <? 0xF4 then s6
  else if b =? 0xF4 then s7
  else xx.

(** [acceptRanges[i]] as the pair (lo, hi). *)
Definition acceptRanges (i : Z) : Z * Z :=
  if i =? 0 then (locb, hicb)
  else if i =? 1 then (0xA0, hicb)
  else if i =? 2 then (locb, 0x9F)
  else if i =? 3 then (0x90, hicb)
  else if i =? 4 then (locb, 0x8F)
  else (0, 0).

(** [DecodeRuneInString s] is the rune and its width in bytes. *)
Definition DecodeRuneInString (s : string) : Z * nat :=
  match s with
  | EmptyString => (RuneError, 0%nat)
  | String c0 rest0 =>
    let s0 := byte c0 in
    let x := first s0 in
    if x >=? as_ then ((if x =? xx then RuneError else s0), 1%nat)
    else
      let sz := Z.land x 7 in
      let accept := acceptRanges (Z.shiftr x 4) in
      if Z.of_nat (String.length s) <? sz then (RuneError, 1%nat)
      else match rest0 with
      | EmptyString => (RuneError, 1%nat)
      | String c1 rest1 =>
        let b1 := byte c1 in
        if (b1 <? accept.1) || (accept.2 <? b1) then (RuneError, 1%nat)
        else if sz <=? 2
        then (Z.lor (Z.shiftl (Z.land s0 mask2) 6) (Z.land b1 maskx), 2%nat)
        else match rest1 with
        | EmptyString => (RuneError, 1%nat)
        | String c2 rest2 =>
          let b2 := byte c2 in
          if (b2 <? locb) || (hicb <? b2) then (RuneError, 1%nat)
          else if sz <=? 3
          then (Z.lor (Z.lor (Z.shiftl (Z.land s0 mask3) 12)
                             (Z.shiftl (Z.land b1 maskx) 6))
                      (Z.land b2 maskx), 3%nat)
          else match rest2 with
          | EmptyString => (RuneError, 1%nat)
          | String c3 _ =>
            let b3 := byte c3 in
            if (b3 <? locb) || (hicb <? b3) then (RuneError, 1%nat)
            else (Z.lor (Z.lor (Z.lor (Z.shiftl (Z.land s0 mask4) 18)
                                      (Z.shiftl (Z.land b1 maskx) 12))
                               (Z.shiftl (Z.land b2 maskx) 6))
                        (Z.land b3 maskx), 4%nat)
          end
        end
      end
  end.

(** [AppendRune nil r]: the bytes of the rune [r]. *)
Definition EncodeRune (r : Z) : string :=
  if r <=? rune1Max then String (chr r) ""
  else if r <=? rune2Max then
    String (chr (Z.lor t2 (Z.shiftr r 6)))
      (String (chr (Z.lor tx (Z.land r maskx))) "")
  else if (r <? surrogateMin) || ((surrogateMax <? r) && (r <=? rune3Max)) then
    String (chr (Z.lor t3 (Z.shiftr r 12)))
      (String (chr (Z.lor tx (Z.land (Z.shiftr r 6) maskx)))
        (String (chr (Z.lor tx (Z.land r maskx))) ""))
  else if (rune3Max <? r) && (r <=? MaxRune) then
    String (chr (Z.lor t4 (Z.shiftr r 18)))
      (String (chr (Z.lor tx (Z.land (Z.shiftr r 12) maskx)))
        (String (chr (Z.lor tx (Z.land (Z.shiftr r 6) maskx)))
          (String (chr (Z.lor tx (Z.land r maskx))) "")))
  else String (chr 0xEF) (String (chr 0xBF) (String (chr 0xBD) "")).

End utf8.

(** The tables [isPrint16], [isNotPrint16], [isPrint32] and [isNotPrint32]
    of [strconv], which decide printability above U+00FF, are data of the Go
    library: the model takes their verdict as given. *)
Class UnicodeTables := { isPrintTable : Z → bool }.

Module strconv.
Section Quote.
Context {tables : UnicodeTables}.

Definition IsPrint (r : Z) : bool :=
  if r <=? 0xFF then
    if (0x20 <=? r) && (r <=? 0x7E) then true
    else if (0xA1 <=? r) && (r <=? 0xFF) then negb (r =? 0xAD)
    else false
  else isPrintTable r.

(** The hexadecimal digits of [r], [n] of them, most significant first. *)
Fixpoint hexDigits (n : nat) (r : Z) : string :=
  match n with
  | O => ""
  | S k => String (lowerhex (Z.land (Z.shiftr r (4 * Z.of_nat k)) 0xF)) (hexDigits k r)
  end.

(** [appendEscapedRune] with the double quote as [quote], neither
    ASCII-only nor graphic-only, as [Quote] calls it. *)
Definition appendEscapedRune (r : Z) : string :=
  if (r =? byte dquote) || (r =? byte backslash)
  then String backslash (String (chr r) "")
  else if IsPrint r then utf8.EncodeRune r
  else if r =? 7 then String backslash "a"
  else if r =? 8 then String backslash "b"
  else if r =? 12 then String backslash "f"
  else if r =? 10 then String backslash "n"
  else if r =? 13 then String backslash "r"
  else if r =? 9 then String backslash "t"
  else if r =? 11 then String backslash "v"
  else if (r <? 32) || (r =? 0x7F)
  then String backslash (String "x" (hexDigits 2 r))
  else if r <? 0x10000
  then String backslash (String "u" (hexDigits 4 r))
  else String backslash (String "U" (hexDigits 8 r)).

(** One round of the loop of [appendQuotedWith] at the non-empty [s]: the
    text appended and the width consumed. *)
Definition quoteStep (s : string) : string * nat :=
  match s with
  | EmptyString => ("", 0%nat)
  | String c0 _ =>
    let '(r, width) :=
      if byte c0 >=? utf8.RuneSelf then utf8.DecodeRuneInString s
      else (byte c0, 1%nat) in
    if (width =? 1)%nat && (r =? utf8.RuneError)
    then (String backslash
            (String "x" (String (lowerhex (Z.shiftr (byte c0) 4))
                           (String (lowerhex (Z.land (byte c0) 0xF)) ""))), width)
    else (appendEscapedRune r, width)
  end.

(** The loop [for width := 0; len(s) > 0; s = s[width:]]: [skip] counts the
    bytes of the current rune still to pass over. *)
Fixpoint quoteLoop (skip : nat) (s : string) : string :=
  match s with
  | EmptyString => ""
  | String _ rest =>
    match skip with
    | S k => quoteLoop k rest
    | O => let '(out, width) := quoteStep s in out +:+ quoteLoop (width - 1) rest
    end
  end.

Definition Quote (s : string) : string :=
  String dquote (quoteLoop 0 s +:+ String dquote "").

End Quote.
End strconv.

(** ** store.go *)

Record MetricSeries := {
  Name : string;
  Labels : gmap string string;
  Values : list float
}.

(** [ValuesWithDeltas]: [res] is the slice made by [make], written by index. *)
Definition deltaStep (vals : list float) (res : list float) (i : nat) : list float :=
  let curr := vals !!! i in
  let next := vals !!! (i + 1)%nat in
  if is_nan curr || is_nan next
  then <[i := nan]> res
  else <[i := (next - curr)%float]> res.

Definition histStep (vals : list float) (st : Z * Z) (i : nat) : Z * Z :=
  let '(firstHistIdx, lastHistIdx) := st in
  if negb (is_nan (vals !!! i))
  then ((if firstHistIdx =? -1 then Z.of_nat i else firstHistIdx), Z.of_nat i)
  else (firstHistIdx, lastHistIdx).

Definition ValuesWithDeltas (s : MetricSeries) (mode : string) : list float :=
  if String.eqb mode "off" then Values s
  else if (length (Values s) =? 0)%nat then []
  else
    let res := replicate (length (Values s)) 0%float in
    let lastIdx := (length (Values s) - 1)%nat in
    let res := foldl (deltaStep (Values s)) res (seq 0 lastIdx) in
    if String.eqb mode "view" then
      let '(firstHistIdx, lastHistIdx) :=
        foldl (histStep (Values s)) (-1, -1) (seq 0 lastIdx) in
      if negb (firstHistIdx =? -1) && negb (lastHistIdx =? -1)
         && negb (firstHistIdx =? lastHistIdx)
      then <[lastIdx := (Values s !!! Z.to_nat lastHistIdx
                         - Values s !!! Z.to_nat firstHistIdx)%float]> res
      else <[lastIdx := nan]> res
    else <[lastIdx := Values s !!! lastIdx]> res.

Record Store := {
  Metrics : gmap string MetricSeries;
  HistoryLimit : Z
}.

(** [make([]float64, 0, cap)] panics for a negative capacity. For the
    others, [grantsCapacity cap] is whether the runtime provides the slice:
    it refuses with a panic a capacity whose bytes, eight for each element,
    overflow or exceed the limit of the platform, and ends the program when
    the memory is exhausted. Which capacities are granted is the
    platform's. *)
Class GoMemory := { grantsCapacity : Z → bool }.

(** Whether [make([]float64, 0, cap)] returns. *)
Definition makeReturns {mem : GoMemory} (cap : Z) : bool :=
  (0 <=? cap) && grantsCapacity cap.

Definition NewStore (historyLimit : Z) : Store :=
  {| Metrics := ∅; HistoryLimit := historyLimit |}.

(** [sort.Strings]: ascending, bytes compared as unsigned numbers. *)
Definition string_le (a b : string) : Prop := String.leb a b = true.

#[global] Instance string_le_dec a b : Decision (string_le a b).
Proof. unfold string_le. apply _. Defined.

Definition sortStrings (l : list string) : list string := merge_sort string_le l.

(** A loop whose body may panic: [None] is the panic, which ends the loop
    and the call. *)
Fixpoint foldlOpt {A B} (f : A → B → option A) (a : A) (l : list B) : option A :=
  match l with
  | [] => Some a
  | x :: rest =>
    match f a x with
    | Some a' => foldlOpt f a' rest
    | None => None
    end
  end.

Section StoreOps.
Context {tables : UnicodeTables} {mem : GoMemory}.

(** [for k := range labels] collects the keys in the order the map yields
    them; [sort.Strings] then fixes the order. *)
Definition sortedKeys (labels : gmap string string) : list string :=
  sortStrings (map fst (map_to_list labels)).

(** The body of the loop [for i, k := range keys]. *)
Definition signatureEntry (labels : gmap string string) (i : nat) (k : string) : string :=
  (if (0 <? i)%nat then "," else "")
  +:+ k +:+ "=" +:+ strconv.Quote (default "" (labels !! k)).

Definition GenerateSignature (name : string) (labels : gmap string string) : string :=
  name +:+ "{"
  +:+ foldr String.append "" (imap (signatureEntry labels) (sortedKeys labels))
  +:+ "}".

Definition appendValue (s : Store) (series : MetricSeries) (value : float) : MetricSeries :=
  let vals := Values series ++ [value] in
  {| Name := Name series;
     Labels := Labels series;
     Values := if Z.of_nat (length vals) >? HistoryLimit s then drop 1 vals else vals |}.

(** The store holds pointers to its series: writing the appended series
    back under [sig] is the in-place update of the Go code. A new series is
    made with [make([]float64, 0, s.HistoryLimit)]; when that does not
    return the result is [None]. *)
Definition updateMetric (s : Store) (sig name : string)
    (labels : gmap string string) (value : float) : option Store :=
  match Metrics s !! sig with
  | Some series =>
    Some {| Metrics := <[sig := appendValue s series value]> (Metrics s);
            HistoryLimit := HistoryLimit s |}
  | None =>
    if negb (makeReturns (HistoryLimit s)) then None
    else
      let series := {| Name := name; Labels := labels; Values := [] |} in
      Some {| Metrics := <[sig := appendValue s series value]> (Metrics s);
              HistoryLimit := HistoryLimit s |}
  end.

Definition metricLabels (metric : dto.Metric) : gmap string string :=
  foldl (λ labels label,
           <[dto.LabelPair_GetName label := dto.LabelPair_GetValue label]> labels)
        ∅ (dto.GetLabel metric).

(** [None] is the branch that skips the metric ([continue]). *)
Definition metricValue (metric : dto.Metric) : option float :=
  match dto.Gauge metric with
  | Some g => Some (dto.GetValue g)
  | None =>
    match dto.Counter metric with
    | Some c => Some (dto.GetValue c)
    | None =>
      match dto.Untyped metric with
      | Some u => Some (dto.GetValue u)
      | None => None
      end
    end
  end.

Definition updateFromMetric (name : string) (st : Store * gset string)
    (metric : dto.Metric) : option (Store * gset string) :=
  let labels := metricLabels metric in
  match metricValue metric with
  | None => Some st
  | Some value =>
    let sig := GenerateSignature name labels in
    match updateMetric st.1 sig name labels value with
    | Some s' => Some (s', {[sig]} ∪ st.2)
    | None => None
    end
  end.

Definition updateFromFamily (st : Store * gset string)
    (family : dto.MetricFamily) : option (Store * gset string) :=
  foldlOpt (updateFromMetric (dto.GetName family)) st (dto.GetMetric family).

(** The second loop: every series whose signature was not seen. *)
Definition fillMissing (s : Store) (seenSignatures : gset string) : Store :=
  {| Metrics :=
       map_imap (λ sig series,
                   Some (if decide (sig ∈ seenSignatures) then series
                         else appendValue s series nan))
                (Metrics s);
     HistoryLimit := HistoryLimit s |}.

(** [families] is the sequence of families in the order in which the loop
    over the map visits them. *)
Definition UpdateFromFamilies (s : Store) (families : list dto.MetricFamily)
    : option Store :=
  match foldlOpt updateFromFamily (s, ∅) families with
  | Some st => Some (fillMissing st.1 st.2)
  | None => None
  end.

End StoreOps.


(** ** Libraries behind main.go

    The regular-expression engine, the terminal styling of lipgloss, the
    viewport of bubbles and two conversions of the Go runtime are outside
    the repository. Each is an interface here; the theorems hold for every
    implementation of it. *)

(** [regexp]: [Compile p] is whether [regexp.Compile(p)] returns no error;
    [MatchString p s] is the first result of [regexp.MatchString(p, s)]
    (the code drops the second, the error). *)
Class Regexp := {
  regexp_Compile : string → bool;
  regexp_MatchString : string → string → bool
}.

(** [lipgloss]: styles, the printed width of a text, and the table renderer
    ([table.New().Border(..).BorderStyle(..).Headers(..).Rows(..).Render()]). *)
Class Lipgloss := {
  Style : Type;
  NewStyle : Style;
  Style_Foreground : Style → string → Style;
  Style_Faint : Style → bool → Style;
  Style_Render : Style → string → string;
  lipgloss_Width : string → Z;
  table_Render : list string → list (list string) → string
}.

(** [bubbles/viewport]: the scrolling pane and the commands it may return. *)
Class Viewport := {
  viewport_Model : Type;
  viewport_Cmd : Type;
  viewport_zero : viewport_Model;
  viewport_New : Z → Z → viewport_Model;
  viewport_setWidth : viewport_Model → Z → viewport_Model;
  viewport_setHeight : viewport_Model → Z → viewport_Model;
  viewport_setMouseWheelEnabled : viewport_Model → bool → viewport_Model;
  viewport_SetContent : viewport_Model → string → viewport_Model;
  viewport_Update : viewport_Model → string → viewport_Model * option viewport_Cmd
}.

(** [fmt.Sprintf("%.2f", val)] and [int(d.Seconds())] for a duration [d] in
    nanoseconds. *)
Class GoRuntime := {
  Sprintf_2f : float → string;
  Duration_SecondsInt : Z → Z
}.

(** ** main.go *)

Definition DeltaModeOff : string := "off".
Definition DeltaModeNext : string := "next".
Definition DeltaModeView : string := "view".

Definition LabelModeShowAll : string := "all".
Definition LabelModeHideFiltered : string := "hide-filtered".
Definition LabelModeHideAll : string := "hide-all".

Record Config := {
  URL : string;
  Interval : Z;
  History : Z;
  LabelMode : string;
  FilterMetric : string;
  FilterLabel : string;
  DeltaMode : string
}.

(** [fetcher.go] *)
Record Fetcher := { fetcher_URL : string }.

Definition NewFetcher (url : string) : Fetcher := {| fetcher_URL := url |}.

(** [strings.TrimRight s cutset] for a cutset of one byte. *)
Fixpoint TrimRight (s : string) (c : ascii) : string :=
  match s with
  | EmptyString => ""
  | String a rest =>
    match TrimRight rest c with
    | EmptyString => if Ascii.eqb a c then "" else String a ""
    | t => String a t
    end
  end.

(** [strings.Index]: the position of the first occurrence, or -1. *)
Definition strings_Index (s substr : string) : Z :=
  match String.index 0 substr s with
  | Some n => Z.of_nat n
  | None => -1
  end.

(** The slices [s[:n]] and [s[n:]]. *)
Definition sliceTo (s : string) (n : Z) : string := substring 0 (Z.to_nat n) s.
Definition sliceFrom (s : string) (n : Z) : string :=
  substring (Z.to_nat n) (String.length s - Z.to_nat n) s.

Definition strings_HasPrefix (s prefix : string) : bool := String.prefix prefix s.

(** [strings.Join] *)
Fixpoint strings_Join (elems : list string) (sep : string) : string :=
  match elems with
  | [] => ""
  | [e] => e
  | e :: rest => e +:+ sep +:+ strings_Join rest sep
  end.

(** [truncateMessage]; [len(msg)] counts bytes and [msg[:n]] cuts at a byte. *)
Definition truncateMessage (msg : string) (maxLen : Z) : string :=
  let maxLen := if maxLen <? 4 then 4 else maxLen in
  if Z.of_nat (String.length msg) <=? maxLen then msg
  else sliceTo msg (maxLen - 3) +:+ "...".

Definition getFilteredLabelKeys (filterLabel : string) : list string :=
  if String.eqb filterLabel "" then []
  else
    let idx := strings_Index filterLabel "=" in
    if negb (idx =? -1) then [sliceTo filterLabel idx] else [].

(** A start-up either exits with status 1 and a message, or enters the
    event loop ([tea.NewProgram(m).Run()]) with a model. *)
Inductive Startup (A : Type) :=
| Exit1 (message : string)
| Proceed (a : A).
Arguments Exit1 {A} message.
Arguments Proceed {A} a.

Section Main.
Context {tables : UnicodeTables} {mem : GoMemory} {re : Regexp} {lg : Lipgloss}
  {vp : Viewport} {rt : GoRuntime}.

(** The store is held through a pointer and the model is passed by value:
    the model returned by [Update] is the one the runtime keeps, so the
    store is threaded through it. *)
Record model := {
  cfg : Config;
  store : Store;
  fetcher : Fetcher;
  err : option string;
  connectionError : option string;
  isConnected : bool;
  lastSuccessfulFetch : Z;
  showHelp : bool;
  isPaused : bool;
  width : Z;
  height : Z;
  viewport : viewport_Model;
  viewportReady : bool;
  metricNameStyle : Style;
  labelStyle : Style;
  currentValueStyle : Style;
  deltaValueStyle : Style
}.

(** The messages [Update] dispatches on; [fetchResult] carries the families
    in the order in which the store's loop visits the map. *)
Inductive Msg :=
| KeyMsg (key : string)
| tickMsg (t : Z)
| fetchResult (families : list dto.MetricFamily)
| errorMsg (e : string)
| WindowSizeMsg (Width Height : Z)
| otherMsg.

(** The commands [Update] returns; a nil command is [None]. *)
#[warnings="-register-all"]
Inductive Cmd :=
| tea_Quit
| fetchCmd (f : Fetcher)
| tickCmd (interval : Z)
| tea_Batch (cmds : list Cmd)
| viewportCmd (c : viewport_Cmd).

Definition formatFloat (val : float) : string :=
  TrimRight (TrimRight (Sprintf_2f val) "0") ".".

Definition labelPart (kv : string * string) : string := kv.1 +:+ "=" +:+ kv.2.

(** [formatMetricName]: the name with all its labels, unstyled. *)
Definition formatMetricName (series : MetricSeries) (hideLabels : bool) : string :=
  if negb hideLabels && (0 <? size (Labels series))%nat then
    Name series
    +:+ ("{" +:+ strings_Join (sortStrings (labelPart <$> map_to_list (Labels series))) ","
         +:+ "}")
  else Name series.

Definition labelParts (m : model) (series : MetricSeries) : list string :=
  if String.eqb (LabelMode (cfg m)) LabelModeHideFiltered then
    let filteredKeys := getFilteredLabelKeys (FilterLabel (cfg m)) in
    labelPart <$>
      filter (λ kv, kv.1 ∉ filteredKeys) (map_to_list (Labels series))
  else labelPart <$> map_to_list (Labels series).

Definition styledName (m : model) (series : MetricSeries) : string :=
  let styled := Style_Render (metricNameStyle m) (Name series) in
  if negb (String.eqb (LabelMode (cfg m)) LabelModeHideAll)
     && (0 <? size (Labels series))%nat
  then
    let parts := labelParts m series in
    if (0 <? length parts)%nat
    then styled +:+ Style_Render (labelStyle m)
                      ("{" +:+ strings_Join (sortStrings parts) "," +:+ "}")
    else styled
  else styled.

(** The cell of value column [i] of a row. *)
Definition valueCell (m : model) (vals : list float) (numValueCols i : Z) : string :=
  let offset := numValueCols - 1 - i in
  let valIdx := Z.of_nat (length vals) - 1 - offset in
  let isCurrentValue := i =? numValueCols - 1 in
  if (0 <=? valIdx) && (valIdx <? Z.of_nat (length vals)) then
    let val := vals !!! Z.to_nat valIdx in
    if is_nan val then "."
    else
      let formatted := formatFloat val in
      let isDeltaValue :=
        if String.eqb (DeltaMode (cfg m)) DeltaModeNext then negb isCurrentValue
        else if String.eqb (DeltaMode (cfg m)) DeltaModeView then true
        else false in
      if isDeltaValue then
        if String.eqb formatted "0" || String.eqb formatted "-0" then "."
        else Style_Render (deltaValueStyle m)
               (if (0 <? val)%float then "+" +:+ formatted else formatted)
      else if isCurrentValue then Style_Render (currentValueStyle m) formatted
      else formatted
  else "".

Definition clampCols (history : Z) : Z := if history <? 1 then 1 else history.

Definition buildTableRow (m : model) (series : MetricSeries) : list string :=
  let vals := ValuesWithDeltas series (DeltaMode (cfg m)) in
  let numValueCols := clampCols (History (cfg m)) in
  styledName m series :: (valueCell m vals numValueCols <$> seqZ 0 numValueCols).

Definition buildTableRows (m : model) (filteredSeries : list MetricSeries)
    : list (list string) :=
  buildTableRow m <$> filteredSeries.

Definition maxWidthStep (colIdx : nat) (maxWidth : Z) (row : list string) : Z :=
  match row !! colIdx with
  | Some cell => if maxWidth <? lipgloss_Width cell then lipgloss_Width cell else maxWidth
  | None => maxWidth
  end.

Definition calculateColumnWidths (headers : list string) (rows : list (list string))
    : list Z :=
  if (length rows =? 0)%nat && (length headers =? 0)%nat then []
  else
    let maxCols :=
      foldl (λ maxCols row, if (maxCols <? length row)%nat then length row else maxCols)
            (length headers) rows in
    (λ colIdx, foldl (maxWidthStep colIdx) (maxWidthStep colIdx 0 headers) rows)
      <$> seq 0 maxCols.

(** The label check of [buildTable], entered when the pattern is not empty. *)
Definition labelMatched (filterLabel : string) (series : MetricSeries) : bool :=
  let idx := strings_Index filterLabel "=" in
  if negb (idx =? -1) then
    let key := sliceTo filterLabel idx in
    let rest := sliceFrom filterLabel (idx + 1) in
    if strings_HasPrefix rest "~" then
      let pattern := sliceFrom rest 1 in
      match Labels series !! key with
      | Some val => regexp_MatchString pattern val
      | None => false
      end
    else
      match Labels series !! key with
      | Some val => String.eqb val rest
      | None => false
      end
  else
    existsb (λ kv, regexp_MatchString filterLabel kv.2) (map_to_list (Labels series)).

(** One round of the filter loop: [false] is [continue]. *)
Definition passesFilter (c : Config) (series : MetricSeries) : bool :=
  if negb (String.eqb (FilterMetric c) "")
     && negb (regexp_MatchString (FilterMetric c) (Name series))
  then false
  else if negb (String.eqb (FilterLabel c) "")
          && negb (labelMatched (FilterLabel c) series)
  then false
  else true.

Definition filterSeries (m : model) : list MetricSeries :=
  omap (λ k, match Metrics (store m) !! k with
             | Some series => if passesFilter (cfg m) series then Some series else None
             | None => None
             end)
       (sortStrings (map fst (map_to_list (Metrics (store m))))).

Definition headerTitle (m : model) (maxPossibleValueCols i : Z) : string :=
  if i =? maxPossibleValueCols - 1 then "Curr"
  else "-" +:+ pretty ((maxPossibleValueCols - 1 - i)
                       * Duration_SecondsInt (Interval (cfg m))) +:+ "s".

Definition buildHeaders (m : model) : list string :=
  let maxPossibleValueCols := clampCols (History (cfg m)) in
  "Metric" :: (headerTitle m maxPossibleValueCols <$> seqZ 0 maxPossibleValueCols).

(** The loop that adds value columns from the right; leaving the recursion
    with [numValueCols] is the [break]. *)
Fixpoint fitLoop (colWidths : list Z) (termWidth : Z) (idxs : list Z)
    (usedWidth numValueCols : Z) : Z :=
  match idxs with
  | [] => numValueCols
  | i :: rest =>
    let colIdx := Z.of_nat (length colWidths) - 1 - i in
    if (0 <? colIdx) && (colIdx <? Z.of_nat (length colWidths)) then
      let w := colWidths !!! Z.to_nat colIdx in
      if usedWidth + w + 1 <=? termWidth
      then fitLoop colWidths termWidth rest (usedWidth + w + 1) (numValueCols + 1)
      else numValueCols
    else fitLoop colWidths termWidth rest usedWidth numValueCols
  end.

Definition fitValueCols (colWidths : list Z) (termWidth : Z) : Z :=
  let usedWidth :=
    if (0 <? length colWidths)%nat then 1 + (colWidths !!! 0%nat + 1) else 1 in
  let maxPossibleCols := Z.of_nat (length colWidths) - 1 in
  let numValueCols := fitLoop colWidths termWidth (seqZ 0 maxPossibleCols) usedWidth 0 in
  if numValueCols <? 1 then 1 else numValueCols.

(** [row[0]] followed by [row[startCol:]]. *)
Definition trimColumns (numValueCols : Z) (row : list string) : list string :=
  let startCol := Z.of_nat (length row) - numValueCols in
  let startCol := if startCol <? 1 then 1 else startCol in
  (row !!! 0%nat) :: drop (Z.to_nat startCol) row.

(** What [buildTable] hands to the table renderer: the headers and the rows,
    or [None] when no series passes the filter. *)
Definition tableLayout (m : model) : option (list string * list (list string)) :=
  let filteredSeries := filterSeries m in
  if (length filteredSeries =? 0)%nat then None
  else
    let allRows := buildTableRows m filteredSeries in
    let allHeaders := buildHeaders m in
    let colWidths := calculateColumnWidths allHeaders allRows in
    let numValueCols := fitValueCols colWidths (width m) in
    Some (trimColumns numValueCols allHeaders, trimColumns numValueCols <$> allRows).

Definition buildTable (m : model) : string :=
  match tableLayout m with
  | None => "No metrics to display"
  | Some (headers, rows) => table_Render headers rows
  end.

(** [m.viewport.SetContent(m.buildTable())] under [if m.viewportReady]. *)
Definition refreshViewport (m : model) : model :=
  if viewportReady m then
    {| cfg := cfg m; store := store m; fetcher := fetcher m; err := err m;
       connectionError := connectionError m; isConnected := isConnected m;
       lastSuccessfulFetch := lastSuccessfulFetch m; showHelp := showHelp m;
       isPaused := isPaused m; width := width m; height := height m;
       viewport := viewport_SetContent (viewport m) (buildTable m);
       viewportReady := viewportReady m;
       metricNameStyle := metricNameStyle m; labelStyle := labelStyle m;
       currentValueStyle := currentValueStyle m;
       deltaValueStyle := deltaValueStyle m |}
  else m.

Definition setCfg (m : model) (c : Config) : model :=
  {| cfg := c; store := store m; fetcher := fetcher m; err := err m;
     connectionError := connectionError m; isConnected := isConnected m;
     lastSuccessfulFetch := lastSuccessfulFetch m; showHelp := showHelp m;
     isPaused := isPaused m; width := width m; height := height m;
     viewport := viewport m; viewportReady := viewportReady m;
     metricNameStyle := metricNameStyle m; labelStyle := labelStyle m;
     currentValueStyle := currentValueStyle m;
     deltaValueStyle := deltaValueStyle m |}.

Definition setLabelMode (c : Config) (mode : string) : Config :=
  {| URL := URL c; Interval := Interval c; History := History c;
     LabelMode := mode; FilterMetric := FilterMetric c;
     FilterLabel := FilterLabel c; DeltaMode := DeltaMode c |}.

Definition setDeltaMode (c : Config) (mode : string) : Config :=
  {| URL := URL c; Interval := Interval c; History := History c;
     LabelMode := LabelMode c; FilterMetric := FilterMetric c;
     FilterLabel := FilterLabel c; DeltaMode := mode |}.

(** Key [l]: the next label mode. *)
Definition nextLabelMode (c : Config) : string :=
  if String.eqb (FilterLabel c) "" then
    if String.eqb (LabelMode c) LabelModeShowAll then LabelModeHideAll
    else LabelModeShowAll
  else
    if String.eqb (LabelMode c) LabelModeShowAll then LabelModeHideFiltered
    else if String.eqb (LabelMode c) LabelModeHideFiltered then LabelModeHideAll
    else if String.eqb (LabelMode c) LabelModeHideAll then LabelModeShowAll
    else LabelModeShowAll.

(** Key [d]: the next delta mode. *)
Definition nextDeltaMode (c : Config) : string :=
  if String.eqb (DeltaMode c) DeltaModeOff then DeltaModeNext
  else if String.eqb (DeltaMode c) DeltaModeNext then DeltaModeView
  else if String.eqb (DeltaMode c) DeltaModeView then DeltaModeOff
  else DeltaModeOff.

(** [m.tickCmd()] and [m.fetchCmd()]: the timer of one interval, and the
    fetch through the model's fetcher. *)
Definition model_tickCmd (m : model) : Cmd := tickCmd (Interval (cfg m)).
Definition model_fetchCmd (m : model) : Cmd := fetchCmd (fetcher m).

(** [Update]; [now] is what [time.Now()] returns during the call. The
    result is [None] when the call panics, which it can only do inside
    [UpdateFromFamilies]. *)
Definition Update (now : Z) (m : model) (msg : Msg) : option (model * option Cmd) :=
  match msg with
  | KeyMsg key =>
    Some (
    if String.eqb key "q" || String.eqb key "ctrl+c" then (m, Some tea_Quit)
    else if String.eqb key "?" then
      ({| cfg := cfg m; store := store m; fetcher := fetcher m; err := err m;
          connectionError := connectionError m; isConnected := isConnected m;
          lastSuccessfulFetch := lastSuccessfulFetch m;
          showHelp := negb (showHelp m);
          isPaused := isPaused m; width := width m; height := height m;
          viewport := viewport m; viewportReady := viewportReady m;
          metricNameStyle := metricNameStyle m; labelStyle := labelStyle m;
          currentValueStyle := currentValueStyle m;
          deltaValueStyle := deltaValueStyle m |}, None)
    else if String.eqb key "l" then
      (refreshViewport (setCfg m (setLabelMode (cfg m) (nextLabelMode (cfg m)))), None)
    else if String.eqb key "d" then
      (refreshViewport (setCfg m (setDeltaMode (cfg m) (nextDeltaMode (cfg m)))), None)
    else if String.eqb key "p" then
      ({| cfg := cfg m; store := store m; fetcher := fetcher m; err := err m;
          connectionError := connectionError m; isConnected := isConnected m;
          lastSuccessfulFetch := lastSuccessfulFetch m; showHelp := showHelp m;
          isPaused := negb (isPaused m);
          width := width m; height := height m;
          viewport := viewport m; viewportReady := viewportReady m;
          metricNameStyle := metricNameStyle m; labelStyle := labelStyle m;
          currentValueStyle := currentValueStyle m;
          deltaValueStyle := deltaValueStyle m |}, None)
    else if viewportReady m then
      let '(vp, cmd) := viewport_Update (viewport m) key in
      ({| cfg := cfg m; store := store m; fetcher := fetcher m; err := err m;
          connectionError := connectionError m; isConnected := isConnected m;
          lastSuccessfulFetch := lastSuccessfulFetch m; showHelp := showHelp m;
          isPaused := isPaused m; width := width m; height := height m;
          viewport := vp; viewportReady := viewportReady m;
          metricNameStyle := metricNameStyle m; labelStyle := labelStyle m;
          currentValueStyle := currentValueStyle m;
          deltaValueStyle := deltaValueStyle m |}, viewportCmd <$> cmd)
    else (m, None))
  | tickMsg _ =>
    if isPaused m then Some (m, Some (model_tickCmd m))
    else Some (m, Some (tea_Batch [model_fetchCmd m; model_tickCmd m]))
  | fetchResult families =>
    if isPaused m then Some (m, None)
    else
      match UpdateFromFamilies (store m) families with
      | None => None
      | Some updated =>
      Some (refreshViewport
         {| cfg := cfg m;
            store := updated;
            fetcher := fetcher m; err := err m;
            connectionError := None;
            isConnected := true;
            lastSuccessfulFetch := now;
            showHelp := showHelp m;
            isPaused := isPaused m; width := width m; height := height m;
            viewport := viewport m; viewportReady := viewportReady m;
            metricNameStyle := metricNameStyle m; labelStyle := labelStyle m;
            currentValueStyle := currentValueStyle m;
            deltaValueStyle := deltaValueStyle m |}, None)
      end
  | errorMsg e =>
    Some ({| cfg := cfg m; store := store m; fetcher := fetcher m; err := err m;
        connectionError := Some e;
        isConnected := false;
        lastSuccessfulFetch := lastSuccessfulFetch m; showHelp := showHelp m;
        isPaused := isPaused m; width := width m; height := height m;
        viewport := viewport m; viewportReady := viewportReady m;
        metricNameStyle := metricNameStyle m; labelStyle := labelStyle m;
        currentValueStyle := currentValueStyle m;
        deltaValueStyle := deltaValueStyle m |}, None)
  | WindowSizeMsg Width Height =>
    Some (
    let viewportHeight := if Height - 2 <? 1 then 1 else Height - 2 in
    let vp :=
      if negb (viewportReady m)
      then viewport_setMouseWheelEnabled (viewport_New Width viewportHeight) true
      else viewport_setHeight (viewport_setWidth (viewport m) Width) viewportHeight in
    (refreshViewport
       {| cfg := cfg m; store := store m; fetcher := fetcher m; err := err m;
          connectionError := connectionError m; isConnected := isConnected m;
          lastSuccessfulFetch := lastSuccessfulFetch m; showHelp := showHelp m;
          isPaused := isPaused m; width := Width; height := Height;
          viewport := vp; viewportReady := true;
          metricNameStyle := metricNameStyle m; labelStyle := labelStyle m;
          currentValueStyle := currentValueStyle m;
          deltaValueStyle := deltaValueStyle m |}, None))
  | otherMsg => Some (m, None)
  end.

(** [Init] *)
Definition Init (m : model) : option Cmd :=
  Some (tea_Batch [model_fetchCmd m; model_tickCmd m]).

(** ** Start-up: [parseFlags] and [main]

    [flag.Parse] is the library's; [parsed] is the configuration it leaves
    in [cfg]. *)
Definition parseFlags (parsed : Config) : Startup Config :=
  if negb (String.eqb (LabelMode parsed) LabelModeShowAll
           || String.eqb (LabelMode parsed) LabelModeHideFiltered
           || String.eqb (LabelMode parsed) LabelModeHideAll)
  then Exit1 "Error: invalid label mode"
  else if negb (String.eqb (DeltaMode parsed) DeltaModeOff
                || String.eqb (DeltaMode parsed) DeltaModeNext
                || String.eqb (DeltaMode parsed) DeltaModeView)
  then Exit1 "Error: invalid delta mode"
  else Proceed parsed.

(** [main], up to the call that runs the program: the model it runs. *)
Definition main (parsed : Config) : Startup model :=
  match parseFlags parsed with
  | Exit1 message => Exit1 message
  | Proceed c =>
    if String.eqb (URL c) "" then Exit1 "Error: -url argument is required"
    else if negb (regexp_Compile (FilterMetric c))
    then Exit1 "Error: invalid metric filter regex"
    else if negb (regexp_Compile (FilterLabel c))
    then Exit1 "Error: invalid label filter regex"
    else
      Proceed
        {| cfg := c;
           store := NewStore (History c);
           fetcher := NewFetcher (URL c);
           err := None;
           connectionError := None;
           isConnected := false;
           lastSuccessfulFetch := 0;
           showHelp := false;
           isPaused := false;
           width := 80;
           height := 24;
           viewport := viewport_zero;
           viewportReady := false;
           metricNameStyle := Style_Foreground NewStyle "86";
           labelStyle := Style_Faint NewStyle true;
           currentValueStyle := Style_Foreground NewStyle "213";
           deltaValueStyle := Style_Foreground NewStyle "208" |}
  end.

End Main.

(** ** The screen ([View])

    What [View] and [renderHelpOverlay] use of lipgloss and of the viewport
    beyond the above: bold text, the box of the help ([Border] with the
    rounded border, [BorderForeground], [Padding], [Background]),
    [lipgloss.Place] centred horizontally and vertically with blanks as
    whitespace, and the position and the text of the pane. *)
Class LipglossView {lg : Lipgloss} := {
  Style_Bold : Style → bool → Style;
  Style_BorderRounded : Style → Style;
  Style_BorderForeground : Style → string → Style;
  Style_Padding : Style → Z → Z → Style;
  Style_Background : Style → string → Style;
  lipgloss_PlaceCenter : Z → Z → string → string
}.

Class ViewportView {vp : Viewport} := {
  viewport_AtTop : viewport_Model → bool;
  viewport_AtBottom : viewport_Model → bool;
  viewport_View : viewport_Model → string
}.

Definition lineFeed : string := String (chr 10) "".

Definition helpText : string :=
  lineFeed
  +:+ "Help" +:+ lineFeed
  +:+ lineFeed
  +:+ "  q/ctrl+c    Quit" +:+ lineFeed
  +:+ "  ?           Toggle this help" +:+ lineFeed
  +:+ "  l           Cycle label display mode" +:+ lineFeed
  +:+ "  d           Cycle delta mode (off/next/view)" +:+ lineFeed
  +:+ "  p           Pause/unpause updates" +:+ lineFeed
  +:+ "  ↑/↓         Scroll up/down" +:+ lineFeed
  +:+ "  PgUp/PgDn   Page up/down" +:+ lineFeed
  +:+ "  Home/End    Go to top/bottom" +:+ lineFeed
  +:+ lineFeed
  +:+ "Press ? to close" +:+ lineFeed.

Section Screen.
Context {lg : Lipgloss} {lgv : LipglossView} {vp : Viewport} {vpv : ViewportView}.

Definition deltasStatus (m : model) : string :=
  if String.eqb (DeltaMode (cfg m)) DeltaModeNext
  then Style_Render (deltaValueStyle m) "Δ" +:+ " Next"
  else if String.eqb (DeltaMode (cfg m)) DeltaModeView
  then Style_Render (deltaValueStyle m) "Δ" +:+ " View"
  else "Off".

Definition pauseStatus (m : model) : string :=
  if isPaused m then
    let pauseStyle := Style_Bold (Style_Foreground NewStyle "220") true in
    " | " +:+ Style_Render pauseStyle "⏸  PAUSED"
  else "".

Definition scrollHints (m : model) : string :=
  let scrollHintStyle := Style_Faint (Style_Foreground NewStyle "240") true in
  if negb (viewport_AtTop (viewport m)) && negb (viewport_AtBottom (viewport m))
  then Style_Render scrollHintStyle " ▲▼"
  else if negb (viewport_AtTop (viewport m)) then Style_Render scrollHintStyle " ▲"
  else if negb (viewport_AtBottom (viewport m)) then Style_Render scrollHintStyle " ▼"
  else "".

Definition maxMessageLength (m : model) : Z :=
  let fixedPrefix := "? for help | Deltas: " in
  let fixedSeparator := " | " in
  let fixedWidth :=
    lipgloss_Width fixedPrefix + lipgloss_Width (deltasStatus m)
    + lipgloss_Width (pauseStatus m) + lipgloss_Width fixedSeparator
    + lipgloss_Width (scrollHints m) + lipgloss_Width "● " in
  let safetyMargin := 3 in
  let maxMessageLength := width m - fixedWidth - safetyMargin in
  if maxMessageLength <? 20 then 20 else maxMessageLength.

Definition statusIndicator (m : model) : string :=
  let connectedStyle := Style_Foreground NewStyle "71" in
  let errorStyle := Style_Foreground NewStyle "196" in
  if isConnected m then
    Style_Render connectedStyle "● " +:+ truncateMessage (URL (cfg m)) (maxMessageLength m)
  else
    match connectionError m with
    | Some e => Style_Render errorStyle ("⚠ " +:+ truncateMessage e (maxMessageLength m))
    | None =>
      Style_Render (Style_Faint NewStyle true) "● "
      +:+ truncateMessage (URL (cfg m)) (maxMessageLength m)
    end.

Definition footer (m : model) : string :=
  "? for help | Deltas: " +:+ deltasStatus m +:+ pauseStatus m
  +:+ " | " +:+ statusIndicator m +:+ scrollHints m.

(** [renderHelpOverlay]: the argument [content] is not used. *)
Definition renderHelpOverlay (m : model) (content : string) : string :=
  let helpStyle :=
    Style_Foreground
      (Style_Background
         (Style_Padding (Style_BorderForeground (Style_BorderRounded NewStyle) "63") 1 2)
         "235")
      "252" in
  let helpBox := Style_Render helpStyle helpText in
  lipgloss_PlaceCenter (width m) (height m) helpBox.

Definition View (m : model) : string :=
  match err m with
  | Some e => "Error: " +:+ e +:+ lineFeed +:+ lineFeed +:+ "Press q to quit."
  | None =>
    if negb (viewportReady m) then "Initializing..."
    else
      let output := viewport_View (viewport m) +:+ lineFeed +:+ footer m in
      if showHelp m then renderHelpOverlay m output else output
  end.

End Screen.

(** * Notions used to state the properties *)

(** ** The delta projection *)

(** The difference the loop over the historical indices writes at [i]. *)
Definition deltaAt (vals : list float) (i : nat) : float :=
  if is_nan (vals !!! i) || is_nan (vals !!! (i + 1)%nat)
  then nan else (vals !!! (i + 1)%nat - vals !!! i)%float.

(** What the loop over the historical indices leaves in
    [(firstHistIdx, lastHistIdx)] after the indices below [n]. *)
Definition histInv (vals : list float) (n : nat) (st : Z * Z) : Prop :=
  (st = (-1, -1) ∧ ∀ i, (i < n)%nat → is_nan (vals !!! i) = true)
  ∨ (∃ fi li : nat,
       st = (Z.of_nat fi, Z.of_nat li) ∧ (fi ≤ li < n)%nat ∧
       is_nan (vals !!! fi) = false ∧ is_nan (vals !!! li) = false ∧
       (∀ i, (i < fi)%nat → is_nan (vals !!! i) = true) ∧
       (∀ i, (li < i < n)%nat → is_nan (vals !!! i) = true)).

(** The earliest and the latest index before the last one that hold a
    sample other than the missing one. *)
Definition firstHist (vals : list float) (i : nat) : Prop :=
  (i < length vals - 1)%nat ∧ is_nan (vals !!! i) = false ∧
  ∀ j, (j < i)%nat → is_nan (vals !!! j) = true.

Definition lastHist (vals : list float) (i : nat) : Prop :=
  (i < length vals - 1)%nat ∧ is_nan (vals !!! i) = false ∧
  ∀ j, (i < j < length vals - 1)%nat → is_nan (vals !!! j) = true.

(** The series of the specification's example, oldest sample first. *)
Definition exampleSeries : MetricSeries :=
  {| Name := "requests_total"; Labels := ∅; Values := [10; 15; 12]%float |}.

(** ** The store *)

Section StoreNotions.
Context {tables : UnicodeTables} {mem : GoMemory}.

(** An observation of a snapshot that carries a value: what the first loop
    of [UpdateFromFamilies] passes to [updateMetric]. *)
Record Observation := {
  obs_sig : string;
  obs_name : string;
  obs_labels : gmap string string;
  obs_value : float
}.

Definition metricObservation (name : string) (metric : dto.Metric) : option Observation :=
  (λ value, {| obs_sig := GenerateSignature name (metricLabels metric);
               obs_name := name;
               obs_labels := metricLabels metric;
               obs_value := value |}) <$> metricValue metric.

Definition familyObservations (family : dto.MetricFamily) : list Observation :=
  omap (metricObservation (dto.GetName family)) (dto.GetMetric family).

(** The value-carrying observations of a snapshot, in the order visited. *)
Definition snapshotObservations (families : list dto.MetricFamily) : list Observation :=
  families ≫= familyObservations.

Definition snapshotSignatures (families : list dto.MetricFamily) : list string :=
  obs_sig <$> snapshotObservations families.

(** The values a snapshot observes for the signature [sig], in order. *)
Definition observedValues (sig : string) (families : list dto.MetricFamily) : list float :=
  obs_value <$> filter (λ ob, obs_sig ob = sig) (snapshotObservations families).

(** The series [updateMetric] creates for an observation, before the append. *)
Definition freshSeries (ob : Observation) : MetricSeries :=
  {| Name := obs_name ob; Labels := obs_labels ob; Values := [] |}.

(** One round of the first loop on an observation: the call of
    [updateMetric] and the entry in [seenSignatures]. *)
Definition observe (st : Store * gset string) (ob : Observation)
    : option (Store * gset string) :=
  match updateMetric st.1 (obs_sig ob) (obs_name ob) (obs_labels ob) (obs_value ob) with
  | Some s' => Some (s', {[obs_sig ob]} ∪ st.2)
  | None => None
  end.

(** The store [updateMetric] leaves for an observation when it does not
    panic. *)
Definition applyObservation (s : Store) (ob : Observation) : Store :=
  {| Metrics :=
       <[obs_sig ob :=
           appendValue s (default (freshSeries ob) (Metrics s !! obs_sig ob))
                       (obs_value ob)]> (Metrics s);
     HistoryLimit := HistoryLimit s |}.

(** The store after one update cycle that does not panic: the observations
    applied in turn, then the missing sample for the signatures not seen. *)
Definition cycleStore (s : Store) (families : list dto.MetricFamily) : Store :=
  fillMissing (foldl applyObservation s (snapshotObservations families))
              (list_to_set (snapshotSignatures families)).

(** A sequence of update cycles, one snapshot each. *)
Definition runCycles (s : Store) (cycles : list (list dto.MetricFamily)) : option Store :=
  foldlOpt UpdateFromFamilies s cycles.

(** A snapshot without the metrics that carry no gauge, counter or untyped
    value. *)
Definition dropValueless (family : dto.MetricFamily) : dto.MetricFamily :=
  {| dto.mf_Name := dto.mf_Name family;
     dto.mf_Metric := filter (λ metric, is_Some (metricValue metric)) (dto.mf_Metric family) |}.

(** One sample more: [new] is [old] after one [appendValue]. *)
Definition advancedByOne (s : Store) (old new : MetricSeries) : Prop :=
  ∃ v, new = appendValue s old v.

End StoreNotions.

(** The most recent [n] elements of [l], oldest first. *)
Definition lastN {A} (n : Z) (l : list A) : list A :=
  drop (length l - Z.to_nat n) l.

(** The series [new] is the series [old] after the sample [v] has come in
    under a window of [n] samples: the same name and labels, and as samples
    the most recent [n] of the samples of [old] followed by [v]. *)
Definition gainsSample (n : Z) (old : MetricSeries) (v : float) (new : MetricSeries) : Prop :=
  Name new = Name old ∧ Labels new = Labels old
  ∧ Values new = lastN n (Values old ++ [v]).

(** The series [updateMetric] makes of a first observation. *)
Definition createdSeries (name : string) (labels : gmap string string) (v : float)
    : MetricSeries :=
  {| Name := name; Labels := labels; Values := [v] |}.

(** ** Inputs of the worked examples

    The examples use ASCII strings only, on which [strconv.Quote] does not
    consult the Unicode tables; [asciiTables] answers the questions that
    are never asked. *)
Definition asciiTables : UnicodeTables := {| isPrintTable := λ _, false |}.

(** The check of [makeslice] on 64-bit Linux: the bytes of the slice, eight
    for each element, may not exceed the [2^48] bytes of the heap's address
    space. The examples use capacities of a few samples, and the largest
    value of the flag for the refusal. *)
Definition memory64 : GoMemory := {| grantsCapacity := λ cap, cap * 8 <=? 2 ^ 48 |}.

(** A gauge without labels. *)
Definition gaugeMetric (value : float) : dto.Metric :=
  {| dto.Label := [];
     dto.Gauge := Some {| dto.sc_Value := Some value |};
     dto.Counter := None;
     dto.Untyped := None |}.

(** A metric that carries neither gauge, counter nor untyped value, as the
    parser builds for a histogram or a summary. *)
Definition histogramMetric : dto.Metric :=
  {| dto.Label := []; dto.Gauge := None; dto.Counter := None; dto.Untyped := None |}.

Definition family (name : string) (metrics : list dto.Metric) : dto.MetricFamily :=
  {| dto.mf_Name := Some name; dto.mf_Metric := metrics |}.

(** Three polls of the gauge [up], with values 1, 2 and 3. *)
Definition threeCycles : list (list dto.MetricFamily) :=
  [[family "up" [gaugeMetric 1]]; [family "up" [gaugeMetric 2]];
   [family "up" [gaugeMetric 3]]].

(** A store that already holds the gauge [up] with one sample, and a
    snapshot that reports [up] twice. *)
Definition upSeries : MetricSeries :=
  {| Name := "up"; Labels := ∅; Values := [1%float] |}.

Definition upStore : Store :=
  {| Metrics := {["up{}" := upSeries]}; HistoryLimit := 10 |}.

Definition doubledSnapshot : list dto.MetricFamily :=
  [family "up" [gaugeMetric 2; gaugeMetric 3]].

(** A snapshot in which [up] appears only as a metric without a value. *)
Definition valuelessSnapshot : list dto.MetricFamily :=
  [family "up" [histogramMetric]; family "load" [gaugeMetric 4]].

(** A terminal without colours, and the libraries on the inputs of the
    examples: a style leaves the text as it is, the width of an ASCII text is
    its length, a pattern made of letters, digits and underscores matches
    the texts that contain it, and [%.2f] rounds the exact value of the
    float to two decimals, ties to even. *)
Definition isWordByte (c : ascii) : bool :=
  let b := byte c in
  ((48 <=? b) && (b <=? 57)) || ((65 <=? b) && (b <=? 90))
  || ((97 <=? b) && (b <=? 122)) || (b =? 95).

Fixpoint allBytes (P : ascii → bool) (s : string) : bool :=
  match s with
  | EmptyString => true
  | String c rest => P c && allBytes P rest
  end.

Definition contains (s substr : string) : bool :=
  match String.index 0 substr s with Some _ => true | None => false end.

Definition wordRegexp : Regexp :=
  {| regexp_Compile := allBytes isWordByte;
     regexp_MatchString := λ pattern s, allBytes isWordByte pattern && contains s pattern |}.

Definition newline : string := String (chr 10) "".

Definition plainLipgloss : Lipgloss :=
  {| Style := unit;
     NewStyle := tt;
     Style_Foreground := λ st _, st;
     Style_Faint := λ st _, st;
     Style_Render := λ _ text, text;
     lipgloss_Width := λ text, Z.of_nat (String.length text);
     table_Render := λ headers rows,
       strings_Join ((λ row, strings_Join row " | ") <$> headers :: rows) newline |}.

Record PlainViewport := {
  pv_Width : Z;
  pv_Height : Z;
  pv_MouseWheelEnabled : bool;
  pv_content : string
}.

Definition plainViewport : Viewport :=
  {| viewport_Model := PlainViewport;
     viewport_Cmd := Empty_set;
     viewport_zero :=
       {| pv_Width := 0; pv_Height := 0; pv_MouseWheelEnabled := false; pv_content := "" |};
     viewport_New := λ w h,
       {| pv_Width := w; pv_Height := h; pv_MouseWheelEnabled := false; pv_content := "" |};
     viewport_setWidth := λ v w,
       {| pv_Width := w; pv_Height := pv_Height v;
          pv_MouseWheelEnabled := pv_MouseWheelEnabled v; pv_content := pv_content v |};
     viewport_setHeight := λ v h,
       {| pv_Width := pv_Width v; pv_Height := h;
          pv_MouseWheelEnabled := pv_MouseWheelEnabled v; pv_content := pv_content v |};
     viewport_setMouseWheelEnabled := λ v b,
       {| pv_Width := pv_Width v; pv_Height := pv_Height v;
          pv_MouseWheelEnabled := b; pv_content := pv_content v |};
     viewport_SetContent := λ v text,
       {| pv_Width := pv_Width v; pv_Height := pv_Height v;
          pv_MouseWheelEnabled := pv_MouseWheelEnabled v; pv_content := text |};
     viewport_Update := λ v _, (v, None) |}.

Definition twoDigits (n : Z) : string :=
  (if n <? 10 then "0" else "") +:+ pretty n.

Definition format2f (f : float) : string :=
  match Prim2SF f with
  | S754_nan => "NaN"
  | S754_infinity s => if s then "-Inf" else "+Inf"
  | S754_zero s => if s then "-0.00" else "0.00"
  | S754_finite s m e =>
    let num := Z.pos m * 100 in
    let q :=
      if 0 <=? e then num * 2 ^ e
      else
        let den := 2 ^ (- e) in
        let q := num / den in
        let r := num mod den in
        if (den <? 2 * r) || ((den =? 2 * r) && Z.odd q) then q + 1 else q in
    (if s then "-" else "") +:+ pretty (q / 100) +:+ "." +:+ twoDigits (q mod 100)
  end.

Definition plainRuntime : GoRuntime :=
  {| Sprintf_2f := format2f;
     Duration_SecondsInt := λ d, Z.quot d 1000000000 |}.

(** The program of the examples runs on these. *)
Definition plainModel : Type := model (lg := plainLipgloss) (vp := plainViewport).

Definition plainMain : Config → Startup plainModel :=
  main (re := wordRegexp).

Definition plainUpdate
    : Z → plainModel → Msg → option (plainModel * option (Cmd (vp := plainViewport))) :=
  Update (tables := asciiTables) (mem := memory64) (re := wordRegexp) (rt := plainRuntime).

Definition plainTableLayout : plainModel → option (list string * list (list string)) :=
  tableLayout (re := wordRegexp) (rt := plainRuntime).

(** The flags of a run against a local endpoint, every five seconds. *)
Definition exampleConfig (history : Z) (deltaMode : string) : Config :=
  {| URL := "http://localhost:8080/metrics";
     Interval := 5000000000;
     History := history;
     LabelMode := LabelModeShowAll;
     FilterMetric := "";
     FilterLabel := "";
     DeltaMode := deltaMode |}.

(** The model [main] starts with, and models derived from one. *)
Definition startModel (c : Config) : option plainModel :=
  match plainMain c with
  | Proceed m => Some m
  | Exit1 _ => None
  end.

Definition withStore `{Lipgloss} `{Viewport} (m : model) (st : Store) : model :=
  {| cfg := cfg m; store := st; fetcher := fetcher m; err := err m;
     connectionError := connectionError m; isConnected := isConnected m;
     lastSuccessfulFetch := lastSuccessfulFetch m; showHelp := showHelp m;
     isPaused := isPaused m; width := width m; height := height m;
     viewport := viewport m; viewportReady := viewportReady m;
     metricNameStyle := metricNameStyle m; labelStyle := labelStyle m;
     currentValueStyle := currentValueStyle m;
     deltaValueStyle := deltaValueStyle m |}.

Definition withWidth `{Lipgloss} `{Viewport} (m : model) (w : Z) : model :=
  {| cfg := cfg m; store := store m; fetcher := fetcher m; err := err m;
     connectionError := connectionError m; isConnected := isConnected m;
     lastSuccessfulFetch := lastSuccessfulFetch m; showHelp := showHelp m;
     isPaused := isPaused m; width := w; height := height m;
     viewport := viewport m; viewportReady := viewportReady m;
     metricNameStyle := metricNameStyle m; labelStyle := labelStyle m;
     currentValueStyle := currentValueStyle m;
     deltaValueStyle := deltaValueStyle m |}.

Definition withPaused `{Lipgloss} `{Viewport} (m : model) (paused : bool) : model :=
  {| cfg := cfg m; store := store m; fetcher := fetcher m; err := err m;
     connectionError := connectionError m; isConnected := isConnected m;
     lastSuccessfulFetch := lastSuccessfulFetch m; showHelp := showHelp m;
     isPaused := paused; width := width m; height := height m;
     viewport := viewport m; viewportReady := viewportReady m;
     metricNameStyle := metricNameStyle m; labelStyle := labelStyle m;
     currentValueStyle := currentValueStyle m;
     deltaValueStyle := deltaValueStyle m |}.

(** The scenario of the specification: history 3, the counter
    [requests_total] without labels, polled at 100, 140 and 190. *)
Definition counterMetric (value : float) : dto.Metric :=
  {| dto.Label := [];
     dto.Gauge := None;
     dto.Counter := Some {| dto.sc_Value := Some value |};
     dto.Untyped := None |}.

Definition requestsCycles : list (list dto.MetricFamily) :=
  [[family "requests_total" [counterMetric 100]];
   [family "requests_total" [counterMetric 140]];
   [family "requests_total" [counterMetric 190]]].

Definition requestsStore : Store :=
  foldl (cycleStore (tables := asciiTables)) (NewStore 3) requestsCycles.

(** ** The metric filter *)

(** Whether the byte [c] occurs in [s]. *)
Fixpoint hasByte (c : ascii) (s : string) : bool :=
  match s with
  | EmptyString => false
  | String a rest => Ascii.eqb a c || hasByte c rest
  end.

(** ** The layout *)

(** The width the table needs for the name column and the [k] most recent
    value columns: the left border, then each column and its right border. *)
Definition widthNeeded (colWidths : list Z) (k : nat) : Z :=
  1 + (colWidths !!! 0%nat + 1)
  + foldr Z.add 0 ((λ j : nat, colWidths !!! (length colWidths - 1 - j)%nat + 1) <$> seq 0 k).

Definition plainStyle : Style (Lipgloss := plainLipgloss) := tt.

(** The model of the scenario after its three polls. *)
Definition requestsModel : plainModel :=
  {| cfg := exampleConfig 3 "next";
     store := requestsStore;
     fetcher := NewFetcher "http://localhost:8080/metrics";
     err := None;
     connectionError := None;
     isConnected := true;
     lastSuccessfulFetch := 0;
     showHelp := false;
     isPaused := false;
     width := 80;
     height := 24;
     viewport := viewport_zero (Viewport := plainViewport);
     viewportReady := false;
     metricNameStyle := plainStyle;
     labelStyle := plainStyle;
     currentValueStyle := plainStyle;
     deltaValueStyle := plainStyle |}.

(** ** The event handler and the start-up *)

(** Whether a command starts a fetch, and whether it ends the program. *)
Fixpoint cmdFetches `{Viewport} (c : Cmd) : bool :=
  match c with
  | fetchCmd _ => true
  | tea_Batch cmds => existsb cmdFetches cmds
  | _ => false
  end.

Fixpoint cmdQuits `{Viewport} (c : Cmd) : bool :=
  match c with
  | tea_Quit => true
  | tea_Batch cmds => existsb cmdQuits cmds
  | _ => false
  end.

Definition fetches `{Viewport} (c : option Cmd) : bool :=
  match c with Some c => cmdFetches c | None => false end.

Definition quits `{Viewport} (c : option Cmd) : bool :=
  match c with Some c => cmdQuits c | None => false end.

(** Whether a command schedules the next tick. *)
Fixpoint cmdTicks `{Viewport} (c : Cmd) : bool :=
  match c with
  | tickCmd _ => true
  | tea_Batch cmds => existsb cmdTicks cmds
  | _ => false
  end.

Definition ticks `{Viewport} (c : option Cmd) : bool :=
  match c with Some c => cmdTicks c | None => false end.

(** The modes [parseFlags] accepts. *)
Definition isLabelMode (mode : string) : bool :=
  String.eqb mode LabelModeShowAll || String.eqb mode LabelModeHideFiltered
  || String.eqb mode LabelModeHideAll.

Definition isDeltaMode (mode : string) : bool :=
  String.eqb mode DeltaModeOff || String.eqb mode DeltaModeNext
  || String.eqb mode DeltaModeView.

(** The model of the scenario while the user has paused it. *)
Definition pausedModel : plainModel := withPaused requestsModel true.

(** ** Signatures *)

(** Two label sets of one metric: the labels [a] and [b], and a single
    label whose name spells out the first label and the start of the second. *)
Definition twoLabels : gmap string string := <["b" := "2"]> (<["a" := "1"]> ∅).

Definition spelledKey : string :=
  "a=" +:+ String dquote ("1" +:+ String dquote ",b").

Definition spelledLabels : gmap string string := <[spelledKey := "2"]> ∅.

Definition labelPair (name value : string) : dto.LabelPair :=
  {| dto.lp_Name := Some name; dto.lp_Value := Some value |}.

(** A snapshot with one gauge for each of the two label sets. *)
Definition collidingSnapshot : list dto.MetricFamily :=
  [family "foo"
     [{| dto.Label := [labelPair "a" "1"; labelPair "b" "2"];
         dto.Gauge := Some {| dto.sc_Value := Some 1%float |};
         dto.Counter := None; dto.Untyped := None |};
      {| dto.Label := [labelPair spelledKey "2"];
         dto.Gauge := Some {| dto.sc_Value := Some 7%float |};
         dto.Counter := None; dto.Untyped := None |}]].

(** ** Invariants of the store *)

(** No series holds more samples than the capacity. *)
Definition storeBounded (s : Store) : Prop :=
  ∀ sig series, Metrics s !! sig = Some series →
                Z.of_nat (length (Values series)) ≤ HistoryLimit s.

(** Two polls of the gauges [up] and [load]. *)
Definition twoGaugeCycles : list (list dto.MetricFamily) :=
  [[family "up" [gaugeMetric 1]; family "load" [gaugeMetric 4]];
   [family "load" [gaugeMetric 5]; family "up" [gaugeMetric 1]]].

(** ** The order of a loop over a map *)

(** [GenerateSignature] when its loop over [labels] yields the keys in the
    order [keys]. *)
Definition GenerateSignatureVisiting {tables : UnicodeTables} (keys : list string)
    (name : string) (labels : gmap string string) : string :=
  name +:+ "{"
  +:+ foldr String.append "" (imap (signatureEntry labels) (sortStrings keys))
  +:+ "}".

(** ** The name column *)

(** A series with the labels [env] and [job], and the model of the scenario
    filtered on [env=prod] in the label mode [hide-filtered]. *)
Definition prodSeries : MetricSeries :=
  {| Name := "http_requests";
     Labels := <["job" := "api"]> (<["env" := "prod"]> ∅);
     Values := [1%float] |}.

Definition hideFilteredConfig : Config :=
  {| URL := "http://localhost:8080/metrics";
     Interval := 5000000000;
     History := 3;
     LabelMode := LabelModeHideFiltered;
     FilterMetric := "";
     FilterLabel := "env=prod";
     DeltaMode := DeltaModeNext |}.

Definition hideFilteredModel : plainModel := setCfg requestsModel hideFilteredConfig.

(** ** Runs of the event loop *)

Section Runs.
Context {tables : UnicodeTables} {mem : GoMemory} {re : Regexp} {lg : Lipgloss}
  {vp : Viewport} {rt : GoRuntime}.

(** The model after the runtime has delivered the messages of [events] in
    turn, each with the time of its delivery; [None] when a call panics. *)
Definition runUpdates (m : model) (events : list (Z * Msg)) : option model :=
  foldlOpt (λ m ev, fst <$> Update ev.1 m ev.2) m events.

(** What every model of a run satisfies: the store has the capacity of the
    configuration and respects it, a store of negative capacity is empty,
    the modes are two of those the flags accept, and no fatal error is set. *)
Definition modelInvariant (m : model) : Prop :=
  HistoryLimit (store m) = History (cfg m)
  ∧ storeBounded (store m)
  ∧ (History (cfg m) < 0 → Metrics (store m) = ∅)
  ∧ isLabelMode (LabelMode (cfg m)) = true
  ∧ isDeltaMode (DeltaMode (cfg m)) = true
  ∧ err m = None.

(** The flags and the fetcher, which no message changes. *)
Definition sameSettings (m m' : model) : Prop :=
  URL (cfg m') = URL (cfg m)
  ∧ Interval (cfg m') = Interval (cfg m)
  ∧ History (cfg m') = History (cfg m)
  ∧ FilterMetric (cfg m') = FilterMetric (cfg m)
  ∧ FilterLabel (cfg m') = FilterLabel (cfg m)
  ∧ fetcher m' = fetcher m.

End Runs.

(** ** The screen *)

(** Whether a message is a window size. *)
Definition isWindowSize `{Viewport} (msg : Msg) : bool :=
  match msg with
  | WindowSizeMsg _ _ => true
  | _ => false
  end.

(** A terminal without colours for [View]: the styles of the help box add
    nothing, placing a text leaves it as it is, and the pane shows its
    content from the top to the bottom. *)
Definition plainLipglossView : LipglossView (lg := plainLipgloss) :=
  @Build_LipglossView plainLipgloss
    (λ st _, st) (λ st, st) (λ st _, st) (λ st _ _, st) (λ st _, st) (λ _ _ text, text).

Definition plainViewportView : ViewportView (vp := plainViewport) :=
  @Build_ViewportView plainViewport (λ _, true) (λ _, true) pv_content.

(** * Properties *)

(** ** The delta projection ([ValuesWithDeltas]) *)

Lemma deltaStep_insert vals res i :
  deltaStep vals res i = <[i := deltaAt vals i]> res.
Proof. unfold deltaStep, deltaAt. by destruct (_ || _). Qed.

Lemma deltaLoop_length vals idxs res :
  length (foldl (deltaStep vals) res idxs) = length res.
Proof.
  revert res. induction idxs as [|i idxs IH]; intros res; simpl; [done|].
  by rewrite IH, deltaStep_insert, length_insert.
Qed.

Lemma deltaLoop_lookup vals idxs res j :
  foldl (deltaStep vals) res idxs !! j =
  if decide (j ∈ idxs ∧ (j < length res)%nat) then Some (deltaAt vals j) else res !! j.
Proof.
  revert res. induction idxs as [|i idxs IH]; intros res; cbn [foldl].
  - rewrite decide_False; [done|]. intros [Hd _]. by apply elem_of_nil in Hd.
  - rewrite IH, deltaStep_insert, length_insert.
    destruct (decide (j ∈ idxs ∧ (j < length res)%nat)) as [[Hin Hlt]|Hn1];
      destruct (decide (j ∈ i :: idxs ∧ (j < length res)%nat)) as [[Hin' Hlt']|Hn2];
      try done.
    + exfalso. apply Hn2. split; [by right|done].
    + destruct (decide (i = j)) as [->|Hne].
      * by rewrite list_lookup_insert_eq.
      * exfalso. apply Hn1. apply elem_of_cons in Hin' as [->|?]; done.
    + destruct (decide (i = j)) as [->|Hne].
      * rewrite list_insert_ge; [done|].
        destruct (decide (j < length res)%nat); [|lia].
        exfalso. apply Hn2. split; [left|done].
      * by rewrite list_lookup_insert_ne.
Qed.


Lemma histLoop_inv vals n :
  histInv vals n (foldl (histStep vals) (-1, -1) (seq 0 n)).
Proof.
  induction n as [|n IH].
  - left. split; [done|]. intros i Hi. lia.
  - rewrite seq_S, foldl_app. cbn [foldl plus].
    destruct IH as [[-> Hall]|(fi & li & -> & Hle & Hf & Hl & Hbefore & Hafter)];
      unfold histStep; destruct (is_nan (vals !!! n)) eqn:Hn; cbn [negb].
    + left. split; [done|]. intros i Hi.
      destruct (decide (i = n)) as [->|]; [done|]. apply Hall. lia.
    + right. exists n, n. replace (-1 =? -1) with true by done.
      repeat split; try done; try lia; intros i Hi; apply Hall; lia.
    + right. exists fi, li. repeat split; try done; try lia.
      intros i Hi. destruct (decide (i = n)) as [->|]; [done|]. apply Hafter. lia.
    + right. exists fi, n.
      replace (Z.of_nat fi =? -1) with false by (symmetry; apply Z.eqb_neq; lia).
      repeat split; try done; try lia.
Qed.

Lemma firstHist_unique vals i j : firstHist vals i → firstHist vals j → i = j.
Proof.
  intros (Hi & Hni & Hbi) (Hj & Hnj & Hbj).
  destruct (lt_eq_lt_dec i j) as [[Hlt| ->]|Hlt]; [|done|].
  - specialize (Hbj i Hlt). congruence.
  - specialize (Hbi j Hlt). congruence.
Qed.

Lemma lastHist_unique vals i j : lastHist vals i → lastHist vals j → i = j.
Proof.
  intros (Hi & Hni & Hai) (Hj & Hnj & Haj).
  destruct (lt_eq_lt_dec i j) as [[Hlt| ->]|Hlt]; [|done|].
  - specialize (Hai j (conj Hlt Hj)). congruence.
  - specialize (Haj i (conj Hlt Hi)). congruence.
Qed.

Lemma ValuesWithDeltas_off s : ValuesWithDeltas s "off" = Values s.
Proof. done. Qed.

Lemma ValuesWithDeltas_nil s mode : Values s = [] → ValuesWithDeltas s mode = [].
Proof.
  intros Hnil. unfold ValuesWithDeltas. rewrite Hnil.
  by destruct (String.eqb mode "off").
Qed.

Lemma ValuesWithDeltas_next s :
  Values s ≠ [] →
  ValuesWithDeltas s "next" =
  <[(length (Values s) - 1)%nat := Values s !!! (length (Values s) - 1)%nat]>
    (foldl (deltaStep (Values s)) (replicate (length (Values s)) 0%float)
           (seq 0 (length (Values s) - 1))).
Proof.
  intros Hne. unfold ValuesWithDeltas. cbn [String.eqb Ascii.eqb].
  replace (String.eqb "next" "off") with false by done.
  replace (String.eqb "next" "view") with false by done.
  destruct (Values s) as [|v vs]; [done|]. done.
Qed.

Lemma ValuesWithDeltas_length s mode :
  length (ValuesWithDeltas s mode) = length (Values s).
Proof.
  unfold ValuesWithDeltas.
  destruct (String.eqb mode "off"); [done|].
  destruct (Nat.eqb_spec (length (Values s)) 0) as [->|Hne]; [done|].
  destruct (String.eqb mode "view").
  - destruct (foldl (histStep _) _ _) as [f l].
    destruct (_ && _); by rewrite length_insert, deltaLoop_length, length_replicate.
  - by rewrite length_insert, deltaLoop_length, length_replicate.
Qed.

(** A historical cell, in every mode other than [off]. *)
Lemma ValuesWithDeltas_hist s mode i :
  String.eqb mode "off" = false →
  (i < length (Values s) - 1)%nat →
  ValuesWithDeltas s mode !! i = Some (deltaAt (Values s) i).
Proof.
  intros Hoff Hi. unfold ValuesWithDeltas. rewrite Hoff.
  destruct (Nat.eqb_spec (length (Values s)) 0) as [Hz|Hne]; [lia|].
  assert (Hloop : foldl (deltaStep (Values s)) (replicate (length (Values s)) 0%float)
            (seq 0 (length (Values s) - 1)) !! i = Some (deltaAt (Values s) i)).
  { rewrite deltaLoop_lookup, decide_True; [done|].
    rewrite length_replicate. split; [apply elem_of_seq|]; lia. }
  destruct (String.eqb mode "view").
  - destruct (foldl (histStep _) _ _) as [f l].
    destruct (_ && _); rewrite list_lookup_insert_ne by lia; done.
  - rewrite list_lookup_insert_ne by lia. done.
Qed.

Lemma deltaAt_present vals i a b :
  vals !! i = Some a → vals !! (i + 1)%nat = Some b →
  is_nan a = false → is_nan b = false → deltaAt vals i = (b - a)%float.
Proof.
  intros Ha Hb Hna Hnb. unfold deltaAt.
  rewrite (list_lookup_total_correct _ _ _ Ha), (list_lookup_total_correct _ _ _ Hb).
  by rewrite Hna, Hnb.
Qed.

Lemma deltaAt_missing vals i a b :
  vals !! i = Some a → vals !! (i + 1)%nat = Some b →
  is_nan a = true ∨ is_nan b = true → deltaAt vals i = nan.
Proof.
  intros Ha Hb Hnan. unfold deltaAt.
  rewrite (list_lookup_total_correct _ _ _ Ha), (list_lookup_total_correct _ _ _ Hb).
  destruct Hnan as [-> | ->]; [done|]. by rewrite orb_true_r.
Qed.

(** C4. For a non-empty sample sequence, mode [next] returns a sequence of
    the same length; at every index [i] but the last it holds
    [samples[i+1] - samples[i]], and the missing sample (NaN) when either
    operand is missing; the last index holds the last sample unchanged.
    [10, 15, 12] projects to [5, -3, 12]. *)
Theorem C4_next_projection (s : MetricSeries) :
  Values s ≠ [] →
  let vals := Values s in
  let out := ValuesWithDeltas s "next" in
  let last := (length vals - 1)%nat in
  length out = length vals
  ∧ (∀ i a b, (i < last)%nat →
       vals !! i = Some a → vals !! (i + 1)%nat = Some b →
       (is_nan a = false → is_nan b = false → out !! i = Some (b - a)%float)
       ∧ (is_nan a = true ∨ is_nan b = true → out !! i = Some nan))
  ∧ out !! last = vals !! last
  ∧ ValuesWithDeltas exampleSeries "next" = [5; -3; 12]%float.
Proof.
  intros Hne vals out last. subst vals out last.
  split; [apply ValuesWithDeltas_length|].
  split; [|split; [|done]].
  - intros i a b Hi Ha Hb.
    rewrite (ValuesWithDeltas_hist s "next" i) by done.
    split; intros; f_equal.
    + by apply (deltaAt_present _ _ a b).
    + by apply (deltaAt_missing _ _ a b).
  - rewrite ValuesWithDeltas_next by done.
    assert (length (Values s) - 1 < length (Values s))%nat as Hlt
      by (destruct (Values s); [done|cbn; lia]).
    rewrite list_lookup_insert_eq
      by (by rewrite deltaLoop_length, length_replicate).
    symmetry. by apply list_lookup_lookup_total_lt.
Qed.

Lemma C4_next_projection_witness :
  Values exampleSeries ≠ []
  ∧ ValuesWithDeltas exampleSeries "next" !! 2%nat = Values exampleSeries !! 2%nat.
Proof.
  assert (Values exampleSeries ≠ []) as Hne by done.
  split; [exact Hne|].
  exact (proj1 (proj2 (proj2 (C4_next_projection exampleSeries Hne)))).
Defined.

(** C5. For a non-empty sample sequence, mode [view] computes every
    historical index as mode [next] does; the last index holds
    [samples[last_hist] - samples[first]], where [first] is the earliest and
    [last_hist] the latest index before the last with a sample that is not
    missing, when both exist and differ, and the missing sample otherwise. *)
Theorem C5_view_projection (s : MetricSeries) :
  Values s ≠ [] →
  let vals := Values s in
  let out := ValuesWithDeltas s "view" in
  let last := (length vals - 1)%nat in
  length out = length vals
  ∧ (∀ i, (i < last)%nat → out !! i = ValuesWithDeltas s "next" !! i)
  ∧ (∀ first last_hist,
       firstHist vals first → lastHist vals last_hist → first ≠ last_hist →
       out !! last = Some (vals !!! last_hist - vals !!! first)%float)
  ∧ ((¬ ∃ first last_hist,
          firstHist vals first ∧ lastHist vals last_hist ∧ first ≠ last_hist) →
       out !! last = Some nan).
Proof.
  intros Hne vals out last. subst vals out last.
  split; [apply ValuesWithDeltas_length|].
  split.
  { intros i Hi. by rewrite !ValuesWithDeltas_hist. }
  assert (length (Values s) - 1 < length (Values s))%nat as Hlt
    by (destruct (Values s); [done|cbn; lia]).
  unfold ValuesWithDeltas. replace (String.eqb "view" "off") with false by done.
  destruct (Nat.eqb_spec (length (Values s)) 0) as [Hz|_]; [lia|].
  replace (String.eqb "view" "view") with true by done.
  pose proof (histLoop_inv (Values s) (length (Values s) - 1)) as Hinv.
  destruct (foldl (histStep (Values s)) _ _) as [f l].
  destruct Hinv as [[Heq Hall]|(fi & li & Heq & Hle & Hf & Hl & Hbefore & Hafter)];
    inversion Heq; subst f l; clear Heq.
  - (* no historical sample *)
    change (-1 =? -1) with true. cbn [negb andb].
    split.
    + intros first last_hist (Hi & Hpresent & _) _ _.
      rewrite (Hall first Hi) in Hpresent. done.
    + intros _. rewrite list_lookup_insert_eq; [done|].
      by rewrite deltaLoop_length, length_replicate.
  - assert (firstHist (Values s) fi) as Hfirst.
    { split; [lia|]. by split. }
    assert (lastHist (Values s) li) as Hlast.
    { split; [lia|]. by split. }
    replace (Z.of_nat fi =? -1) with false by (symmetry; apply Z.eqb_neq; lia).
    replace (Z.of_nat li =? -1) with false by (symmetry; apply Z.eqb_neq; lia).
    cbn [negb andb]. rewrite !Nat2Z.id.
    destruct (Z.eqb_spec (Z.of_nat fi) (Z.of_nat li)) as [Heq|Hneq]; cbn [negb].
    + apply Nat2Z.inj in Heq. subst li. split.
      * intros first last_hist Hfirst' Hlast' Hdiff. exfalso. apply Hdiff.
        rewrite (firstHist_unique _ _ _ Hfirst' Hfirst).
        by rewrite (lastHist_unique _ _ _ Hlast' Hlast).
      * intros _. rewrite list_lookup_insert_eq; [done|].
        by rewrite deltaLoop_length, length_replicate.
    + split.
      * intros first last_hist Hfirst' Hlast' _.
        rewrite (firstHist_unique _ _ _ Hfirst' Hfirst).
        rewrite (lastHist_unique _ _ _ Hlast' Hlast).
        rewrite list_lookup_insert_eq; [done|].
        by rewrite deltaLoop_length, length_replicate.
      * intros Hnone. exfalso. apply Hnone. exists fi, li.
        repeat split; try done; try apply Hfirst; try apply Hlast. congruence.
Qed.

Lemma C5_view_projection_witness :
  Values exampleSeries ≠ []
  ∧ length (ValuesWithDeltas exampleSeries "view") = length (Values exampleSeries).
Proof.
  assert (Values exampleSeries ≠ []) as Hne by done.
  split; [exact Hne|].
  exact (proj1 (C5_view_projection exampleSeries Hne)).
Defined.

(** The example of the specification under [view]: the last cell is
    [15 - 10], the difference of the two historical samples. *)
Example view_example : ValuesWithDeltas exampleSeries "view" = [5; -3; 5]%float.
Proof. done. Qed.

(** ** The series store *)

(** Equalities of sets of signatures built with unions. *)
Ltac union_eq :=
  apply set_eq; intros ?;
  rewrite ?elem_of_union, ?elem_of_list_to_set, ?fmap_app, ?elem_of_app,
    ?elem_of_union, ?elem_of_empty;
  tauto.

Section StoreProperties.
Context {tables : UnicodeTables} {mem : GoMemory}.

Lemma appendValue_limit s1 s2 series v :
  HistoryLimit s1 = HistoryLimit s2 → appendValue s1 series v = appendValue s2 series v.
Proof. intros Heq. unfold appendValue. by rewrite Heq. Qed.

Lemma applyObservations_limit obs s :
  HistoryLimit (foldl applyObservation s obs) = HistoryLimit s.
Proof.
  revert s. induction obs as [|ob obs IH]; intros s; cbn [foldl]; [done|].
  by rewrite IH.
Qed.

(** The first loop of [UpdateFromFamilies] is a loop over the observations. *)
Lemma updateFromMetric_obs name st metric :
  updateFromMetric name st metric =
  match metricObservation name metric with
  | None => Some st
  | Some ob => observe st ob
  end.
Proof.
  unfold updateFromMetric, metricObservation, observe.
  by destruct (metricValue metric).
Qed.

Lemma updateFromMetrics_obs name metrics st :
  foldlOpt (updateFromMetric name) st metrics =
  foldlOpt observe st (omap (metricObservation name) metrics).
Proof.
  revert st. induction metrics as [|metric metrics IH]; intros st; [done|].
  cbn [foldlOpt omap list_omap]. rewrite updateFromMetric_obs.
  destruct (metricObservation name metric) as [ob|]; cbn [foldlOpt]; [|apply IH].
  destruct (observe st ob) as [st'|]; [apply IH|done].
Qed.

Lemma foldlOpt_app {A B} (f : A → B → option A) (l1 l2 : list B) (a : A) :
  foldlOpt f a (l1 ++ l2) =
  match foldlOpt f a l1 with
  | Some a' => foldlOpt f a' l2
  | None => None
  end.
Proof.
  revert a. induction l1 as [|x l1 IH]; intros a; [done|].
  cbn [app foldlOpt]. destruct (f a x) as [a'|]; [apply IH|done].
Qed.

Lemma updateFromFamilies_obs families st :
  foldlOpt updateFromFamily st families =
  foldlOpt observe st (snapshotObservations families).
Proof.
  revert st. induction families as [|family0 families IH]; intros st; [done|].
  cbn [foldlOpt]. unfold snapshotObservations. cbn [mbind list_bind].
  fold (snapshotObservations families).
  rewrite foldlOpt_app. unfold updateFromFamily at 1.
  rewrite updateFromMetrics_obs. fold (familyObservations family0).
  destruct (foldlOpt observe st (familyObservations family0)) as [st'|]; [apply IH|done].
Qed.

(** The result of a cycle depends on the snapshot through its observations
    only. *)
Lemma UpdateFromFamilies_observations s families1 families2 :
  snapshotObservations families1 = snapshotObservations families2 →
  UpdateFromFamilies s families1 = UpdateFromFamilies s families2.
Proof.
  intros Heq. unfold UpdateFromFamilies. by rewrite !updateFromFamilies_obs, Heq.
Qed.

Lemma makeReturns_nonneg cap : makeReturns cap = true → 0 ≤ cap.
Proof. unfold makeReturns. intros [Hcap _]%andb_true_iff. by apply Z.leb_le. Qed.

Lemma makeReturns_negative cap : cap < 0 → makeReturns cap = false.
Proof.
  intros Hneg. unfold makeReturns. by rewrite (proj2 (Z.leb_gt _ _)) by done.
Qed.

(** No panic with a capacity that [make] grants. *)
Lemma observe_ok st ob :
  makeReturns (HistoryLimit st.1) = true →
  observe st ob = Some (applyObservation st.1 ob, {[obs_sig ob]} ∪ st.2).
Proof.
  intros HN. unfold observe, updateMetric, applyObservation.
  destruct (Metrics st.1 !! obs_sig ob) as [series|]; [done|].
  by rewrite HN.
Qed.

Lemma observations_ok obs st :
  makeReturns (HistoryLimit st.1) = true →
  foldlOpt observe st obs =
  Some (foldl applyObservation st.1 obs, list_to_set (obs_sig <$> obs) ∪ st.2).
Proof.
  revert st. induction obs as [|ob obs IH]; intros [s seen] HN.
  - cbn. do 2 f_equal. union_eq.
  - cbn [foldlOpt foldl]. rewrite observe_ok by done.
    rewrite IH by done. cbn [fst snd]. do 2 f_equal.
    rewrite fmap_cons. cbn [list_to_set]. union_eq.
Qed.

Lemma UpdateFromFamilies_ok s families :
  makeReturns (HistoryLimit s) = true →
  UpdateFromFamilies s families = Some (cycleStore s families).
Proof.
  intros HN. unfold UpdateFromFamilies, cycleStore.
  rewrite updateFromFamilies_obs, observations_ok by done. cbn [fst snd].
  do 3 f_equal. unfold snapshotSignatures. union_eq.
Qed.

(** When a cycle returns, its result is the store [cycleStore] describes,
    whatever the capacity. *)
Lemma observe_Some st ob st' :
  observe st ob = Some st' →
  st' = (applyObservation st.1 ob, {[obs_sig ob]} ∪ st.2).
Proof.
  unfold observe, updateMetric, applyObservation.
  destruct (Metrics st.1 !! obs_sig ob) as [series|].
  - by intros [= <-].
  - destruct (makeReturns (HistoryLimit st.1)); [|done]. by intros [= <-].
Qed.

Lemma observations_Some obs st st' :
  foldlOpt observe st obs = Some st' →
  st' = (foldl applyObservation st.1 obs, list_to_set (obs_sig <$> obs) ∪ st.2).
Proof.
  revert st. induction obs as [|ob obs IH]; intros [s seen] Hrun.
  - cbn in Hrun. injection Hrun as <-. cbn. f_equal. union_eq.
  - cbn [foldlOpt] in Hrun. destruct (observe (s, seen) ob) as [st1|] eqn:Hob; [|done].
    apply observe_Some in Hob. subst st1. apply IH in Hrun. subst st'.
    cbn [fst snd foldl]. f_equal. rewrite fmap_cons. cbn [list_to_set]. union_eq.
Qed.

Lemma UpdateFromFamilies_Some s families s' :
  UpdateFromFamilies s families = Some s' → s' = cycleStore s families.
Proof.
  unfold UpdateFromFamilies, cycleStore. rewrite updateFromFamilies_obs.
  destruct (foldlOpt observe (s, ∅) (snapshotObservations families)) as [st|] eqn:Hrun;
    [|done].
  intros [= <-]. apply observations_Some in Hrun. subst st. cbn [fst snd].
  f_equal. unfold snapshotSignatures. union_eq.
Qed.

(** A capacity that [make] refuses makes the first new series panic. *)
Lemma UpdateFromFamilies_panic s families ob rest :
  makeReturns (HistoryLimit s) = false →
  snapshotObservations families = ob :: rest →
  Metrics s !! obs_sig ob = None →
  UpdateFromFamilies s families = None.
Proof.
  intros HN Hobs Hfresh. unfold UpdateFromFamilies.
  rewrite updateFromFamilies_obs, Hobs. cbn [foldlOpt].
  unfold observe, updateMetric. cbn [fst]. rewrite Hfresh.
  by rewrite HN.
Qed.

Lemma cycleStore_limit s families :
  HistoryLimit (cycleStore s families) = HistoryLimit s.
Proof. unfold cycleStore. cbn. apply applyObservations_limit. Qed.

Lemma runCycles_Some cycles s s' :
  runCycles s cycles = Some s' → s' = foldl cycleStore s cycles.
Proof.
  unfold runCycles. revert s.
  induction cycles as [|families cycles IH]; intros s Hrun.
  - cbn in Hrun. by injection Hrun as <-.
  - cbn [foldlOpt foldl] in *.
    destruct (UpdateFromFamilies s families) as [s1|] eqn:Hcycle; [|done].
    apply UpdateFromFamilies_Some in Hcycle. subst s1. by apply IH.
Qed.

Lemma runCycles_ok cycles s :
  makeReturns (HistoryLimit s) = true →
  runCycles s cycles = Some (foldl cycleStore s cycles).
Proof.
  unfold runCycles. revert s.
  induction cycles as [|families cycles IH]; intros s HN; [done|].
  cbn [foldlOpt foldl]. rewrite UpdateFromFamilies_ok by done.
  apply IH. by rewrite cycleStore_limit.
Qed.

End StoreProperties.

(** *** The sliding window *)

Lemma lastN_length {A} (n : Z) (l : list A) :
  0 ≤ n → Z.of_nat (length (lastN n l)) = Z.min n (Z.of_nat (length l)).
Proof. intros Hn. unfold lastN. rewrite length_drop. lia. Qed.

Lemma lastN_app_lastN {A} (n : Z) (l k : list A) :
  lastN n (lastN n l ++ k) = lastN n (l ++ k).
Proof.
  unfold lastN. rewrite !length_app, length_drop.
  set (d := (length l - Z.to_nat n)%nat).
  replace (drop d l ++ k) with (drop d (l ++ k))
    by (rewrite drop_app_le by (unfold d; lia); done).
  rewrite drop_drop. f_equal. unfold d. lia.
Qed.

Lemma lastN_all {A} (n : Z) (l : list A) :
  Z.of_nat (length l) ≤ n → lastN n l = l.
Proof. intros Hle. unfold lastN. replace (_ - _)%nat with 0%nat by lia. done. Qed.

Lemma lastN_snoc_full {A} (n : Z) (l : list A) (v : A) :
  1 ≤ n → Z.of_nat (length l) = n → lastN n (l ++ [v]) = drop 1 l ++ [v].
Proof.
  intros Hn Hlen. unfold lastN. rewrite length_app. cbn [length].
  replace (length l + 1 - Z.to_nat n)%nat with 1%nat by lia.
  apply drop_app_le. lia.
Qed.

Lemma lastN_snoc_last {A} (n : Z) (l : list A) (v : A) :
  1 ≤ n → last (lastN n (l ++ [v])) = Some v.
Proof.
  intros Hn. unfold lastN. rewrite length_app. cbn [length].
  rewrite drop_app_le by lia. apply last_snoc.
Qed.

(** What [gainsSample] says of the samples, for a series within the window. *)
Lemma gainsSample_window (n : Z) (old new : MetricSeries) (v : float) :
  1 ≤ n → gainsSample n old v new →
  Z.of_nat (length (Values old)) ≤ n →
  last (Values new) = Some v
  ∧ Z.of_nat (length (Values new)) = Z.min n (Z.of_nat (length (Values old)) + 1)
  ∧ (Z.of_nat (length (Values old)) < n → Values new = Values old ++ [v])
  ∧ (Z.of_nat (length (Values old)) = n → Values new = drop 1 (Values old) ++ [v]).
Proof.
  intros Hn (_ & _ & ->) Hlen. split; [by apply lastN_snoc_last|]. split; [|split].
  - rewrite lastN_length, length_app by lia. cbn [length]. lia.
  - intros Hbelow. apply lastN_all. rewrite length_app. cbn [length]. lia.
  - intros Hfull. by apply lastN_snoc_full.
Qed.

Section SlidingWindow.
Context {tables : UnicodeTables} {mem : GoMemory}.

Lemma appendValue_Name s series v : Name (appendValue s series v) = Name series.
Proof. done. Qed.

Lemma appendValue_Labels s series v : Labels (appendValue s series v) = Labels series.
Proof. done. Qed.

(** One append keeps the most recent [HistoryLimit] samples. *)
Lemma appendValue_Values s series v :
  1 ≤ HistoryLimit s →
  Z.of_nat (length (Values series)) ≤ HistoryLimit s →
  Values (appendValue s series v) = lastN (HistoryLimit s) (Values series ++ [v]).
Proof.
  intros HN Hlen. unfold appendValue, lastN. cbn [Values].
  rewrite length_app. cbn [length].
  destruct (Z.gtb_spec (Z.of_nat (length (Values series) + 1)) (HistoryLimit s)) as [Hgt|Hle].
  - f_equal. lia.
  - replace (_ - _)%nat with 0%nat by lia. done.
Qed.

Lemma appendValue_bounded s series v :
  1 ≤ HistoryLimit s →
  Z.of_nat (length (Values series)) ≤ HistoryLimit s →
  Z.of_nat (length (Values (appendValue s series v))) ≤ HistoryLimit s.
Proof.
  intros HN Hlen. rewrite appendValue_Values, lastN_length by lia. lia.
Qed.

Lemma appendAll_Name s vs series : Name (foldl (appendValue s) series vs) = Name series.
Proof.
  revert series. induction vs as [|v vs IH]; intros series; cbn [foldl]; [done|].
  by rewrite IH.
Qed.

Lemma appendAll_Labels s vs series : Labels (foldl (appendValue s) series vs) = Labels series.
Proof.
  revert series. induction vs as [|v vs IH]; intros series; cbn [foldl]; [done|].
  by rewrite IH.
Qed.

(** Any number of appends keeps the most recent [HistoryLimit] samples. *)
Lemma appendAll_Values s vs series :
  1 ≤ HistoryLimit s →
  Z.of_nat (length (Values series)) ≤ HistoryLimit s →
  Values (foldl (appendValue s) series vs) = lastN (HistoryLimit s) (Values series ++ vs).
Proof.
  intros HN. revert series. induction vs as [|v vs IH]; intros series Hlen; cbn [foldl].
  - rewrite app_nil_r. symmetry. by apply lastN_all.
  - rewrite IH by (by apply appendValue_bounded).
    rewrite appendValue_Values by done.
    rewrite lastN_app_lastN. by rewrite <- app_assoc.
Qed.

Lemma appendAll_limit s1 s2 vs series :
  HistoryLimit s1 = HistoryLimit s2 →
  foldl (appendValue s1) series vs = foldl (appendValue s2) series vs.
Proof.
  intros Heq. revert series. induction vs as [|v vs IH]; intros series; cbn [foldl]; [done|].
  by rewrite IH, (appendValue_limit s1 s2).
Qed.

(** *** What one update cycle does to the series of one signature *)

Lemma applyObservation_lookup s ob sig :
  Metrics (applyObservation s ob) !! sig =
  if decide (obs_sig ob = sig)
  then Some (appendValue s (default (freshSeries ob) (Metrics s !! sig)) (obs_value ob))
  else Metrics s !! sig.
Proof.
  unfold applyObservation. cbn [Metrics].
  rewrite lookup_insert. case_decide as Hsig; [|done].
  by subst sig.
Qed.

Lemma applyObservations_lookup obs s sig :
  Metrics (foldl applyObservation s obs) !! sig =
  match filter (λ ob, obs_sig ob = sig) obs with
  | [] => Metrics s !! sig
  | (first :: _) as matching =>
    Some (foldl (appendValue s) (default (freshSeries first) (Metrics s !! sig))
                (obs_value <$> matching))
  end.
Proof.
  revert s. induction obs as [|ob obs IH]; intros s; [done|].
  cbn [foldl]. rewrite IH, applyObservation_lookup, filter_cons.
  destruct (decide (obs_sig ob = sig)) as [Hsig|Hsig].
  - cbn [fmap list_fmap foldl default].
    destruct (filter _ obs) as [|first matching]; [done|].
    reflexivity.
  - destruct (filter _ obs) as [|first matching]; reflexivity.
Qed.

Lemma fillMissing_lookup s seen sig :
  Metrics (fillMissing s seen) !! sig =
  (λ series, if decide (sig ∈ seen) then series else appendValue s series nan)
    <$> Metrics s !! sig.
Proof.
  unfold fillMissing. cbn [Metrics]. rewrite map_lookup_imap.
  by destruct (Metrics s !! sig).
Qed.

Lemma seen_iff_observed sig (obs : list Observation) :
  sig ∈ (list_to_set (obs_sig <$> obs) : gset string) ↔
  filter (λ ob, obs_sig ob = sig) obs ≠ [].
Proof.
  rewrite elem_of_list_to_set, list_elem_of_fmap. split.
  - intros (ob & -> & Hin) Hnil.
    assert (ob ∈ filter (λ ob', obs_sig ob' = obs_sig ob) obs) as Hf
      by (by apply list_elem_of_filter).
    rewrite Hnil in Hf. by apply elem_of_nil in Hf.
  - intros Hne. destruct (filter _ obs) as [|ob rest] eqn:Hf; [done|].
    assert (ob ∈ filter (λ ob', obs_sig ob' = sig) obs) as Hin
      by (rewrite Hf; left).
    apply list_elem_of_filter in Hin as [Hsig Hin]. by exists ob.
Qed.

(** The series of [sig] after one cycle: the missing sample appended when
    the snapshot has no value for [sig], and otherwise each observed value
    appended in turn, to the stored series or to a new one. *)
Lemma cycleStore_lookup s families sig :
  Metrics (cycleStore s families) !! sig =
  match filter (λ ob, obs_sig ob = sig) (snapshotObservations families) with
  | [] => (λ series, appendValue s series nan) <$> Metrics s !! sig
  | (first :: _) as matching =>
    Some (foldl (appendValue s) (default (freshSeries first) (Metrics s !! sig))
                (obs_value <$> matching))
  end.
Proof.
  unfold cycleStore. rewrite fillMissing_lookup, applyObservations_lookup.
  pose proof (seen_iff_observed sig (snapshotObservations families)) as Hseen.
  fold (snapshotSignatures families) in Hseen.
  destruct (decide (sig ∈ (list_to_set (snapshotSignatures families) : gset string)))
    as [Hin|Hnin].
  - apply Hseen in Hin.
    destruct (filter _ (snapshotObservations families)) as [|first matching]; done.
  - destruct (filter _ (snapshotObservations families)) as [|first matching].
    + destruct (Metrics s !! sig) as [series|]; [|reflexivity].
      cbn. f_equal. apply appendValue_limit, applyObservations_limit.
    + exfalso. apply Hnin, Hseen. done.
Qed.

End SlidingWindow.

(** *** C1: the history of a series is a sliding window *)

Section SeriesHistory.
Context {tables : UnicodeTables} {mem : GoMemory}.

Lemma cycle_observed s families sig :
  1 ≤ HistoryLimit s →
  (∀ series, Metrics s !! sig = Some series →
             Z.of_nat (length (Values series)) ≤ HistoryLimit s) →
  observedValues sig families ≠ [] →
  ∃ series',
    Metrics (cycleStore s families) !! sig = Some series'
    ∧ Values series' =
      lastN (HistoryLimit s)
            (default [] (Values <$> Metrics s !! sig) ++ observedValues sig families).
Proof.
  intros HN Hbound Hobs. rewrite cycleStore_lookup.
  unfold observedValues in *.
  destruct (filter _ (snapshotObservations families)) as [|first matching]; [done|].
  eexists. split; [done|].
  rewrite appendAll_Values; [|done|].
  - by destruct (Metrics s !! sig).
  - destruct (Metrics s !! sig) as [series|] eqn:Hs; cbn; [by apply Hbound|lia].
Qed.

Lemma cycles_stored cycles s sig series :
  1 ≤ HistoryLimit s →
  Metrics s !! sig = Some series →
  Z.of_nat (length (Values series)) ≤ HistoryLimit s →
  Forall (λ families, observedValues sig families ≠ []) cycles →
  ∃ series',
    Metrics (foldl cycleStore s cycles) !! sig = Some series'
    ∧ Values series' =
      lastN (HistoryLimit s) (Values series ++ (cycles ≫= observedValues sig)).
Proof.
  intros HN. revert s series HN.
  induction cycles as [|families cycles IH]; intros s series HN Hs Hlen Hall.
  - exists series. split; [done|]. cbn. rewrite app_nil_r. symmetry. by apply lastN_all.
  - apply Forall_cons in Hall as [Hobs Hall]. cbn [foldl].
    destruct (cycle_observed s families sig HN) as (series1 & Hs1 & Hv1); [|done|].
    { intros series0 Hs0. rewrite Hs in Hs0. injection Hs0 as <-. exact Hlen. }
    rewrite Hs in Hv1. cbn [fmap option_fmap option_map default] in Hv1.
    destruct (IH (cycleStore s families) series1) as (series' & Hs' & Hv');
      rewrite ?cycleStore_limit; try done.
    { rewrite Hv1, lastN_length by lia. lia. }
    exists series'. split; [done|].
    rewrite Hv', cycleStore_limit, Hv1, lastN_app_lastN.
    cbn [mbind list_bind]. by rewrite app_assoc.
Qed.

(** C1. For a series that is not yet in the store and a history capacity
    [N ≥ 1]: after any number of update cycles that each observe the series,
    its samples are the most recent [min(N, total)] observed values, in the
    order of observation, where [total] counts the observations (one per
    cycle when each cycle observes the series once). The cycles run to
    their end when [make] grants the capacity. *)
Theorem C1_sliding_window (s : Store) (sig : string)
    (cycles : list (list dto.MetricFamily)) :
  1 ≤ HistoryLimit s →
  Metrics s !! sig = None →
  cycles ≠ [] →
  Forall (λ families, observedValues sig families ≠ []) cycles →
  let observed := cycles ≫= observedValues sig in
  (makeReturns (HistoryLimit s) = true → ∃ s', runCycles s cycles = Some s')
  ∧ ∀ s', runCycles s cycles = Some s' →
      ∃ series,
        Metrics s' !! sig = Some series
        ∧ Values series = lastN (HistoryLimit s) observed
        ∧ Z.of_nat (length (Values series))
          = Z.min (HistoryLimit s) (Z.of_nat (length observed))
        ∧ (Forall (λ families, length (observedValues sig families) = 1%nat) cycles →
           length observed = length cycles).
Proof.
  intros HN Hfresh Hne Hall observed. subst observed.
  split; [intros Hmake; eexists; by apply runCycles_ok|].
  intros s' Hrun. apply runCycles_Some in Hrun. subst s'.
  destruct cycles as [|families cycles]; [done|].
  apply Forall_cons in Hall as [Hobs Hall]. cbn [foldl].
  destruct (cycle_observed s families sig HN) as (series1 & Hs1 & Hv1); [|done|].
  { intros series0 Hs0. rewrite Hfresh in Hs0. done. }
  rewrite Hfresh in Hv1. cbn [fmap option_fmap option_map default app] in Hv1.
  destruct (cycles_stored cycles (cycleStore s families) sig series1)
    as (series' & Hs' & Hv'); rewrite ?cycleStore_limit; try done.
  { rewrite Hv1, lastN_length by lia. lia. }
  rewrite cycleStore_limit, Hv1, lastN_app_lastN in Hv'.
  exists series'. split; [done|]. split; [done|]. split.
  - rewrite Hv'. apply lastN_length. lia.
  - clear. generalize (families :: cycles). intros l Hones.
    induction Hones as [|c l Hc _ IH]; [done|].
    cbn [mbind list_bind length]. rewrite length_app, Hc. cbn in IH. by rewrite IH.
Qed.

End SeriesHistory.

Lemma C1_sliding_window_witness :
  ∃ s' series,
    runCycles (tables := asciiTables) (mem := memory64) (NewStore 2) threeCycles = Some s'
    ∧ Metrics s' !! "up{}" = Some series
    ∧ Values series = [2; 3]%float.
Proof.
  destruct (C1_sliding_window (tables := asciiTables) (mem := memory64)
              (NewStore 2) "up{}" threeCycles)
    as (Hreturns & Hwindow).
  - cbn. lia.
  - done.
  - done.
  - repeat constructor; by vm_compute.
  - destruct (Hreturns eq_refl) as [s' Hrun].
    destruct (Hwindow s' Hrun) as (series & Hs & Hv & _).
    exists s', series. split; [exact Hrun|]. split; [exact Hs|]. rewrite Hv. reflexivity.
Defined.

(** *** C2 and C10: what one cycle does to every series *)

Lemma filter_none {A} (P : A → Prop) `{∀ x, Decision (P x)} (l : list A) :
  (∀ x, x ∈ l → ¬ P x) → filter P l = [].
Proof.
  intros Hnone. destruct (filter P l) as [|x rest] eqn:Hf; [done|].
  assert (x ∈ filter P l) as Hin by (rewrite Hf; left).
  apply list_elem_of_filter in Hin as [HP Hin]. by destruct (Hnone x Hin).
Qed.

Lemma filter_unique_key {A B} `{EqDecision B} (f : A → B) (l : list A) (x : A) :
  NoDup (f <$> l) → x ∈ l → filter (λ y, f y = f x) l = [x].
Proof.
  induction l as [|y l IH]; intros Hnd Hin; [by apply elem_of_nil in Hin|].
  rewrite fmap_cons in Hnd. apply NoDup_cons in Hnd as [Hy Hnd].
  rewrite filter_cons. apply elem_of_cons in Hin as [->|Hin].
  - rewrite decide_True by done. f_equal.
    apply filter_none.
    intros z Hz Heq. apply Hy. rewrite <- Heq. by apply list_elem_of_fmap_2.
  - rewrite decide_False.
    + by apply IH.
    + intros Heq. apply Hy. rewrite Heq. by apply list_elem_of_fmap_2.
Qed.

Section UpdateCycle.
Context {tables : UnicodeTables} {mem : GoMemory}.

Lemma not_observed_filter sig families :
  sig ∉ snapshotSignatures families →
  filter (λ ob, obs_sig ob = sig) (snapshotObservations families) = [].
Proof.
  intros Hnin. apply filter_none. intros ob Hin <-.
  apply Hnin. by apply list_elem_of_fmap_2.
Qed.

Lemma cycle_absent s families sig :
  sig ∉ snapshotSignatures families →
  Metrics (cycleStore s families) !! sig =
  (λ series, appendValue s series nan) <$> Metrics s !! sig.
Proof.
  intros Hnin. by rewrite cycleStore_lookup, not_observed_filter.
Qed.

Lemma cycle_present_once s families ob :
  NoDup (snapshotSignatures families) →
  ob ∈ snapshotObservations families →
  Metrics (cycleStore s families) !! obs_sig ob =
  Some (appendValue s (default (freshSeries ob) (Metrics s !! obs_sig ob)) (obs_value ob)).
Proof.
  intros Hnd Hin. rewrite cycleStore_lookup.
  by rewrite (filter_unique_key obs_sig _ ob Hnd Hin).
Qed.

Lemma appendValue_length s series v :
  1 ≤ HistoryLimit s →
  Z.of_nat (length (Values series)) ≤ HistoryLimit s →
  Z.of_nat (length (Values (appendValue s series v)))
  = Z.min (HistoryLimit s) (Z.of_nat (length (Values series)) + 1).
Proof.
  intros HN Hlen. rewrite appendValue_Values, lastN_length by lia.
  rewrite length_app. cbn [length]. lia.
Qed.

Lemma appendValue_gains s series v :
  1 ≤ HistoryLimit s →
  Z.of_nat (length (Values series)) ≤ HistoryLimit s →
  gainsSample (HistoryLimit s) series v (appendValue s series v).
Proof.
  intros HN Hlen. split; [done|]. split; [done|]. by apply appendValue_Values.
Qed.

Lemma appendValue_created s name labels v :
  1 ≤ HistoryLimit s →
  appendValue s {| Name := name; Labels := labels; Values := [] |} v
  = createdSeries name labels v.
Proof.
  intros HN. unfold appendValue, createdSeries. cbn [Name Labels Values app length].
  destruct (Z.gtb_spec (Z.of_nat 1) (HistoryLimit s)); [lia|done].
Qed.

(** What a cycle that returns leaves for a signature the snapshot does not
    carry, and for one it carries once. *)
Lemma cycle_gains_missing s families sig series :
  1 ≤ HistoryLimit s →
  Metrics s !! sig = Some series →
  Z.of_nat (length (Values series)) ≤ HistoryLimit s →
  sig ∉ snapshotSignatures families →
  ∃ series', Metrics (cycleStore s families) !! sig = Some series'
             ∧ gainsSample (HistoryLimit s) series nan series'.
Proof.
  intros HN Hs Hlen Hnin. rewrite cycle_absent, Hs by done.
  eexists. split; [done|]. by apply appendValue_gains.
Qed.

Lemma cycle_gains_observed s families ob series :
  1 ≤ HistoryLimit s →
  NoDup (snapshotSignatures families) →
  ob ∈ snapshotObservations families →
  Metrics s !! obs_sig ob = Some series →
  Z.of_nat (length (Values series)) ≤ HistoryLimit s →
  ∃ series', Metrics (cycleStore s families) !! obs_sig ob = Some series'
             ∧ gainsSample (HistoryLimit s) series (obs_value ob) series'.
Proof.
  intros HN Hnd Hin Hs Hlen. rewrite (cycle_present_once _ _ _ Hnd Hin), Hs.
  eexists. split; [done|]. by apply appendValue_gains.
Qed.

(** C2, as the code has it, for a capacity [N ≥ 1]. The update cycle
    returns when [make] grants the capacity. Whenever it returns, a stored
    series whose signature the snapshot does not carry has gained exactly
    one missing sample (NaN). When the value-carrying observations of the
    snapshot have pairwise distinct signatures, a series first observed in
    the cycle is created with that one sample, and every stored series has
    gained exactly one sample, the observed value or NaN. A series gains a
    sample under the window: the sample is its last one, and the length
    grows by one below the capacity and stays at the capacity otherwise,
    the oldest sample being dropped. *)
Theorem C2_update_cycle (s : Store) (families : list dto.MetricFamily) (sig : string) :
  1 ≤ HistoryLimit s →
  (makeReturns (HistoryLimit s) = true → ∃ s', UpdateFromFamilies s families = Some s')
  ∧ (∀ s', UpdateFromFamilies s families = Some s' →
       (∀ series, Metrics s !! sig = Some series →
          Z.of_nat (length (Values series)) ≤ HistoryLimit s →
          sig ∉ snapshotSignatures families →
          ∃ series', Metrics s' !! sig = Some series'
                     ∧ gainsSample (HistoryLimit s) series nan series')
       ∧ (NoDup (snapshotSignatures families) →
          ∀ ob, ob ∈ snapshotObservations families → obs_sig ob = sig →
            (Metrics s !! sig = None →
             Metrics s' !! sig
             = Some (createdSeries (obs_name ob) (obs_labels ob) (obs_value ob)))
            ∧ (∀ series, Metrics s !! sig = Some series →
                 Z.of_nat (length (Values series)) ≤ HistoryLimit s →
                 ∃ series', Metrics s' !! sig = Some series'
                            ∧ gainsSample (HistoryLimit s) series (obs_value ob) series'))
       ∧ (NoDup (snapshotSignatures families) →
          ∀ series, Metrics s !! sig = Some series →
            Z.of_nat (length (Values series)) ≤ HistoryLimit s →
            ∃ series' v, Metrics s' !! sig = Some series'
                         ∧ gainsSample (HistoryLimit s) series v series'))
  ∧ (∀ old v new,
       gainsSample (HistoryLimit s) old v new →
       Z.of_nat (length (Values old)) ≤ HistoryLimit s →
       last (Values new) = Some v
       ∧ Z.of_nat (length (Values new))
         = Z.min (HistoryLimit s) (Z.of_nat (length (Values old)) + 1)
       ∧ (Z.of_nat (length (Values old)) < HistoryLimit s →
          Values new = Values old ++ [v])
       ∧ (Z.of_nat (length (Values old)) = HistoryLimit s →
          Values new = drop 1 (Values old) ++ [v])).
Proof.
  intros HN. split; [|split].
  - intros Hmake. eexists. by apply UpdateFromFamilies_ok.
  - intros s' Hrun. apply UpdateFromFamilies_Some in Hrun. subst s'.
    split; [|split].
    + intros series Hs Hlen Hnin. by apply cycle_gains_missing.
    + intros Hnd ob Hin <-. split.
      * intros Hfresh. rewrite (cycle_present_once _ _ _ Hnd Hin), Hfresh.
        cbn [default freshSeries]. f_equal. by apply appendValue_created.
      * intros series Hs Hlen. by apply cycle_gains_observed.
    + intros Hnd series Hs Hlen.
      destruct (decide (sig ∈ snapshotSignatures families)) as [Hin|Hnin].
      * apply list_elem_of_fmap in Hin as (ob & -> & Hin).
        destruct (cycle_gains_observed s families ob series) as (series' & Hs' & Hg);
          try done.
        by exists series', (obs_value ob).
      * destruct (cycle_gains_missing s families sig series) as (series' & Hs' & Hg);
          try done.
        by exists series', nan.
  - intros old v new Hg Hlen. by apply gainsSample_window.
Qed.

(** Dropping the metrics without a value leaves the observations as they are. *)
Lemma dropValueless_observations family0 :
  familyObservations (dropValueless family0) = familyObservations family0.
Proof.
  unfold familyObservations, dropValueless, dto.GetMetric, dto.GetName. cbn.
  induction (dto.mf_Metric family0) as [|metric metrics IH]; [done|].
  rewrite filter_cons. cbn [omap list_omap].
  unfold metricObservation at 2. destruct (metricValue metric) as [v|] eqn:Hv.
  - rewrite decide_True by done. cbn [omap list_omap].
    unfold metricObservation at 1. rewrite Hv. cbn. by rewrite IH.
  - rewrite decide_False by (by intros [? ?]). cbn. by rewrite IH.
Qed.

Lemma dropValueless_snapshot families :
  snapshotObservations (dropValueless <$> families) = snapshotObservations families.
Proof.
  unfold snapshotObservations.
  induction families as [|family0 families IH]; [done|].
  cbn [fmap list_fmap mbind list_bind]. cbn in IH.
  by rewrite IH, dropValueless_observations.
Qed.

(** C10. An observation whose metric carries none of a gauge, counter or
    untyped value is skipped by the update: the outcome of the cycle is the
    one obtained from the snapshot without such metrics, and the cycle
    returns when [make] grants the capacity. Whenever the cycle returns and
    no observation with a value has the signature of such a metric, no
    series has been created for it, and a stored series of that signature
    has received the missing sample: with a capacity of at least one its
    samples are the most recent ones of before followed by NaN, as for a
    signature absent from the snapshot. *)
Theorem C10_valueless_skipped (s : Store) (families : list dto.MetricFamily) :
  UpdateFromFamilies s families = UpdateFromFamilies s (dropValueless <$> families)
  ∧ (makeReturns (HistoryLimit s) = true → ∃ s', UpdateFromFamilies s families = Some s')
  ∧ ∀ family0 metric s',
      family0 ∈ families → metric ∈ dto.GetMetric family0 →
      metricValue metric = None →
      let sig := GenerateSignature (dto.GetName family0) (metricLabels metric) in
      sig ∉ snapshotSignatures families →
      UpdateFromFamilies s families = Some s' →
      (Metrics s !! sig = None → Metrics s' !! sig = None)
      ∧ (∀ series, Metrics s !! sig = Some series →
           1 ≤ HistoryLimit s →
           Z.of_nat (length (Values series)) ≤ HistoryLimit s →
           ∃ series', Metrics s' !! sig = Some series'
                      ∧ gainsSample (HistoryLimit s) series nan series'
                      ∧ last (Values series') = Some nan
                      ∧ Z.of_nat (length (Values series'))
                        = Z.min (HistoryLimit s) (Z.of_nat (length (Values series)) + 1)).
Proof.
  split; [|split].
  - apply UpdateFromFamilies_observations. symmetry. apply dropValueless_snapshot.
  - intros Hmake. eexists. by apply UpdateFromFamilies_ok.
  - intros family0 metric s' _ _ _ sig Hnin Hrun.
    apply UpdateFromFamilies_Some in Hrun. subst s'. split.
    + intros Hs. by rewrite cycle_absent, Hs.
    + intros series Hs HN Hlen.
      destruct (cycle_gains_missing s families sig series) as (series' & Hs' & Hg);
        try done.
      exists series'. split; [done|]. split; [done|].
      destruct (gainsSample_window (HistoryLimit s) series series' nan HN Hg Hlen)
        as (Hlast & Hlength & _).
      by split.
Qed.

End UpdateCycle.

(** The claim C2 as it is stated fails on a snapshot that observes one
    signature twice: the stored series gains two samples in the cycle. *)
Lemma C2_counterexample :
  Metrics upStore !! "up{}" = Some upSeries
  ∧ ∃ s' series',
      UpdateFromFamilies (tables := asciiTables) (mem := memory64) upStore doubledSnapshot
      = Some s'
      ∧ Metrics s' !! "up{}" = Some series'
      ∧ Values series' = [1; 2; 3]%float
      ∧ ¬ advancedByOne upStore upSeries series'.
Proof.
  split; [done|].
  exists (cycleStore (tables := asciiTables) upStore doubledSnapshot),
    {| Name := "up"; Labels := ∅; Values := [1; 2; 3]%float |}.
  split; [apply UpdateFromFamilies_ok; reflexivity|].
  split; [by vm_compute|]. split; [done|].
  intros [v Hv]. apply (f_equal (λ series, length (Values series))) in Hv.
  cbn in Hv. discriminate.
Qed.

Lemma C2_update_cycle_witness :
  ∃ s' series',
    UpdateFromFamilies (tables := asciiTables) (mem := memory64) upStore
      [family "up" [gaugeMetric 2]] = Some s'
    ∧ Metrics s' !! "up{}" = Some series'
    ∧ Values series' = [1; 2]%float.
Proof.
  assert (1 ≤ HistoryLimit upStore) as HN by (cbn; lia).
  destruct (C2_update_cycle (tables := asciiTables) (mem := memory64) upStore
              [family "up" [gaugeMetric 2]] "up{}" HN) as (Hreturns & Hcycle & _).
  destruct (Hreturns eq_refl) as [s' Hrun].
  destruct (Hcycle s' Hrun) as (_ & Hobserved & _).
  assert (NoDup (snapshotSignatures (tables := asciiTables) [family "up" [gaugeMetric 2]]))
    as Hnd.
  { vm_compute. repeat constructor. intros Hin. by apply elem_of_nil in Hin. }
  destruct (Hobserved Hnd {| obs_sig := "up{}"; obs_name := "up"; obs_labels := ∅;
                             obs_value := 2%float |}) as [_ Hstored].
  - vm_compute. left.
  - reflexivity.
  - destruct (Hstored upSeries eq_refl) as (series' & Hs' & _ & _ & Hvalues).
    + cbn. lia.
    + exists s', series'. split; [exact Hrun|]. split; [exact Hs'|exact Hvalues].
Defined.

Lemma C10_valueless_skipped_witness :
  ∃ s' series',
    UpdateFromFamilies (tables := asciiTables) (mem := memory64) upStore valuelessSnapshot
    = Some s'
    ∧ Metrics s' !! "up{}" = Some series'
    ∧ Values series' = [1; nan]%float.
Proof.
  pose proof (C10_valueless_skipped (tables := asciiTables) (mem := memory64)
                upStore valuelessSnapshot) as (_ & Hreturns & Hskip).
  destruct (Hreturns eq_refl) as [s' Hrun].
  assert (family "up" [histogramMetric] ∈ valuelessSnapshot) as Hfam by left.
  assert (histogramMetric ∈ dto.GetMetric (family "up" [histogramMetric])) as Hmet by left.
  assert ("up{}" ∉ snapshotSignatures (tables := asciiTables) valuelessSnapshot) as Hnin.
  { vm_compute. intros Hin. apply elem_of_cons in Hin as [Heq|Hin]; [discriminate|].
    by apply elem_of_nil in Hin. }
  destruct (Hskip _ _ s' Hfam Hmet eq_refl Hnin Hrun) as [_ Hstored].
  destruct (Hstored upSeries eq_refl) as (series' & Hs' & (_ & _ & Hvalues) & _).
  - cbn. lia.
  - cbn. lia.
  - exists s', series'. split; [exact Hrun|]. split; [exact Hs'|exact Hvalues].
Defined.

(** ** The metric filter (the loop at the head of [buildTable]) *)

Lemma append_nil_l (s : string) : "" +:+ s = s.
Proof. reflexivity. Qed.

Lemma append_cons (a : ascii) (s1 s2 : string) :
  String a s1 +:+ s2 = String a (s1 +:+ s2).
Proof. reflexivity. Qed.

Lemma index_first_byte (c : ascii) (key rest : string) :
  hasByte c key = false →
  String.index 0 (String c "") (key +:+ String c rest) = Some (String.length key).
Proof.
  induction key as [|a key IH]; intros Hno.
  - rewrite append_nil_l. cbn [String.index String.prefix String.length].
    destruct (ascii_dec c c) as [_|Hne]; [|done].
    by destruct rest.
  - cbn in Hno. apply orb_false_iff in Hno as [Hac Hno].
    apply Ascii.eqb_neq in Hac.
    rewrite append_cons. cbn [String.index String.prefix String.length].
    destruct (ascii_dec c a) as [->|_]; [done|].
    by rewrite (IH Hno).
Qed.

Lemma index_no_byte (c : ascii) (s : string) :
  hasByte c s = false → String.index 0 (String c "") s = None.
Proof.
  induction s as [|a s IH]; intros Hno; [done|].
  cbn in Hno. apply orb_false_iff in Hno as [Hac Hno].
  apply Ascii.eqb_neq in Hac.
  cbn [String.index String.prefix].
  destruct (ascii_dec c a) as [->|_]; [done|].
  by rewrite (IH Hno).
Qed.

Lemma substring_all (s : string) : substring 0 (String.length s) s = s.
Proof. induction s as [|a s IH]; [done|]. cbn. by rewrite IH. Qed.

Lemma substring_prefix (key rest : string) :
  substring 0 (String.length key) (key +:+ rest) = key.
Proof.
  induction key as [|a key IH]; [by destruct rest|].
  rewrite append_cons. cbn. by rewrite IH.
Qed.

Lemma substring_suffix (key rest : string) (m : nat) :
  substring (String.length key) m (key +:+ rest) = substring 0 m rest.
Proof.
  induction key as [|a key IH]; [done|].
  rewrite append_cons. cbn. by rewrite IH.
Qed.

Lemma length_append (s1 s2 : string) :
  String.length (s1 +:+ s2) = (String.length s1 + String.length s2)%nat.
Proof.
  induction s1 as [|a s1 IH]; [done|].
  rewrite append_cons. cbn. by rewrite IH.
Qed.

(** Cutting [key=rest] at the first [=]. *)
Lemma split_at_equals (key rest : string) :
  hasByte "=" key = false →
  let pattern := key +:+ String "=" rest in
  strings_Index pattern "=" = Z.of_nat (String.length key)
  ∧ sliceTo pattern (Z.of_nat (String.length key)) = key
  ∧ sliceFrom pattern (Z.of_nat (String.length key) + 1) = rest.
Proof.
  intros Hno pattern. subst pattern. split; [|split].
  - unfold strings_Index. by rewrite index_first_byte.
  - unfold sliceTo. rewrite Nat2Z.id. apply substring_prefix.
  - unfold sliceFrom.
    replace (Z.to_nat (Z.of_nat (String.length key) + 1)) with (S (String.length key)) by lia.
    rewrite length_append. cbn [String.length].
    replace (String.length key + S (String.length rest) - S (String.length key))%nat
      with (String.length rest) by lia.
    replace (S (String.length key)) with (String.length (key +:+ "=")).
    + replace (key +:+ String "=" rest) with ((key +:+ "=") +:+ rest).
      * rewrite substring_suffix. apply substring_all.
      * clear. induction key as [|a key IH]; [done|].
        rewrite !append_cons. by rewrite IH.
    + rewrite length_append. cbn. lia.
Qed.

Section MetricFilter.
Context {re : Regexp}.

Lemma labelMatched_split (key rest : string) (series : MetricSeries) :
  hasByte "=" key = false →
  labelMatched (key +:+ String "=" rest) series =
  if strings_HasPrefix rest "~" then
    match Labels series !! key with
    | Some val => regexp_MatchString (sliceFrom rest 1) val
    | None => false
    end
  else
    match Labels series !! key with
    | Some val => String.eqb val rest
    | None => false
    end.
Proof.
  intros Hno. destruct (split_at_equals key rest Hno) as (Hidx & Hkey & Hrest).
  unfold labelMatched. rewrite Hidx, Hkey, Hrest.
  replace (Z.of_nat (String.length key) =? -1) with false
    by (symmetry; apply Z.eqb_neq; lia).
  done.
Qed.

(** The form [key=value]: the label [key] is exactly [value]. *)
Lemma labelMatched_exact (key value : string) (series : MetricSeries) :
  hasByte "=" key = false → strings_HasPrefix value "~" = false →
  labelMatched (key +:+ String "=" value) series = true
  ↔ Labels series !! key = Some value.
Proof.
  intros Hno Htilde. rewrite labelMatched_split, Htilde by done.
  destruct (Labels series !! key) as [val|]; [|done].
  rewrite String.eqb_eq. split; congruence.
Qed.

(** The form [key=~pattern]: the label [key] matches [pattern]. *)
Lemma labelMatched_regex (key pattern : string) (series : MetricSeries) :
  hasByte "=" key = false →
  labelMatched (key +:+ String "=" (String "~" pattern)) series = true
  ↔ ∃ val, Labels series !! key = Some val ∧ regexp_MatchString pattern val = true.
Proof.
  intros Hno. rewrite labelMatched_split by done.
  replace (strings_HasPrefix (String "~" pattern) "~") with true
    by (unfold strings_HasPrefix; cbn; by destruct pattern).
  replace (sliceFrom (String "~" pattern) 1) with pattern
    by (unfold sliceFrom; change (Z.to_nat 1) with 1%nat;
        cbn [String.length Nat.sub substring]; rewrite Nat.sub_0_r;
        symmetry; apply substring_all).
  destruct (Labels series !! key) as [val|].
  - split; [by exists val|]. intros (val' & Heq & Hm). congruence.
  - split; [done|]. by intros (val' & Heq & _).
Qed.

(** A pattern without [=]: some label value matches the whole pattern. *)
Lemma labelMatched_bare (pattern : string) (series : MetricSeries) :
  hasByte "=" pattern = false →
  labelMatched pattern series = true
  ↔ ∃ k val, Labels series !! k = Some val ∧ regexp_MatchString pattern val = true.
Proof.
  intros Hno. unfold labelMatched, strings_Index.
  rewrite index_no_byte by done. cbv zeta.
  change (-1 =? -1) with true. cbn [negb].
  rewrite existsb_exists. split.
  - intros ([k val] & Hin & Hm). exists k, val. split; [|done].
    apply elem_of_map_to_list. by apply list_elem_of_In.
  - intros (k & val & Hk & Hm). exists (k, val). split; [|done].
    apply list_elem_of_In. by apply elem_of_map_to_list.
Qed.

(** One round of the filter loop keeps the series iff the name check and,
    when the label pattern is not empty, the label check succeed. *)
Lemma passesFilter_checks (c : Config) (series : MetricSeries) :
  passesFilter c series = true
  ↔ (FilterMetric c = "" ∨ regexp_MatchString (FilterMetric c) (Name series) = true)
    ∧ (FilterLabel c = "" ∨ labelMatched (FilterLabel c) series = true).
Proof.
  unfold passesFilter.
  destruct (String.eqb_spec (FilterMetric c) "") as [Hm|Hm];
    destruct (String.eqb_spec (FilterLabel c) "") as [Hl|Hl];
    destruct (regexp_MatchString (FilterMetric c) (Name series));
    destruct (labelMatched (FilterLabel c) series); cbn; intuition congruence.
Qed.

End MetricFilter.

(** ** The layout: how many value columns fit *)

Ltac case_ltb1 :=
  match goal with |- context [?x <? 1] => destruct (Z.ltb_spec x 1) end.

Section ColumnFit.

Lemma fitLoop_lower colWidths termWidth idxs usedWidth numValueCols :
  numValueCols ≤ fitLoop colWidths termWidth idxs usedWidth numValueCols.
Proof.
  revert usedWidth numValueCols.
  induction idxs as [|i idxs IH]; intros usedWidth numValueCols; cbn [fitLoop]; [lia|].
  destruct (_ && _); [|apply IH].
  destruct (_ <=? _); [|lia].
  etrans; [|apply IH]. lia.
Qed.

Lemma fitLoop_upper colWidths termWidth idxs usedWidth numValueCols :
  fitLoop colWidths termWidth idxs usedWidth numValueCols
  ≤ numValueCols + Z.of_nat (length idxs).
Proof.
  revert usedWidth numValueCols.
  induction idxs as [|i idxs IH]; intros usedWidth numValueCols; cbn [fitLoop length]; [lia|].
  destruct (_ && _).
  - destruct (_ <=? _); [|lia]. etrans; [apply IH|]. lia.
  - etrans; [apply IH|]. lia.
Qed.

(** A wider terminal never shows fewer columns. *)
Lemma fitLoop_mono colWidths w1 w2 idxs usedWidth numValueCols :
  w1 ≤ w2 →
  fitLoop colWidths w1 idxs usedWidth numValueCols
  ≤ fitLoop colWidths w2 idxs usedWidth numValueCols.
Proof.
  intros Hw. revert usedWidth numValueCols.
  induction idxs as [|i idxs IH]; intros usedWidth numValueCols; cbn [fitLoop]; [lia|].
  destruct (_ && _); [|apply IH].
  destruct (Z.leb_spec (usedWidth + colWidths !!! Z.to_nat (Z.of_nat (length colWidths) - 1 - i) + 1) w1)
    as [Hfit1|Hover1].
  - rewrite (proj2 (Z.leb_le _ _)) by lia. apply IH.
  - destruct (_ <=? w2); [|lia].
    etrans; [|apply fitLoop_lower]. lia.
Qed.

Lemma fitValueCols_lower colWidths termWidth : 1 ≤ fitValueCols colWidths termWidth.
Proof. unfold fitValueCols. case_ltb1; lia. Qed.

Lemma fitValueCols_upper colWidths termWidth :
  fitValueCols colWidths termWidth ≤ Z.max 1 (Z.of_nat (length colWidths) - 1).
Proof.
  unfold fitValueCols.
  match goal with |- context [fitLoop ?cw ?w ?idxs ?u 0] =>
    pose proof (fitLoop_upper cw w idxs u 0) as Hup end.
  rewrite length_seqZ in Hup.
  case_ltb1; lia.
Qed.

Lemma fitValueCols_mono colWidths w1 w2 :
  w1 ≤ w2 → fitValueCols colWidths w1 ≤ fitValueCols colWidths w2.
Proof.
  intros Hw. unfold fitValueCols.
  match goal with |- context [fitLoop ?cw w1 ?idxs ?u 0] =>
    pose proof (fitLoop_mono cw w1 w2 idxs u 0 Hw) as Hmono end.
  repeat case_ltb1; lia.
Qed.

(** The columns kept are the name column and the last ones. *)
Lemma trimColumns_suffix (n : Z) (first : string) (cells : list string) :
  1 ≤ n → trimColumns n (first :: cells) = first :: lastN n cells.
Proof.
  intros Hn. unfold trimColumns, lastN. cbn [length lookup_total list_lookup_total].
  f_equal.
  destruct (Z.ltb_spec (Z.of_nat (S (length cells)) - n) 1) as [Hlt|Hge].
  - cbn. replace (length cells - Z.to_nat n)%nat with 0%nat by lia. done.
  - replace (Z.to_nat (Z.of_nat (S (length cells)) - n)) with (S (length cells - Z.to_nat n))
      by lia.
    done.
Qed.

End ColumnFit.

Lemma widthNeeded_S (colWidths : list Z) (k : nat) :
  widthNeeded colWidths (S k)
  = widthNeeded colWidths k + colWidths !!! (length colWidths - 1 - k)%nat + 1.
Proof.
  unfold widthNeeded. rewrite seq_S, fmap_app, foldr_app. cbn [fmap list_fmap foldr plus].
  generalize ((λ j : nat, colWidths !!! (length colWidths - 1 - j)%nat + 1) <$> seq 0 k).
  intros l. rewrite Z.add_0_r.
  assert (∀ (x : Z) l', foldr Z.add x l' = foldr Z.add 0 l' + x) as Hshift.
  { intros x l'. induction l' as [|y l' IH]; cbn; lia. }
  rewrite Hshift. lia.
Qed.

(** The loop is greedy: it takes the most recent columns as long as the
    table still fits, and stops at the first one that does not. *)
Lemma fitLoop_greedy (colWidths : list Z) (termWidth : Z) (n a : nat) :
  (a + n = length colWidths - 1)%nat →
  let c := fitLoop colWidths termWidth (seqZ (Z.of_nat a) (Z.of_nat n))
             (widthNeeded colWidths a) (Z.of_nat a) in
  Z.of_nat a ≤ c ≤ Z.of_nat (a + n)
  ∧ (∀ k : nat, (a < k)%nat → Z.of_nat k ≤ c → widthNeeded colWidths k ≤ termWidth)
  ∧ (c < Z.of_nat (a + n) → termWidth < widthNeeded colWidths (S (Z.to_nat c))).
Proof.
  revert a. induction n as [|n IH]; intros a Hlen c; subst c.
  - rewrite seqZ_nil by lia. cbn [fitLoop]. split; [lia|]. split; [|lia].
    intros k Hk Hc. lia.
  - rewrite seqZ_cons by lia. cbn [fitLoop].
    replace ((0 <? Z.of_nat (length colWidths) - 1 - Z.of_nat a)
             && (Z.of_nat (length colWidths) - 1 - Z.of_nat a <? Z.of_nat (length colWidths)))
      with true
      by (symmetry; apply andb_true_iff; split; apply Z.ltb_lt; lia).
    replace (Z.to_nat (Z.of_nat (length colWidths) - 1 - Z.of_nat a))
      with (length colWidths - 1 - a)%nat by lia.
    pose proof (widthNeeded_S colWidths a) as HS.
    destruct (Z.leb_spec (widthNeeded colWidths a
                          + colWidths !!! (length colWidths - 1 - a)%nat + 1) termWidth)
      as [Hfit|Hover].
    + rewrite <- HS.
      replace (Z.succ (Z.of_nat a)) with (Z.of_nat (S a)) by lia.
      replace (Z.pred (Z.of_nat (S n))) with (Z.of_nat n) by lia.
      replace (Z.of_nat a + 1) with (Z.of_nat (S a)) by lia.
      destruct (IH (S a)) as (Hrange & Hfits & Hstop); [lia|].
      split; [lia|]. split.
      * intros k Hk Hc. destruct (decide (k = S a)) as [->|Hne]; [lia|].
        apply Hfits; [lia|done].
      * intros Hc. apply Hstop. lia.
    + split; [lia|]. split.
      * intros k Hk Hc. lia.
      * intros _. rewrite Nat2Z.id. lia.
Qed.

Section Layout.
Context {re : Regexp} {lg : Lipgloss} {vp : Viewport} {rt : GoRuntime}.

Lemma clampCols_lower history : 1 ≤ clampCols history.
Proof. unfold clampCols. destruct (Z.ltb_spec history 1); lia. Qed.

Lemma buildHeaders_shape (m : model) :
  ∃ cells, buildHeaders m = "Metric" :: cells
           ∧ Z.of_nat (length cells) = clampCols (History (cfg m)).
Proof.
  unfold buildHeaders. eexists. split; [done|].
  rewrite length_fmap, length_seqZ. pose proof (clampCols_lower (History (cfg m))). lia.
Qed.

Lemma buildTableRow_shape (m : model) (series : MetricSeries) :
  ∃ cells, buildTableRow m series = styledName m series :: cells
           ∧ Z.of_nat (length cells) = clampCols (History (cfg m)).
Proof.
  unfold buildTableRow. eexists. split; [done|].
  rewrite length_fmap, length_seqZ. pose proof (clampCols_lower (History (cfg m))). lia.
Qed.

(** Every row has as many cells as there are headers, so there is one
    width for each header. *)
Lemma calculateColumnWidths_length (headers : list string) (rows : list (list string)) :
  headers ≠ [] →
  Forall (λ row, length row = length headers) rows →
  length (calculateColumnWidths headers rows) = length headers.
Proof.
  intros Hne Hrows. unfold calculateColumnWidths.
  replace ((length rows =? 0)%nat && (length headers =? 0)%nat) with false
    by (destruct headers; [done|]; cbn; by rewrite andb_false_r).
  rewrite length_fmap, length_seq.
  induction Hrows as [|row rows Hrow _ IH]; [done|].
  cbn [foldl]. rewrite Hrow, Nat.ltb_irrefl. exact IH.
Qed.

Lemma columnWidths_length (m : model) (filtered : list MetricSeries) :
  Z.of_nat (length (calculateColumnWidths (buildHeaders m) (buildTableRows m filtered)))
  = 1 + clampCols (History (cfg m)).
Proof.
  destruct (buildHeaders_shape m) as (cells & Hh & Hlen).
  rewrite calculateColumnWidths_length.
  - rewrite Hh. cbn [length]. lia.
  - by rewrite Hh.
  - unfold buildTableRows. apply Forall_fmap, Forall_forall. intros series _.
    unfold compose.
    destruct (buildTableRow_shape m series) as (cells' & Hr & Hlen').
    rewrite Hr, Hh. cbn [length]. lia.
Qed.

(** The width of the terminal enters the layout only through the number of
    value columns. *)
Lemma tableLayout_width (m : model) (w : Z) :
  tableLayout (withWidth m w) =
  if (length (filterSeries m) =? 0)%nat then None
  else
    let allRows := buildTableRows m (filterSeries m) in
    let allHeaders := buildHeaders m in
    let numValueCols := fitValueCols (calculateColumnWidths allHeaders allRows) w in
    Some (trimColumns numValueCols allHeaders, trimColumns numValueCols <$> allRows).
Proof. reflexivity. Qed.

(** C7. For a fixed store and configuration, let [n w] be the number of
    value columns the layout selects at terminal width [w]. Narrowing the
    terminal never increases it, it is never below 1 (and never above the
    number of candidate columns), and the header and every row keep the name
    column and the [n w] most recent value columns, a suffix of the
    candidates. The selection is greedy from the most recent column: every
    count of columns up to [n w] fits the width when more than one is kept
    (a single column is kept even when it does not fit), and the next older
    column, if any, would overflow. *)
Theorem C7_column_fit (m : model) (w1 w2 : Z) :
  w1 ≤ w2 →
  let allHeaders := buildHeaders m in
  let allRows := buildTableRows m (filterSeries m) in
  let colWidths := calculateColumnWidths allHeaders allRows in
  let n := fitValueCols colWidths in
  let candidates := clampCols (History (cfg m)) in
  1 ≤ n w1 ∧ n w1 ≤ n w2 ∧ n w2 ≤ candidates
  ∧ (∀ w, filterSeries m ≠ [] →
       tableLayout (withWidth m w)
       = Some (trimColumns (n w) allHeaders, trimColumns (n w) <$> allRows))
  ∧ (∀ w row, row ∈ allHeaders :: allRows →
       ∃ first cells,
         row = first :: cells ∧ Z.of_nat (length cells) = candidates
         ∧ trimColumns (n w) row = first :: lastN (n w) cells
         ∧ Z.of_nat (length (lastN (n w) cells)) = n w)
  ∧ (∀ w (k : nat), (0 < k)%nat → Z.of_nat k ≤ n w → 1 < n w →
       widthNeeded colWidths k ≤ w)
  ∧ (∀ w, n w < candidates → w < widthNeeded colWidths (S (Z.to_nat (n w)))
                              ∨ (n w = 1 ∧ w < widthNeeded colWidths 1)).
Proof.
  intros Hw allHeaders allRows colWidths n candidates.
  assert (Z.of_nat (length colWidths) = 1 + candidates) as Hlen
    by apply columnWidths_length.
  pose proof (clampCols_lower (History (cfg m))) as Hcand. fold candidates in Hcand.
  assert (∀ w, 1 ≤ n w ≤ candidates) as Hrange.
  { intros w. split; [apply fitValueCols_lower|].
    etrans; [apply fitValueCols_upper|]. fold colWidths. lia. }
  split; [apply Hrange|]. split; [by apply fitValueCols_mono|].
  split; [apply Hrange|]. split; [|split; [|split]].
  - intros w Hne. rewrite tableLayout_width.
    destruct (filterSeries m); [done|]. done.
  - intros w row Hrow.
    assert (∃ first cells, row = first :: cells ∧ Z.of_nat (length cells) = candidates)
      as (first & cells & -> & Hcells).
    { apply elem_of_cons in Hrow as [->|Hrow].
      - destruct (buildHeaders_shape m) as (cells & Hh & Hl). by exists "Metric", cells.
      - apply list_elem_of_fmap in Hrow as (series & -> & _).
        destruct (buildTableRow_shape m series) as (cells & Hr & Hl).
        by exists (styledName m series), cells. }
    exists first, cells. split; [done|]. split; [done|].
    split; [apply trimColumns_suffix, Hrange|].
    rewrite lastN_length by (specialize (Hrange w); lia).
    specialize (Hrange w). lia.
  - intros w k Hk Hkn Hmore. unfold n, fitValueCols in Hkn, Hmore.
    destruct (fitLoop_greedy colWidths w (length colWidths - 1) 0) as (_ & Hfits & _);
      [lia|].
    replace (if (0 <? length colWidths)%nat then 1 + (colWidths !!! 0%nat + 1) else 1)
      with (widthNeeded colWidths 0) in Hkn, Hmore
      by (unfold widthNeeded; cbn; destruct colWidths; [cbn in Hlen; lia|cbn; lia]).
    replace (Z.of_nat (length colWidths) - 1) with (Z.of_nat (length colWidths - 1))
      in Hkn, Hmore by lia.
    change (Z.of_nat 0) with 0 in Hfits.
    apply Hfits; [lia|]. revert Hkn Hmore. case_ltb1; lia.
  - intros w Hn. unfold n, fitValueCols in *.
    destruct (fitLoop_greedy colWidths w (length colWidths - 1) 0) as (Hc & _ & Hstop);
      [lia|].
    replace (if (0 <? length colWidths)%nat then 1 + (colWidths !!! 0%nat + 1) else 1)
      with (widthNeeded colWidths 0) in *
      by (unfold widthNeeded; cbn; destruct colWidths; [cbn in Hlen; lia|cbn; lia]).
    replace (Z.of_nat (length colWidths) - 1) with (Z.of_nat (length colWidths - 1)) in *
      by lia.
    change (Z.of_nat 0) with 0 in Hstop, Hc. cbn [plus] in Hstop, Hc.
    revert Hn. case_ltb1; intros Hn.
    + right. split; [done|].
      assert (fitLoop colWidths w (seqZ 0 (Z.of_nat (length colWidths - 1)))
                (widthNeeded colWidths 0) 0 = 0) as Hzero by lia.
      rewrite Hzero in Hstop. apply Hstop. lia.
    + left. apply Hstop. lia.
Qed.

End Layout.

Lemma C7_column_fit_witness :
  5 ≤ 30
  ∧ fitValueCols
      (calculateColumnWidths (lg := plainLipgloss)
         (buildHeaders (rt := plainRuntime) requestsModel)
         (buildTableRows (rt := plainRuntime) requestsModel
            (filterSeries (re := wordRegexp) requestsModel))) 5
    ≤ fitValueCols
        (calculateColumnWidths (lg := plainLipgloss)
           (buildHeaders (rt := plainRuntime) requestsModel)
           (buildTableRows (rt := plainRuntime) requestsModel
              (filterSeries (re := wordRegexp) requestsModel))) 30.
Proof.
  assert (5 ≤ 30) as Hw by lia.
  split; [exact Hw|].
  exact (proj1 (proj2 (C7_column_fit (re := wordRegexp) (rt := plainRuntime)
                         requestsModel 5 30 Hw))).
Defined.

(** The scenario of the specification at three widths: all three value
    columns, the two most recent, and the single column that is always kept. *)
Example layout_wide :
  plainTableLayout (withWidth requestsModel 80)
  = Some (["Metric"; "-10s"; "-5s"; "Curr"], [["requests_total"; "+40"; "+50"; "190"]]).
Proof. by vm_compute. Qed.

Example layout_narrow :
  plainTableLayout (withWidth requestsModel 27)
  = Some (["Metric"; "-5s"; "Curr"], [["requests_total"; "+50"; "190"]]).
Proof. by vm_compute. Qed.

Example layout_tiny :
  plainTableLayout (withWidth requestsModel 5)
  = Some (["Metric"; "Curr"], [["requests_total"; "190"]]).
Proof. by vm_compute. Qed.

(** ** The event handler: a failed fetch *)

Section FetchFailure.
Context {tables : UnicodeTables} {mem : GoMemory} {re : Regexp} {lg : Lipgloss}
  {vp : Viewport} {rt : GoRuntime}.

(** C8, as the code has it. Processing a fetch failure records the error as
    the current connection error, marks the model as not connected, leaves
    the store (every series and its samples), the fatal error and the pause
    flag as they are, and returns, without a panic, no command, so it never
    ends the program.
    The next tick schedules the following tick in every state; it starts a
    new fetch when the model is not paused, and no fetch while it is. *)
Theorem C8_fetch_failure (now : Z) (m : model) (e : string) :
  ∃ m',
    Update now m (errorMsg e) = Some (m', None)
    ∧ connectionError m' = Some e
    ∧ isConnected m' = false
    ∧ store m' = store m
    ∧ err m' = err m
    ∧ isPaused m' = isPaused m
    ∧ ∀ now' t,
        ∃ cmd,
          Update now' m' (tickMsg t) = Some (m', cmd)
          ∧ quits cmd = false
          ∧ ticks cmd = true
          ∧ fetches cmd = negb (isPaused m).
Proof.
  eexists. split; [reflexivity|]. cbn [connectionError isConnected store err isPaused].
  repeat split.
  intros now' t. cbn [Update isPaused].
  destruct (isPaused m); eexists; (split; [reflexivity|]); repeat split.
Qed.

End FetchFailure.

(** The claim C8 as it is stated fails in a paused model: the failure of the
    fetch that was under way is recorded, and the next tick starts no fetch. *)
Lemma C8_counterexample :
  ∃ failed cmd,
    plainUpdate 0 pausedModel (errorMsg "connection refused") = Some (failed, None)
    ∧ connectionError failed = Some "connection refused"
    ∧ plainUpdate 5 failed (tickMsg 5) = Some (failed, cmd)
    ∧ fetches cmd = false.
Proof.
  do 2 eexists.
  split; [vm_compute; reflexivity|].
  split; [reflexivity|].
  split; [vm_compute; reflexivity|].
  reflexivity.
Qed.

(** ** Start-up: what [main] checks *)

Section StartupChecks.
Context {re : Regexp} {lg : Lipgloss} {vp : Viewport}.

(** C9, as the code has it. Before the event loop starts, [main] rejects a
    missing endpoint, a label mode or delta mode that is not one of the
    known ones, and a name filter or label filter that does not compile as
    a regular expression (the label filter as a whole). Every other
    configuration starts the program: the history capacity and the poll
    interval are not checked, and the store is created with the capacity
    as given. *)
Theorem C9_startup_validation (parsed : Config) :
  (URL parsed = "" → ∃ message, main parsed = Exit1 message)
  ∧ (regexp_Compile (FilterMetric parsed) = false → ∃ message, main parsed = Exit1 message)
  ∧ (regexp_Compile (FilterLabel parsed) = false → ∃ message, main parsed = Exit1 message)
  ∧ (isLabelMode (LabelMode parsed) = false → ∃ message, main parsed = Exit1 message)
  ∧ (isDeltaMode (DeltaMode parsed) = false → ∃ message, main parsed = Exit1 message)
  ∧ (URL parsed ≠ "" →
     regexp_Compile (FilterMetric parsed) = true →
     regexp_Compile (FilterLabel parsed) = true →
     isLabelMode (LabelMode parsed) = true →
     isDeltaMode (DeltaMode parsed) = true →
     ∃ m, main parsed = Proceed m
          ∧ cfg m = parsed
          ∧ store m = NewStore (History parsed)
          ∧ isPaused m = false
          ∧ connectionError m = None).
Proof.
  unfold main, parseFlags.
  fold (isLabelMode (LabelMode parsed)). fold (isDeltaMode (DeltaMode parsed)).
  destruct (isLabelMode (LabelMode parsed)) eqn:Hlabel;
    destruct (isDeltaMode (DeltaMode parsed)) eqn:Hdelta;
    cbn [negb];
    destruct (String.eqb_spec (URL parsed) "") as [Hurl|Hurl];
    destruct (regexp_Compile (FilterMetric parsed)) eqn:Hmetric;
    destruct (regexp_Compile (FilterLabel parsed)) eqn:Hfilter;
    cbn [negb];
    repeat split; intros;
    first [ congruence
          | discriminate
          | (eexists; reflexivity)
          | (eexists; repeat split; reflexivity) ].
Qed.

End StartupChecks.

(** The claim C9 as it is stated fails for the history capacity: with
    [-history 0] and an endpoint, [main] starts the program, with a store of
    capacity 0. *)
Lemma C9_counterexample :
  History (exampleConfig 0 "off") < 1
  ∧ ∃ m, plainMain (exampleConfig 0 "off") = Proceed m
         ∧ HistoryLimit (store m) = 0.
Proof.
  split; [reflexivity|]. eexists.
  split; [vm_compute; reflexivity|]. reflexivity.
Qed.

(** With capacity 0 every append is pruned at once: the store keeps no
    sample, and the table shows an empty current column. *)
Example zero_history_keeps_nothing :
  (λ s, Values <$> Metrics s !! "requests_total{}")
    <$> runCycles (tables := asciiTables) (mem := memory64) (NewStore 0) requestsCycles
  = Some (Some []).
Proof. by vm_compute. Qed.

(** With the capacity [2^63 - 1], the largest the flag accepts, the first
    poll that reports a metric panics: the bytes of the slice overflow. *)
Example huge_history_panics :
  (∃ m, plainMain (exampleConfig (2 ^ 63 - 1) "off") = Proceed m
        ∧ plainUpdate 0 m (fetchResult [family "up" [gaugeMetric 1]]) = None).
Proof.
  eexists. split; [vm_compute; reflexivity|]. vm_compute. reflexivity.
Qed.

(** With a negative capacity the first poll that reports a metric panics. *)
Example negative_history_panics :
  (∃ m, plainMain (exampleConfig (-1) "off") = Proceed m
        ∧ plainUpdate 0 m (fetchResult [family "up" [gaugeMetric 1]]) = None).
Proof.
  eexists. split; [vm_compute; reflexivity|]. vm_compute. reflexivity.
Qed.

(** The scenario of the specification runs without a panic and leaves the
    store of the layout examples. *)
Example requests_run :
  runCycles (tables := asciiTables) (mem := memory64) (NewStore 3) requestsCycles = Some requestsStore.
Proof. apply runCycles_ok. reflexivity. Qed.

(** ** Signatures ([GenerateSignature]) *)

Section Signatures.
Context {tables : UnicodeTables} {mem : GoMemory}.

(** The order in which the labels were inserted does not matter: the
    signature is a function of the label set. *)
Lemma GenerateSignature_permutation (name : string) (l1 l2 : list (string * string)) :
  NoDup l1.*1 → l1 ≡ₚ l2 →
  GenerateSignature name (list_to_map l1) = GenerateSignature name (list_to_map l2).
Proof.
  intros Hnd Hperm. f_equal. by apply list_to_map_proper.
Qed.

(** C3, where the code departs from the claim: label names are written
    into the signature as they are, only the values are quoted. The label
    sets [{a="1", b="2"}] and [{(a="1",b)="2"}] of the metric [foo] differ
    and have the same signature. *)
Theorem C3_signature_collision :
  twoLabels ≠ spelledLabels
  ∧ GenerateSignature "foo" twoLabels = GenerateSignature "foo" spelledLabels
  ∧ GenerateSignature "foo" twoLabels
    = "foo{a=" +:+ String dquote ("1" +:+ String dquote
        (",b=" +:+ String dquote ("2" +:+ String dquote "}"))).
Proof.
  split; [|split].
  - intros Heq. apply (f_equal (λ labels : gmap string string, labels !! "b")) in Heq.
    vm_compute in Heq. discriminate.
  - vm_compute. reflexivity.
  - vm_compute. reflexivity.
Qed.

End Signatures.

(** The two gauges of [collidingSnapshot] end up in one series, which
    receives two samples in the cycle. *)
Example colliding_series_merge :
  (λ s, (Values <$> Metrics s !! GenerateSignature (tables := asciiTables) "foo" twoLabels,
         size (Metrics s)))
    <$> UpdateFromFamilies (tables := asciiTables) (mem := memory64) (NewStore 10) collidingSnapshot
  = Some (Some [1; 7]%float, 1%nat).
Proof. vm_compute. reflexivity. Qed.

(** * Further properties of the code *)

(** ** The store over many cycles *)

Section StoreInvariants.
Context {tables : UnicodeTables} {mem : GoMemory}.

Lemma appendValue_bounded0 s series v :
  0 ≤ HistoryLimit s →
  Z.of_nat (length (Values series)) ≤ HistoryLimit s →
  Z.of_nat (length (Values (appendValue s series v))) ≤ HistoryLimit s.
Proof.
  intros HN Hlen. unfold appendValue. cbn [Values].
  destruct (Z.gtb_spec (Z.of_nat (length (Values series ++ [v]))) (HistoryLimit s))
    as [Hgt|Hle]; [|done].
  rewrite length_drop, length_app. cbn [length]. lia.
Qed.

Lemma appendValue_nonempty s series v :
  1 ≤ HistoryLimit s → (1 ≤ length (Values (appendValue s series v)))%nat.
Proof.
  intros HN. unfold appendValue. cbn [Values].
  destruct (Z.gtb_spec (Z.of_nat (length (Values series ++ [v]))) (HistoryLimit s))
    as [Hgt|Hle]; rewrite ?length_drop, length_app; cbn [length]; [|lia].
  rewrite length_app in Hgt. cbn [length] in Hgt. lia.
Qed.

Lemma appendAll_bounded0 s vs series :
  0 ≤ HistoryLimit s →
  Z.of_nat (length (Values series)) ≤ HistoryLimit s →
  Z.of_nat (length (Values (foldl (appendValue s) series vs))) ≤ HistoryLimit s.
Proof.
  intros HN. revert series. induction vs as [|v vs IH]; intros series Hlen; [done|].
  cbn [foldl]. apply IH. by apply appendValue_bounded0.
Qed.

Lemma appendAll_nonempty s vs series :
  1 ≤ HistoryLimit s → (1 ≤ length (Values series))%nat →
  (1 ≤ length (Values (foldl (appendValue s) series vs)))%nat.
Proof.
  intros HN. revert series. induction vs as [|v vs IH]; intros series Hne; [done|].
  cbn [foldl]. apply IH. by apply appendValue_nonempty.
Qed.

Lemma cycleStore_bounded s families :
  0 ≤ HistoryLimit s → storeBounded s → storeBounded (cycleStore s families).
Proof.
  intros HN Hb sig series'. rewrite cycleStore_limit, cycleStore_lookup.
  destruct (filter _ (snapshotObservations families)) as [|first matching].
  - destruct (Metrics s !! sig) as [series|] eqn:Hs; [|done].
    intros [= <-]. apply appendValue_bounded0; [done|]. by apply (Hb sig).
  - intros [= <-].
    apply appendAll_bounded0; [done|]. apply appendValue_bounded0; [done|].
    destruct (Metrics s !! sig) as [series|] eqn:Hs; cbn [default].
    + by apply (Hb sig).
    + cbn [freshSeries Values length]. lia.
Qed.

Lemma cycleStore_nonempty s families sig series :
  1 ≤ HistoryLimit s →
  Metrics (cycleStore s families) !! sig = Some series →
  (1 ≤ length (Values series))%nat.
Proof.
  intros HN. rewrite cycleStore_lookup.
  destruct (filter _ (snapshotObservations families)) as [|first matching].
  - destruct (Metrics s !! sig) as [series0|]; [|done].
    intros [= <-]. by apply appendValue_nonempty.
  - intros [= <-]. apply appendAll_nonempty; [done|]. by apply appendValue_nonempty.
Qed.

(** X1. With a capacity [N] that [make] grants, every sequence of update
    cycles on a new store returns, and the store it leaves keeps the
    capacity, holds at most [N] samples in every series, and, when [N ≥ 1],
    at least one sample in every series. *)
Theorem store_window_invariant (N : Z) (cycles : list (list dto.MetricFamily)) :
  makeReturns N = true →
  ∃ s', runCycles (NewStore N) cycles = Some s'
        ∧ HistoryLimit s' = N
        ∧ ∀ sig series, Metrics s' !! sig = Some series →
            Z.of_nat (length (Values series)) ≤ N
            ∧ (1 ≤ N → (1 ≤ length (Values series))%nat).
Proof.
  intros Hmake. pose proof (makeReturns_nonneg N Hmake) as HN.
  exists (foldl cycleStore (NewStore N) cycles).
  split; [by apply runCycles_ok|].
  induction cycles as [|families cycles IH] using rev_ind.
  - split; [done|]. intros sig series Hs. cbn in Hs. by rewrite lookup_empty in Hs.
  - rewrite foldl_app. cbn [foldl]. destruct IH as [Hlimit Hseries].
    split; [by rewrite cycleStore_limit|].
    intros sig series Hs. split.
    + assert (storeBounded (foldl cycleStore (NewStore N) cycles)) as Hb.
      { intros sig0 series0 Hs0. rewrite Hlimit. by apply (Hseries sig0 series0). }
      apply (cycleStore_bounded _ families) in Hb; [|lia].
      specialize (Hb sig series Hs). rewrite cycleStore_limit, Hlimit in Hb. exact Hb.
    + intros HN1.
      apply (cycleStore_nonempty (foldl cycleStore (NewStore N) cycles) families sig);
        [lia|done].
Qed.

(** X2. A cycle never removes a series and never changes the name or the
    labels of a stored one; the signatures after the cycle are the stored
    ones and those of the snapshot's observations. *)
Theorem series_persist (s s' : Store) (families : list dto.MetricFamily) :
  UpdateFromFamilies s families = Some s' →
  (∀ sig series, Metrics s !! sig = Some series →
     ∃ series', Metrics s' !! sig = Some series'
                ∧ Name series' = Name series ∧ Labels series' = Labels series)
  ∧ (∀ sig, is_Some (Metrics s' !! sig)
            ↔ is_Some (Metrics s !! sig) ∨ sig ∈ snapshotSignatures families).
Proof.
  intros Hrun. apply UpdateFromFamilies_Some in Hrun. subst s'. split.
  - intros sig series Hs. rewrite cycleStore_lookup, Hs.
    destruct (filter _ (snapshotObservations families)) as [|first matching].
    + eexists. split; [done|]. done.
    + eexists. split; [done|]. by rewrite appendAll_Name, appendAll_Labels.
  - intros sig. rewrite cycleStore_lookup.
    destruct (filter _ (snapshotObservations families)) as [|first matching] eqn:Hf.
    + assert (sig ∉ snapshotSignatures families) as Hnin.
      { intros Hin. apply list_elem_of_fmap in Hin as (ob & -> & Hin).
        assert (ob ∈ filter (λ ob', obs_sig ob' = obs_sig ob) (snapshotObservations families))
          as Hin' by (by apply list_elem_of_filter).
        rewrite Hf in Hin'. by apply elem_of_nil in Hin'. }
      rewrite fmap_is_Some. tauto.
    + split; [|by eexists]. intros _. right.
      assert (first ∈ filter (λ ob, obs_sig ob = sig) (snapshotObservations families))
        as Hin by (rewrite Hf; left).
      apply list_elem_of_filter in Hin as [<- Hin]. by apply list_elem_of_fmap_2.
Qed.

(** The loop over the observations panics exactly when [make] refuses the
    capacity and some observation has no series yet. *)
Lemma observations_panic obs st :
  foldlOpt observe st obs = None
  ↔ makeReturns (HistoryLimit st.1) = false
    ∧ ∃ ob, ob ∈ obs ∧ Metrics st.1 !! obs_sig ob = None.
Proof.
  revert st. induction obs as [|ob obs IH]; intros [s seen]; cbn [fst].
  - split; [done|]. intros (_ & ob & Hin & _). by apply elem_of_nil in Hin.
  - cbn [foldlOpt]. unfold observe at 1, updateMetric. cbn [fst snd].
    destruct (Metrics s !! obs_sig ob) as [series|] eqn:Hs.
    + rewrite IH. cbn [fst Metrics HistoryLimit]. split.
      * intros (HN & ob' & Hin & Hnone). split; [done|]. exists ob'.
        split; [by right|].
        rewrite lookup_insert in Hnone. by case_decide.
      * intros (HN & ob' & Hin & Hnone). split; [done|].
        apply elem_of_cons in Hin as [->|Hin]; [congruence|].
        exists ob'. split; [done|].
        rewrite lookup_insert. case_decide as Heq; [|done]. congruence.
    + destruct (makeReturns (HistoryLimit s)) eqn:Hmake; cbn [negb].
      * rewrite IH. cbn [fst HistoryLimit]. rewrite Hmake.
        split; [by intros [? _]|by intros [? _]].
      * split; [|done]. intros _. split; [done|]. exists ob. split; [left|done].
Qed.

Lemma UpdateFromFamilies_None s families :
  UpdateFromFamilies s families = None
  ↔ foldlOpt observe (s, ∅) (snapshotObservations families) = None.
Proof.
  unfold UpdateFromFamilies. rewrite updateFromFamilies_obs.
  by destruct (foldlOpt observe (s, ∅) (snapshotObservations families)).
Qed.

(** X3. An update cycle panics exactly when [make] refuses the capacity of
    the store (it is negative, or beyond what the allocator grants) and the
    snapshot carries an observation whose signature has no series yet. *)
Theorem update_panics_iff (s : Store) (families : list dto.MetricFamily) :
  UpdateFromFamilies s families = None
  ↔ makeReturns (HistoryLimit s) = false
    ∧ ∃ ob, ob ∈ snapshotObservations families ∧ Metrics s !! obs_sig ob = None.
Proof.
  rewrite UpdateFromFamilies_None.
  apply (observations_panic (snapshotObservations families) (s, ∅)).
Qed.

Lemma filter_permutation_unique (obs1 obs2 : list Observation) (sig : string) :
  obs1 ≡ₚ obs2 → NoDup (obs_sig <$> obs1) →
  filter (λ ob, obs_sig ob = sig) obs1 = filter (λ ob, obs_sig ob = sig) obs2.
Proof.
  intros Hperm Hnd.
  assert (NoDup (obs_sig <$> obs2)) as Hnd2 by (by rewrite <- Hperm).
  destruct (decide (sig ∈ obs_sig <$> obs1)) as [Hin|Hnin].
  - apply list_elem_of_fmap in Hin as (ob & -> & Hin).
    rewrite (filter_unique_key obs_sig obs1 ob Hnd Hin).
    rewrite (filter_unique_key obs_sig obs2 ob Hnd2); [done|]. by rewrite <- Hperm.
  - rewrite !filter_none; [done| |].
    + intros ob Hin <-. apply Hnin. apply list_elem_of_fmap_2. by rewrite Hperm.
    + intros ob Hin <-. apply Hnin. by apply list_elem_of_fmap_2.
Qed.

(** X4. The order in which the loop over the map visits the families does
    not matter when the observations of the snapshot have pairwise distinct
    signatures: every order gives the same outcome, panic or store. *)
Theorem update_order_independent (s : Store) (families1 families2 : list dto.MetricFamily) :
  families1 ≡ₚ families2 →
  NoDup (snapshotSignatures families1) →
  UpdateFromFamilies s families1 = UpdateFromFamilies s families2.
Proof.
  intros Hperm Hnd.
  assert (snapshotObservations families1 ≡ₚ snapshotObservations families2) as Hobs
    by (unfold snapshotObservations; by rewrite Hperm).
  destruct (UpdateFromFamilies s families1) as [s1|] eqn:H1.
  - destruct (UpdateFromFamilies s families2) as [s2|] eqn:H2.
    + apply UpdateFromFamilies_Some in H1, H2. subst s1 s2. f_equal.
      assert (Metrics (cycleStore s families1) = Metrics (cycleStore s families2)) as Hm.
      { apply map_eq. intros sig. rewrite !cycleStore_lookup.
        by rewrite (filter_permutation_unique _ _ sig Hobs Hnd). }
      assert (HistoryLimit (cycleStore s families1) = HistoryLimit (cycleStore s families2))
        as Hl by (by rewrite !cycleStore_limit).
      destruct (cycleStore s families1), (cycleStore s families2). cbn in *. congruence.
    + apply UpdateFromFamilies_None, observations_panic in H2
        as (HN & ob & Hin & Hnone).
      assert (UpdateFromFamilies s families1 = None) as Hp.
      { apply UpdateFromFamilies_None, observations_panic.
        split; [done|]. exists ob. split; [|done]. by rewrite Hobs. }
      congruence.
  - symmetry. apply UpdateFromFamilies_None, observations_panic in H1
      as (HN & ob & Hin & Hnone).
    apply UpdateFromFamilies_None, observations_panic.
    split; [done|]. exists ob. split; [|done]. by rewrite <- Hobs.
Qed.

End StoreInvariants.

Lemma store_window_invariant_witness :
  ∃ s', runCycles (tables := asciiTables) (mem := memory64) (NewStore 1) twoGaugeCycles = Some s'
        ∧ HistoryLimit s' = 1.
Proof.
  assert (makeReturns (mem := memory64) 1 = true) as HN by reflexivity.
  destruct (store_window_invariant (tables := asciiTables) (mem := memory64) 1
              twoGaugeCycles HN)
    as (s' & Hrun & Hlimit & _).
  exists s'. split; [exact Hrun|exact Hlimit].
Defined.

Lemma series_persist_witness :
  ∃ s' series',
    UpdateFromFamilies (tables := asciiTables) (mem := memory64) upStore valuelessSnapshot = Some s'
    ∧ Metrics s' !! "up{}" = Some series'
    ∧ Name series' = "up".
Proof.
  assert (UpdateFromFamilies (tables := asciiTables) (mem := memory64) upStore valuelessSnapshot
          = Some (cycleStore upStore valuelessSnapshot)) as Hrun
    by (apply UpdateFromFamilies_ok; cbn; lia).
  destruct (proj1 (series_persist (tables := asciiTables) (mem := memory64) _ _ _ Hrun) "up{}" upSeries eq_refl)
    as (series' & Hs & Hname & _).
  exists (cycleStore (tables := asciiTables) upStore valuelessSnapshot), series'.
  split; [exact Hrun|]. split; [exact Hs|exact Hname].
Defined.

Lemma update_order_independent_witness :
  UpdateFromFamilies (tables := asciiTables) (mem := memory64) upStore
    [family "up" [gaugeMetric 1]; family "load" [gaugeMetric 4]]
  = UpdateFromFamilies (tables := asciiTables) (mem := memory64) upStore
      [family "load" [gaugeMetric 4]; family "up" [gaugeMetric 1]].
Proof.
  apply update_order_independent.
  - apply perm_swap.
  - vm_compute. repeat constructor.
    + intros Hin. apply elem_of_cons in Hin as [Heq|Hin]; [discriminate|].
      by apply elem_of_nil in Hin.
    + intros Hin. by apply elem_of_nil in Hin.
Defined.

(** ** The order of [sort.Strings] *)

Lemma string_compare_trans (s1 s2 s3 : string) :
  String.compare s1 s2 ≠ Gt → String.compare s2 s3 ≠ Gt → String.compare s1 s3 ≠ Gt.
Proof.
  revert s2 s3. induction s1 as [|a s1 IH]; intros [|b s2] [|c s3]; cbn; try done.
  unfold Ascii.compare.
  destruct (N.compare_spec (N_of_ascii a) (N_of_ascii b)) as [Hab|Hab|Hab];
    destruct (N.compare_spec (N_of_ascii b) (N_of_ascii c)) as [Hbc|Hbc|Hbc];
    try done.
  - rewrite Hab, Hbc, N.compare_refl. apply IH.
  - intros _ _. rewrite Hab. by apply N.compare_lt_iff in Hbc as ->.
  - intros _ _. rewrite <- Hbc. by apply N.compare_lt_iff in Hab as ->.
  - intros _ _. assert (N_of_ascii a < N_of_ascii c)%N as Hac by lia.
    by apply N.compare_lt_iff in Hac as ->.
Qed.

Lemma string_le_compare (a b : string) : string_le a b ↔ String.compare a b ≠ Gt.
Proof.
  unfold string_le, String.leb. by destruct (String.compare a b).
Qed.

#[local] Instance string_le_trans : Transitive string_le.
Proof.
  intros a b c. rewrite !string_le_compare. apply string_compare_trans.
Qed.

#[local] Instance string_le_total : Total string_le.
Proof. intros a b. apply String.leb_total. Qed.

#[local] Instance string_le_antisymm : AntiSymm (=) string_le.
Proof. intros a b. apply String.leb_antisym. Qed.

Lemma sortStrings_sorted (l : list string) : StronglySorted string_le (sortStrings l).
Proof. apply StronglySorted_merge_sort; apply _. Qed.

Lemma sortStrings_perm (l : list string) : sortStrings l ≡ₚ l.
Proof. apply merge_sort_Permutation. Qed.

Lemma sortStrings_permutation (l1 l2 : list string) :
  l1 ≡ₚ l2 → sortStrings l1 = sortStrings l2.
Proof.
  intros Hperm. apply (StronglySorted_unique string_le); try apply sortStrings_sorted.
  by rewrite !sortStrings_perm.
Qed.

Section KeyOrder.
Context {tables : UnicodeTables} {mem : GoMemory}.

(** X5. The signature does not depend on the order in which the loop over
    the label map yields the keys: whatever the order, the sorted keys are
    the keys of the map in ascending byte order, each once, and the
    signature is the same. *)
Theorem signature_key_order (name : string) (labels : gmap string string)
    (keys : list string) :
  keys ≡ₚ (map_to_list labels).*1 →
  GenerateSignatureVisiting keys name labels = GenerateSignature name labels
  ∧ sortStrings keys = sortedKeys labels
  ∧ StronglySorted string_le (sortedKeys labels)
  ∧ NoDup (sortedKeys labels)
  ∧ ∀ k, k ∈ sortedKeys labels ↔ is_Some (labels !! k).
Proof.
  intros Hperm.
  assert (sortStrings keys = sortedKeys labels) as Hsort
    by (by apply sortStrings_permutation).
  split; [|split; [done|split; [|split]]].
  - unfold GenerateSignatureVisiting, GenerateSignature. by rewrite Hsort.
  - apply sortStrings_sorted.
  - unfold sortedKeys. rewrite sortStrings_perm. apply NoDup_fst_map_to_list.
  - intros k. unfold sortedKeys. rewrite sortStrings_perm.
    change (map fst (map_to_list labels)) with ((map_to_list labels).*1).
    rewrite list_elem_of_fmap. split.
    + intros ([k' v] & -> & Hin). apply elem_of_map_to_list in Hin. by eexists.
    + intros [v Hv]. exists (k, v). split; [done|]. by apply elem_of_map_to_list.
Qed.

End KeyOrder.

Lemma signature_key_order_witness :
  GenerateSignatureVisiting (tables := asciiTables) ["b"; "a"] "foo" twoLabels
  = GenerateSignature (tables := asciiTables) "foo" twoLabels.
Proof.
  refine (proj1 (signature_key_order (tables := asciiTables) "foo" twoLabels ["b"; "a"] _)).
  vm_compute. apply perm_swap.
Defined.

(** ** The rows of the table ([buildTable]) *)

Lemma StronglySorted_filter {A} (R : relation A) (P : A → Prop)
    `{∀ x, Decision (P x)} (l : list A) :
  StronglySorted R l → StronglySorted R (filter P l).
Proof.
  induction 1 as [|x l Hl IH Hx]; [constructor|].
  rewrite filter_cons. destruct (decide (P x)); [|done].
  constructor; [done|].
  apply Forall_forall. intros y Hy. apply list_elem_of_filter in Hy as [_ Hy].
  by apply (proj1 (Forall_forall _ _) Hx).
Qed.

Lemma filter_all {A} (P : A → Prop) `{∀ x, Decision (P x)} (l : list A) :
  (∀ x, x ∈ l → P x) → filter P l = l.
Proof.
  induction l as [|x l IH]; intros Hall; [done|].
  rewrite filter_cons, decide_True by (apply Hall; left).
  f_equal. apply IH. intros y Hy. apply Hall. by right.
Qed.

(** Whether the series stored under [k] is shown. *)
Lemma omap_selected {A} (M : gmap string A) (P : A → bool) (ks : list string) :
  Forall2 (λ sig series, M !! sig = Some series)
    (filter (λ k, (match M !! k with Some series => P series | None => false end) = true) ks)
    (omap (λ k, match M !! k with
                | Some series => if P series then Some series else None
                | None => None
                end) ks).
Proof.
  induction ks as [|k ks IH]; [constructor|].
  rewrite filter_cons. cbn [omap list_omap].
  destruct (M !! k) as [series|] eqn:Hk.
  - destruct (P series) eqn:HP.
    + rewrite decide_True by done. cbn. by constructor.
    + rewrite decide_False by done. exact IH.
  - rewrite decide_False by done. exact IH.
Qed.

Section TableRows.
Context {tables : UnicodeTables} {mem : GoMemory} {re : Regexp} {lg : Lipgloss}
  {vp : Viewport} {rt : GoRuntime}.

(** X6. The rows of the table are the stored series that pass the filter,
    each once, in ascending byte order of their signatures. *)
Theorem filterSeries_sorted_selection (m : model) :
  ∃ sigs, StronglySorted string_le sigs
    ∧ NoDup sigs
    ∧ Forall2 (λ sig series, Metrics (store m) !! sig = Some series) sigs (filterSeries m)
    ∧ ∀ sig, sig ∈ sigs
        ↔ ∃ series, Metrics (store m) !! sig = Some series
                    ∧ passesFilter (cfg m) series = true.
Proof.
  eexists. split; [|split; [|split; [apply omap_selected|]]].
  - apply StronglySorted_filter, sortStrings_sorted.
  - apply NoDup_filter. rewrite sortStrings_perm. apply NoDup_fst_map_to_list.
  - intros sig. rewrite list_elem_of_filter, sortStrings_perm.
    change (map fst (map_to_list (Metrics (store m))))
      with ((map_to_list (Metrics (store m))).*1).
    split.
    + intros [Hsel _]. destruct (Metrics (store m) !! sig) as [series|]; [|done].
      by exists series.
    + intros (series & Hs & Hpass). rewrite Hs. split; [done|].
      apply list_elem_of_fmap. exists (sig, series). split; [done|].
      by apply elem_of_map_to_list.
Qed.

Lemma filterSeries_elem (m : model) (series : MetricSeries) :
  series ∈ filterSeries m
  ↔ ∃ sig, Metrics (store m) !! sig = Some series ∧ passesFilter (cfg m) series = true.
Proof.
  unfold filterSeries. rewrite list_elem_of_omap. split.
  - intros (sig & _ & Hsel). exists sig.
    destruct (Metrics (store m) !! sig) as [series'|]; [|done].
    destruct (passesFilter (cfg m) series') eqn:Hpass; [|done].
    by injection Hsel as ->.
  - intros (sig & Hs & Hpass). exists sig. rewrite Hs, Hpass. split; [|done].
    rewrite sortStrings_perm.
    change (map fst (map_to_list (Metrics (store m))))
      with ((map_to_list (Metrics (store m))).*1).
    apply list_elem_of_fmap. exists (sig, series). split; [done|].
    by apply elem_of_map_to_list.
Qed.

(** C6. The filter loop at the head of [buildTable] keeps a series of the
    store iff the name check and, when the label pattern is not empty, the
    label check both succeed, and leaves every other series out of the
    table. The label check of a pattern [key=value] succeeds iff the label
    [key] of the series is exactly [value]; that of [key=~pattern] iff the
    label [key] matches the regular expression [pattern]; that of a pattern
    without [=] iff some label value matches the pattern as a regular
    expression. So [env=prod] matches the series whose label [env] is
    exactly [prod], [env=~prod.*] those whose label [env] matches [prod.*],
    and [prod] those with some label value that matches [prod]. *)
Theorem C6_metric_filter (m : model) (series : MetricSeries) :
  (series ∈ filterSeries m
   ↔ (∃ sig, Metrics (store m) !! sig = Some series)
     ∧ (FilterMetric (cfg m) = ""
        ∨ regexp_MatchString (FilterMetric (cfg m)) (Name series) = true)
     ∧ (FilterLabel (cfg m) = "" ∨ labelMatched (FilterLabel (cfg m)) series = true))
  ∧ (∀ key value, hasByte "=" key = false → strings_HasPrefix value "~" = false →
       (labelMatched (key +:+ String "=" value) series = true
        ↔ Labels series !! key = Some value))
  ∧ (∀ key pattern, hasByte "=" key = false →
       (labelMatched (key +:+ String "=" (String "~" pattern)) series = true
        ↔ ∃ val, Labels series !! key = Some val
                 ∧ regexp_MatchString pattern val = true))
  ∧ (∀ pattern, hasByte "=" pattern = false →
       (labelMatched pattern series = true
        ↔ ∃ k val, Labels series !! k = Some val
                   ∧ regexp_MatchString pattern val = true))
  ∧ (labelMatched "env=prod" series = true ↔ Labels series !! "env" = Some "prod")
  ∧ (labelMatched "env=~prod.*" series = true
     ↔ ∃ val, Labels series !! "env" = Some val
              ∧ regexp_MatchString "prod.*" val = true)
  ∧ (labelMatched "prod" series = true
     ↔ ∃ k val, Labels series !! k = Some val ∧ regexp_MatchString "prod" val = true).
Proof.
  split; [|split; [|split; [|split; [|split; [|split]]]]].
  - rewrite filterSeries_elem. split.
    + intros (sig & Hs & Hpass). apply passesFilter_checks in Hpass.
      split; [by exists sig|done].
    + intros ([sig Hs] & Hchecks). exists sig. split; [done|].
      by apply passesFilter_checks.
  - intros key value. apply labelMatched_exact.
  - intros key pattern. apply labelMatched_regex.
  - intros pattern. apply labelMatched_bare.
  - by apply (labelMatched_exact "env" "prod").
  - by apply (labelMatched_regex "env" "prod.*").
  - by apply labelMatched_bare.
Qed.

(** X7. The table is replaced by the text [No metrics to display] exactly
    when no stored series passes the filter; an empty store is one case. *)
Theorem empty_table_iff (m : model) :
  (tableLayout m = None
   ↔ ∀ sig series, Metrics (store m) !! sig = Some series
                   → passesFilter (cfg m) series = false)
  ∧ (tableLayout m = None → buildTable m = "No metrics to display")
  ∧ (Metrics (store m) = ∅ → buildTable m = "No metrics to display").
Proof.
  assert (tableLayout m = None
          ↔ ∀ sig series, Metrics (store m) !! sig = Some series
                          → passesFilter (cfg m) series = false) as Hiff.
  { unfold tableLayout. destruct (filterSeries m) as [|series rest] eqn:Hf; cbn.
    - split; [|done]. intros _ sig series Hs.
      destruct (passesFilter (cfg m) series) eqn:Hpass; [|done].
      assert (series ∈ filterSeries m) as Hin by (apply filterSeries_elem; eauto).
      rewrite Hf in Hin. by apply elem_of_nil in Hin.
    - split; [done|]. intros Hnone.
      assert (series ∈ filterSeries m) as Hin by (rewrite Hf; left).
      apply filterSeries_elem in Hin as (sig & Hs & Hpass).
      rewrite (Hnone sig series Hs) in Hpass. done. }
  split; [exact Hiff|]. split.
  - intros Hnone. unfold buildTable. by rewrite Hnone.
  - intros Hempty. unfold buildTable.
    assert (tableLayout m = None) as ->; [|done].
    apply Hiff. intros sig series Hs. rewrite Hempty in Hs.
    by rewrite lookup_empty in Hs.
Qed.

(** X8. In the label mode [hide-filtered] with a filter [key=rest] (an
    exact value or, with [rest] starting with a tilde, a regular expression)
    the name column lists every label of the series but [key]; with a filter
    without an equals sign it lists every label. *)
Theorem hide_filtered_labels (m : model) (series : MetricSeries) :
  LabelMode (cfg m) = LabelModeHideFiltered →
  (∀ key rest, FilterLabel (cfg m) = key +:+ String "=" rest → hasByte "=" key = false →
     labelParts m series ≡ₚ labelPart <$> map_to_list (delete key (Labels series)))
  ∧ (hasByte "=" (FilterLabel (cfg m)) = false →
     labelParts m series = labelPart <$> map_to_list (Labels series)).
Proof.
  intros Hmode. unfold labelParts. rewrite Hmode. cbn [String.eqb].
  change (String.eqb LabelModeHideFiltered LabelModeHideFiltered) with true. cbv iota.
  split.
  - intros key rest Hfilter Hno. rewrite Hfilter.
    destruct (split_at_equals key rest Hno) as (Hidx & Hkey & _).
    unfold getFilteredLabelKeys. rewrite Hidx, Hkey.
    replace (String.eqb (key +:+ String "=" rest) "") with false
      by (destruct key; done).
    replace (negb (Z.of_nat (String.length key) =? -1)) with true
      by (symmetry; apply negb_true_iff, Z.eqb_neq; lia).
    apply fmap_Permutation. apply NoDup_Permutation.
    + apply NoDup_filter, NoDup_map_to_list.
    + apply NoDup_map_to_list.
    + intros [k v]. rewrite list_elem_of_filter, !elem_of_map_to_list.
      rewrite lookup_delete_Some. cbn [fst]. rewrite list_elem_of_singleton.
      split; intros [? ?]; split; congruence.
  - intros Hno. unfold getFilteredLabelKeys, strings_Index.
    rewrite (index_no_byte _ _ Hno).
    replace (negb (-1 =? -1)) with false by done.
    f_equal. destruct (String.eqb (FilterLabel (cfg m)) "");
      apply filter_all; intros kv Hin; apply not_elem_of_nil.
Qed.

End TableRows.

Lemma hide_filtered_labels_witness :
  labelParts hideFilteredModel prodSeries
  ≡ₚ labelPart <$> map_to_list (delete "env" (Labels prodSeries)).
Proof.
  apply (proj1 (hide_filtered_labels hideFilteredModel prodSeries eq_refl) "env" "prod");
    reflexivity.
Defined.

(** ** The status line ([truncateMessage]) *)

Lemma substring_split (s : string) (n : nat) :
  (n ≤ String.length s)%nat →
  ∃ dropped, s = substring 0 n s +:+ dropped
             ∧ String.length (substring 0 n s) = n.
Proof.
  revert n. induction s as [|a s IH]; intros [|n] Hn; cbn in Hn.
  - by exists "".
  - lia.
  - by exists (String a s).
  - destruct (IH n) as (dropped & Hs & Hlen); [lia|].
    exists dropped. cbn [substring String.length]. rewrite append_cons.
    split; [by rewrite <- Hs|by rewrite Hlen].
Qed.

(** X9. [truncateMessage] never returns more than [max maxLen 4] bytes; a
    message within that limit is returned as it is, and a longer one is cut
    to its first [limit - 3] bytes followed by three dots, which makes
    exactly [limit] bytes. *)
Theorem truncateMessage_spec (msg : string) (maxLen : Z) :
  Z.of_nat (String.length (truncateMessage msg maxLen)) ≤ Z.max maxLen 4
  ∧ (Z.of_nat (String.length msg) ≤ Z.max maxLen 4 → truncateMessage msg maxLen = msg)
  ∧ (Z.max maxLen 4 < Z.of_nat (String.length msg) →
     ∃ kept dropped,
       msg = kept +:+ dropped
       ∧ truncateMessage msg maxLen = kept +:+ "..."
       ∧ Z.of_nat (String.length kept) = Z.max maxLen 4 - 3
       ∧ Z.of_nat (String.length (truncateMessage msg maxLen)) = Z.max maxLen 4).
Proof.
  unfold truncateMessage.
  replace (if maxLen <? 4 then 4 else maxLen) with (Z.max maxLen 4)
    by (destruct (Z.ltb_spec maxLen 4); lia).
  pose proof (Z.le_max_r maxLen 4) as Hlimit.
  destruct (Z.leb_spec (Z.of_nat (String.length msg)) (Z.max maxLen 4)) as [Hshort|Hlong].
  - split; [done|]. split; [done|]. lia.
  - destruct (substring_split msg (Z.to_nat (Z.max maxLen 4 - 3))) as (dropped & Hmsg & Hlen);
      [lia|].
    unfold sliceTo.
    assert (Z.of_nat (String.length
              (substring 0 (Z.to_nat (Z.max maxLen 4 - 3)) msg +:+ "..."))
            = Z.max maxLen 4) as Htotal.
    { rewrite length_append, Hlen. cbn [String.length]. lia. }
    split; [lia|]. split; [lia|]. intros _.
    exists (substring 0 (Z.to_nat (Z.max maxLen 4 - 3)) msg), dropped.
    split; [done|]. split; [done|]. split; [|done]. rewrite Hlen. lia.
Qed.

(** ** The widths of the columns ([calculateColumnWidths]) *)

Section ColumnWidths.
Context {lg : Lipgloss}.

Lemma maxWidthStep_lower colIdx w row : w ≤ maxWidthStep colIdx w row.
Proof.
  unfold maxWidthStep. destruct (row !! colIdx) as [cell|]; [|done].
  destruct (Z.ltb_spec w (lipgloss_Width cell)); lia.
Qed.

Lemma maxWidthStep_cell colIdx w row cell :
  row !! colIdx = Some cell → lipgloss_Width cell ≤ maxWidthStep colIdx w row.
Proof.
  intros Hcell. unfold maxWidthStep. rewrite Hcell.
  destruct (Z.ltb_spec w (lipgloss_Width cell)); lia.
Qed.

Lemma maxWidthStep_attained colIdx w row :
  maxWidthStep colIdx w row = w
  ∨ ∃ cell, row !! colIdx = Some cell ∧ lipgloss_Width cell = maxWidthStep colIdx w row.
Proof.
  unfold maxWidthStep. destruct (row !! colIdx) as [cell|]; [|by left].
  destruct (Z.ltb_spec w (lipgloss_Width cell)); [right; by exists cell|by left].
Qed.

Lemma maxWidthLoop_lower colIdx rows w : w ≤ foldl (maxWidthStep colIdx) w rows.
Proof.
  revert w. induction rows as [|row rows IH]; intros w; [done|].
  cbn [foldl]. pose proof (maxWidthStep_lower colIdx w row).
  specialize (IH (maxWidthStep colIdx w row)). lia.
Qed.

Lemma maxWidthLoop_cell colIdx rows w row cell :
  row ∈ rows → row !! colIdx = Some cell →
  lipgloss_Width cell ≤ foldl (maxWidthStep colIdx) w rows.
Proof.
  revert w. induction rows as [|row' rows IH]; intros w Hin Hcell.
  - by apply elem_of_nil in Hin.
  - cbn [foldl]. apply elem_of_cons in Hin as [->|Hin].
    + pose proof (maxWidthStep_cell colIdx w row' cell Hcell).
      pose proof (maxWidthLoop_lower colIdx rows (maxWidthStep colIdx w row')). lia.
    + by apply IH.
Qed.

Lemma maxWidthLoop_attained colIdx rows w :
  foldl (maxWidthStep colIdx) w rows = w
  ∨ ∃ row cell, row ∈ rows ∧ row !! colIdx = Some cell
                ∧ lipgloss_Width cell = foldl (maxWidthStep colIdx) w rows.
Proof.
  revert w. induction rows as [|row rows IH]; intros w; [by left|].
  cbn [foldl]. destruct (IH (maxWidthStep colIdx w row)) as [Heq|(row' & cell & Hin & Hcell & Hw)].
  - rewrite Heq. destruct (maxWidthStep_attained colIdx w row) as [Hsame|(cell & Hcell & Hw)].
    + by left.
    + right. exists row, cell. split; [left|done].
  - right. exists row', cell. split; [by right|done].
Qed.

Lemma maxCols_lower (rows : list (list string)) (n : nat) :
  (n ≤ foldl (λ maxCols row, if (maxCols <? length row)%nat then length row else maxCols)
         n rows)%nat.
Proof.
  revert n. induction rows as [|row rows IH]; intros n; [done|].
  cbn [foldl]. destruct (Nat.ltb_spec n (length row)).
  - specialize (IH (length row)). lia.
  - apply IH.
Qed.

Lemma maxCols_row (rows : list (list string)) (n : nat) (row : list string) :
  row ∈ rows →
  (length row
   ≤ foldl (λ maxCols row, if (maxCols <? length row)%nat then length row else maxCols)
       n rows)%nat.
Proof.
  revert n. induction rows as [|row' rows IH]; intros n Hin.
  - by apply elem_of_nil in Hin.
  - cbn [foldl]. apply elem_of_cons in Hin as [->|Hin]; [|by apply IH].
    destruct (Nat.ltb_spec n (length row')).
    + apply maxCols_lower.
    + pose proof (maxCols_lower rows n). lia.
Qed.

(** X10. Every cell of the headers and of the rows has a column, and the
    width of the column is at least the printed width of the cell; the width
    of a column is never negative, and it is zero or the printed width of one
    of the cells of that column. *)
Theorem column_widths_cover (headers : list string) (rows : list (list string)) :
  (∀ row colIdx cell, row ∈ headers :: rows → row !! colIdx = Some cell →
     ∃ w, calculateColumnWidths headers rows !! colIdx = Some w
          ∧ lipgloss_Width cell ≤ w)
  ∧ (∀ colIdx w, calculateColumnWidths headers rows !! colIdx = Some w →
       0 ≤ w
       ∧ (w = 0 ∨ ∃ row cell, row ∈ headers :: rows ∧ row !! colIdx = Some cell
                              ∧ lipgloss_Width cell = w)).
Proof.
  unfold calculateColumnWidths. split.
  - intros row colIdx cell Hin Hcell.
    assert ((length rows =? 0)%nat && (length headers =? 0)%nat = false) as ->.
    { apply elem_of_cons in Hin as [->|Hin].
      - destruct headers; [by rewrite lookup_nil in Hcell|]. cbn. by rewrite andb_false_r.
      - destruct rows; [by apply elem_of_nil in Hin|done]. }
    assert (colIdx < length row)%nat as Hlt by (by apply lookup_lt_Some in Hcell).
    eexists. split.
    + rewrite list_lookup_fmap, lookup_seq_lt; [done|].
      apply elem_of_cons in Hin as [->|Hin].
      * pose proof (maxCols_lower rows (length headers)); lia.
      * pose proof (maxCols_row rows (length headers) row Hin); lia.
    + cbn. apply elem_of_cons in Hin as [->|Hin].
      * pose proof (maxWidthStep_cell colIdx 0 headers cell Hcell).
        pose proof (maxWidthLoop_lower colIdx rows (maxWidthStep colIdx 0 headers)). lia.
      * by apply (maxWidthLoop_cell colIdx rows _ row).
  - intros colIdx w Hw.
    destruct ((length rows =? 0)%nat && (length headers =? 0)%nat);
      [by rewrite lookup_nil in Hw|].
    rewrite list_lookup_fmap in Hw.
    destruct (seq 0 _ !! colIdx) as [j|] eqn:Hj; [|done].
    apply lookup_seq in Hj as [-> _]. cbn in Hw. injection Hw as <-.
    split.
    + pose proof (maxWidthStep_lower colIdx 0 headers).
      pose proof (maxWidthLoop_lower colIdx rows (maxWidthStep colIdx 0 headers)). lia.
    + destruct (maxWidthLoop_attained colIdx rows (maxWidthStep colIdx 0 headers))
        as [Heq|(row & cell & Hin & Hcell & Hwidth)].
      * rewrite Heq.
        destruct (maxWidthStep_attained colIdx 0 headers) as [Hzero|(cell & Hcell & Hwidth)].
        -- by left.
        -- right. exists headers, cell. split; [left|done].
      * right. exists row, cell. split; [by right|done].
Qed.

End ColumnWidths.

(** ** The event handler over a run ([Update]) *)

Section UpdateFrame.
Context {tables : UnicodeTables} {mem : GoMemory} {re : Regexp} {lg : Lipgloss}
  {vp : Viewport} {rt : GoRuntime}.

Lemma refreshViewport_fields (m : model) :
  cfg (refreshViewport m) = cfg m
  ∧ store (refreshViewport m) = store m
  ∧ fetcher (refreshViewport m) = fetcher m
  ∧ err (refreshViewport m) = err m
  ∧ isPaused (refreshViewport m) = isPaused m.
Proof. unfold refreshViewport. by destruct (viewportReady m). Qed.

(** The fields of the model a message leaves alone, and what it does to the
    store. *)
Lemma Update_fields (now : Z) (m m' : model) (msg : Msg) (cmd : option Cmd) :
  Update now m msg = Some (m', cmd) →
  fetcher m' = fetcher m ∧ err m' = err m
  ∧ (cfg m' = cfg m
     ∨ (msg = KeyMsg "l" ∧ cfg m' = setLabelMode (cfg m) (nextLabelMode (cfg m)))
     ∨ (msg = KeyMsg "d" ∧ cfg m' = setDeltaMode (cfg m) (nextDeltaMode (cfg m))))
  ∧ (isPaused m' = isPaused m ∨ msg = KeyMsg "p")
  ∧ (store m' = store m
     ∨ ∃ families, msg = fetchResult families ∧ isPaused m = false
                   ∧ UpdateFromFamilies (store m) families = Some (store m')).
Proof.
  destruct msg as [key|t|families|e|w h|]; cbn [Update].
  - destruct (String.eqb key "q" || String.eqb key "ctrl+c");
      [intros [= <- <-]; intuition congruence|].
    destruct (String.eqb key "?"); [intros [= <- <-]; cbn; intuition congruence|].
    destruct (String.eqb_spec key "l") as [->|_].
    { intros [= <- <-].
      destruct (refreshViewport_fields (setCfg m (setLabelMode (cfg m) (nextLabelMode (cfg m)))))
        as (-> & -> & -> & -> & ->). cbn. intuition congruence. }
    destruct (String.eqb_spec key "d") as [->|_].
    { intros [= <- <-].
      destruct (refreshViewport_fields (setCfg m (setDeltaMode (cfg m) (nextDeltaMode (cfg m)))))
        as (-> & -> & -> & -> & ->). cbn. intuition congruence. }
    destruct (String.eqb_spec key "p") as [->|_]; [intros [= <- <-]; cbn; intuition congruence|].
    destruct (viewportReady m); [|intros [= <- <-]; intuition congruence].
    destruct (viewport_Update (viewport m) key) as [v c]. intros [= <- <-]. cbn. intuition congruence.
  - destruct (isPaused m) eqn:Hpaused; intros [= <- <-]; intuition congruence.
  - destruct (isPaused m) eqn:Hpaused; [intros [= <- <-]; intuition congruence|].
    destruct (UpdateFromFamilies (store m) families) as [updated|] eqn:Hupd; [|done].
    intros [= <- <-].
    match goal with |- context [refreshViewport ?x] =>
      destruct (refreshViewport_fields x) as (-> & -> & -> & -> & ->) end.
    cbn. split; [done|]. split; [done|]. split; [by left|]. split; [by left|].
    right. by exists families.
  - intros [= <- <-]. cbn. intuition congruence.
  - intros [= <- <-].
    match goal with |- context [refreshViewport ?x] =>
      destruct (refreshViewport_fields x) as (-> & -> & -> & -> & ->) end.
    cbn. intuition congruence.
  - intros [= <- <-]. intuition congruence.
Qed.

Lemma Update_None (now : Z) (m : model) (msg : Msg) :
  Update now m msg = None
  ↔ ∃ families, msg = fetchResult families ∧ isPaused m = false
                ∧ UpdateFromFamilies (store m) families = None.
Proof.
  split.
  - destruct msg as [key|t|families|e|w h|]; cbn [Update]; try done.
    + by destruct (isPaused m).
    + destruct (isPaused m); [done|].
      destruct (UpdateFromFamilies (store m) families) eqn:Hupd; [done|].
      intros _. by exists families.
  - intros (families & -> & Hpaused & Hupd). cbn [Update]. by rewrite Hpaused, Hupd.
Qed.

(** X11. A call of [Update] panics only on a fetch result that arrives
    while the display is not paused and on which the store panics ([make]
    refuses its capacity and a new series would be created). Whenever it
    returns, the store of the new model is the old one, or, for such a fetch
    result, the one [UpdateFromFamilies] makes of it; the fetcher and the
    fatal error are never changed and the pause only by the key [p]. *)
Theorem update_store_frame (now : Z) (m : model) (msg : Msg) :
  (Update now m msg = None
   ↔ ∃ families, msg = fetchResult families ∧ isPaused m = false
       ∧ makeReturns (HistoryLimit (store m)) = false
       ∧ ∃ ob, ob ∈ snapshotObservations families
               ∧ Metrics (store m) !! obs_sig ob = None)
  ∧ ∀ m' cmd, Update now m msg = Some (m', cmd) →
      fetcher m' = fetcher m ∧ err m' = err m
      ∧ (isPaused m' = isPaused m ∨ msg = KeyMsg "p")
      ∧ (store m' = store m
         ∨ ∃ families, msg = fetchResult families ∧ isPaused m = false
                       ∧ UpdateFromFamilies (store m) families = Some (store m')).
Proof.
  split.
  - rewrite Update_None. split.
    + intros (families & Hmsg & Hpaused & Hupd). exists families.
      apply UpdateFromFamilies_None, observations_panic in Hupd. tauto.
    + intros (families & Hmsg & Hpaused & Hpanic). exists families.
      split; [done|]. split; [done|].
      by apply UpdateFromFamilies_None, observations_panic.
  - intros m' cmd Hupd. apply Update_fields in Hupd. tauto.
Qed.

Lemma UpdateFromFamilies_negative (s s' : Store) (families : list dto.MetricFamily) :
  HistoryLimit s < 0 → Metrics s = ∅ →
  UpdateFromFamilies s families = Some s' → Metrics s' = ∅.
Proof.
  intros Hneg Hempty Hupd.
  assert (snapshotObservations families = []) as Hobs.
  { destruct (snapshotObservations families) as [|ob obs] eqn:Hobs; [done|].
    assert (UpdateFromFamilies s families = None) as Hnone; [|congruence].
    apply UpdateFromFamilies_None, observations_panic. cbn [fst].
    split; [by apply makeReturns_negative|].
    exists ob. rewrite Hobs. split; [left|]. by rewrite Hempty, lookup_empty. }
  apply UpdateFromFamilies_Some in Hupd. subst s'.
  apply map_eq. intros sig.
  rewrite cycleStore_lookup, Hobs, Hempty, !lookup_empty. done.
Qed.

Lemma nextLabelMode_valid (c : Config) : isLabelMode (nextLabelMode c) = true.
Proof. unfold nextLabelMode. repeat case_match; reflexivity. Qed.

Lemma nextDeltaMode_valid (c : Config) : isDeltaMode (nextDeltaMode c) = true.
Proof. unfold nextDeltaMode. repeat case_match; reflexivity. Qed.

Lemma main_invariant (parsed : Config) (m0 : model) :
  main parsed = Proceed m0 → modelInvariant m0 ∧ cfg m0 = parsed.
Proof.
  unfold main, parseFlags.
  fold (isLabelMode (LabelMode parsed)). fold (isDeltaMode (DeltaMode parsed)).
  destruct (isLabelMode (LabelMode parsed)) eqn:Hlabel; cbn [negb]; [|done].
  destruct (isDeltaMode (DeltaMode parsed)) eqn:Hdelta; cbn [negb]; [|done].
  destruct (String.eqb (URL parsed) ""); [done|].
  destruct (regexp_Compile (FilterMetric parsed)); cbn [negb]; [|done].
  destruct (regexp_Compile (FilterLabel parsed)); cbn [negb]; [|done].
  intros [= <-]. split; [|done]. unfold modelInvariant.
  cbn [store cfg err NewStore Metrics HistoryLimit].
  split; [done|]. split; [|done].
  intros sig series Hs. cbn [NewStore Metrics] in Hs. by rewrite lookup_empty in Hs.
Qed.

Lemma Update_invariant (now : Z) (m m' : model) (msg : Msg) (cmd : option Cmd) :
  modelInvariant m → Update now m msg = Some (m', cmd) →
  modelInvariant m' ∧ sameSettings m m'.
Proof.
  intros (Hlimit & Hbounded & Hneg & Hlabel & Hdelta & Herr) Hupd.
  apply Update_fields in Hupd as (Hfetcher & Herr' & Hcfg & _ & Hstore).
  assert (History (cfg m') = History (cfg m)
          ∧ URL (cfg m') = URL (cfg m) ∧ Interval (cfg m') = Interval (cfg m)
          ∧ FilterMetric (cfg m') = FilterMetric (cfg m)
          ∧ FilterLabel (cfg m') = FilterLabel (cfg m)
          ∧ isLabelMode (LabelMode (cfg m')) = true
          ∧ isDeltaMode (DeltaMode (cfg m')) = true)
    as (Hhistory & Hurl & Hinterval & Hfm & Hfl & Hlabel' & Hdelta').
  { destruct Hcfg as [->|[[_ ->]|[_ ->]]]; cbn; repeat split;
      first [done | apply nextLabelMode_valid | apply nextDeltaMode_valid]. }
  split; [|by repeat split].
  unfold modelInvariant. rewrite Hhistory, Herr'.
  destruct Hstore as [->|(families & _ & _ & Hrun)]; [by repeat split|].
  pose proof (UpdateFromFamilies_Some _ _ _ Hrun) as Hcycle.
  assert (HistoryLimit (store m') = History (cfg m)) as Hlimit'
    by (by rewrite Hcycle, cycleStore_limit).
  split; [done|].
  destruct (Z.lt_ge_cases (History (cfg m)) 0) as [Hlt|Hge].
  - assert (Metrics (store m') = ∅) as Hempty.
    { apply (UpdateFromFamilies_negative (store m) (store m') families); [lia|auto|done]. }
    split; [|by repeat split].
    intros sig series Hs. by rewrite Hempty, lookup_empty in Hs.
  - split; [|split; [lia|by repeat split]].
    rewrite Hcycle. apply cycleStore_bounded; [lia|done].
Qed.

(** X12. In every model reached from the start of the program by any
    sequence of messages, the store has the capacity given by the history
    flag and no series holds more samples than that, the label and delta
    modes are among the three the flags accept, no fatal error is set, and
    the endpoint, the interval, the history, the two filters and the fetcher
    are those of the start. *)
Theorem run_invariant (parsed : Config) (m0 m' : model) (events : list (Z * Msg)) :
  main parsed = Proceed m0 →
  runUpdates m0 events = Some m' →
  modelInvariant m' ∧ sameSettings m0 m' ∧ cfg m0 = parsed.
Proof.
  intros Hmain Hrun. apply main_invariant in Hmain as [Hinv Hcfg].
  split; [|split; [|done]]; clear Hcfg parsed.
  - revert m0 Hinv Hrun. induction events as [|[now msg] events IH]; intros m0 Hinv Hrun.
    + cbn in Hrun. by injection Hrun as <-.
    + unfold runUpdates in Hrun. cbn [foldlOpt fst snd] in Hrun.
      destruct (Update now m0 msg) as [[m1 cmd]|] eqn:Hupd; [|done].
      cbn [fmap option_fmap option_map fst] in Hrun.
      apply (IH m1); [|done]. by apply (Update_invariant now m0 m1 msg cmd).
  - revert m0 Hinv Hrun. induction events as [|[now msg] events IH]; intros m0 Hinv Hrun.
    + cbn in Hrun. injection Hrun as <-. by repeat split.
    + unfold runUpdates in Hrun. cbn [foldlOpt fst snd] in Hrun.
      destruct (Update now m0 msg) as [[m1 cmd]|] eqn:Hupd; [|done].
      cbn [fmap option_fmap option_map fst] in Hrun.
      destruct (Update_invariant now m0 m1 msg cmd Hinv Hupd)
        as (Hinv1 & Hu & Hi & Hh & Hfm & Hfl & Hf).
      destruct (IH m1 Hinv1 Hrun) as (Hu' & Hi' & Hh' & Hfm' & Hfl' & Hf').
      repeat split; congruence.
Qed.

(** X13. While the display is paused the store is frozen: whatever
    messages arrive, as long as none is the key [p], no call panics, the
    display stays paused and the store stays as it was; fetch results that
    arrive are dropped. *)
Theorem paused_freezes_store (m : model) (events : list (Z * Msg)) :
  isPaused m = true →
  Forall (λ ev, ev.2 ≠ KeyMsg "p") events →
  ∃ m', runUpdates m events = Some m' ∧ isPaused m' = true ∧ store m' = store m.
Proof.
  intros Hpaused Hkeys. revert m Hpaused.
  induction Hkeys as [|[now msg] events Hkey _ IH]; intros m Hpaused.
  - by exists m.
  - unfold runUpdates. cbn [foldlOpt fst snd].
    destruct (Update now m msg) as [[m1 cmd]|] eqn:Hupd.
    + cbn [fmap option_fmap option_map fst].
      apply Update_fields in Hupd as (_ & _ & _ & Hp & Hstore).
      destruct (IH m1) as (m' & Hrun & Hp' & Hstore').
      { destruct Hp as [->|Hp]; [done|]. by destruct Hkey. }
      exists m'. split; [done|]. split; [done|]. rewrite Hstore'.
      destruct Hstore as [->|(families & _ & Hnot & _)]; [done|congruence].
    + apply Update_None in Hupd as (families & _ & Hnot & _). congruence.
Qed.

End UpdateFrame.

Lemma run_invariant_witness :
  ∃ m0 m' : plainModel,
    plainMain (exampleConfig 3 "next") = Proceed m0
    ∧ runUpdates (tables := asciiTables) (mem := memory64) (re := wordRegexp) (rt := plainRuntime) m0
        [(1, fetchResult [family "up" [gaugeMetric 1]]); (2, KeyMsg "d")] = Some m'
    ∧ modelInvariant m'.
Proof.
  destruct (plainMain (exampleConfig 3 "next")) as [message|m0] eqn:Hmain;
    [vm_compute in Hmain; discriminate|].
  destruct (runUpdates (tables := asciiTables) (mem := memory64) (re := wordRegexp) (rt := plainRuntime) m0
              [(1, fetchResult [family "up" [gaugeMetric 1]]); (2, KeyMsg "d")])
    as [m'|] eqn:Hrun.
  - exists m0, m'. split; [done|]. split; [done|].
    exact (proj1 (run_invariant (tables := asciiTables) (mem := memory64) (re := wordRegexp) (rt := plainRuntime)
                    _ _ _ _ Hmain Hrun)).
  - exfalso. vm_compute in Hmain. injection Hmain as <-.
    vm_compute in Hrun. discriminate.
Defined.

Lemma paused_freezes_store_witness :
  ∃ m' : plainModel,
    runUpdates (tables := asciiTables) (mem := memory64) (re := wordRegexp) (rt := plainRuntime) pausedModel
      [(1, fetchResult [family "up" [gaugeMetric 1]]); (2, tickMsg 2)] = Some m'
    ∧ isPaused m' = true ∧ store m' = store pausedModel.
Proof.
  apply (paused_freezes_store (tables := asciiTables) (mem := memory64) (re := wordRegexp) (rt := plainRuntime)
           pausedModel).
  - reflexivity.
  - repeat constructor; discriminate.
Defined.

(** ** The keys [d] and [l] *)

Section ModeKeys.
Context {tables : UnicodeTables} {mem : GoMemory} {re : Regexp} {lg : Lipgloss}
  {vp : Viewport} {rt : GoRuntime}.

Lemma Update_key_d (now : Z) (m : model) :
  ∃ m', Update now m (KeyMsg "d") = Some (m', None)
        ∧ cfg m' = setDeltaMode (cfg m) (nextDeltaMode (cfg m)).
Proof.
  eexists. split; [reflexivity|]. apply refreshViewport_fields.
Qed.

Lemma Update_key_l (now : Z) (m : model) :
  ∃ m', Update now m (KeyMsg "l") = Some (m', None)
        ∧ cfg m' = setLabelMode (cfg m) (nextLabelMode (cfg m)).
Proof.
  eexists. split; [reflexivity|]. apply refreshViewport_fields.
Qed.

Lemma isDeltaMode_cases (mode : string) :
  isDeltaMode mode = true →
  mode = DeltaModeOff ∨ mode = DeltaModeNext ∨ mode = DeltaModeView.
Proof.
  unfold isDeltaMode. rewrite !orb_true_iff, !String.eqb_eq. tauto.
Qed.

Lemma isLabelMode_cases (mode : string) :
  isLabelMode mode = true →
  mode = LabelModeShowAll ∨ mode = LabelModeHideFiltered ∨ mode = LabelModeHideAll.
Proof.
  unfold isLabelMode. rewrite !orb_true_iff, !String.eqb_eq. tauto.
Qed.

(** X14. The key [d] walks through the three delta modes: pressed three
    times it never issues a command, shows three different modes and leaves
    the configuration as it was. *)
Theorem delta_key_cycles (t1 t2 t3 : Z) (m : model) :
  isDeltaMode (DeltaMode (cfg m)) = true →
  ∃ m1 m2 m3,
    Update t1 m (KeyMsg "d") = Some (m1, None)
    ∧ Update t2 m1 (KeyMsg "d") = Some (m2, None)
    ∧ Update t3 m2 (KeyMsg "d") = Some (m3, None)
    ∧ cfg m3 = cfg m
    ∧ DeltaMode (cfg m1) ≠ DeltaMode (cfg m)
    ∧ DeltaMode (cfg m2) ≠ DeltaMode (cfg m1)
    ∧ DeltaMode (cfg m) ≠ DeltaMode (cfg m2).
Proof.
  intros Hmode.
  destruct (Update_key_d t1 m) as (m1 & H1 & Hc1).
  destruct (Update_key_d t2 m1) as (m2 & H2 & Hc2).
  destruct (Update_key_d t3 m2) as (m3 & H3 & Hc3).
  exists m1, m2, m3. split; [done|]. split; [done|]. split; [done|].
  rewrite Hc3, Hc2, Hc1. revert Hmode. generalize (cfg m).
  intros [u i h lm fm fl dm] Hmode. cbn [DeltaMode] in Hmode.
  destruct (isDeltaMode_cases dm Hmode) as [->|[->| ->]]; vm_compute; by repeat split.
Qed.

(** X15. The key [l] with a label filter set walks through the three
    label modes and is back at the start after three presses. Without a
    label filter it never enters the mode [hide-filtered]: it switches
    between showing and hiding all labels, so from the second press on two
    presses bring the configuration back. *)
Theorem label_key_cycles (t1 t2 t3 : Z) (m : model) :
  isLabelMode (LabelMode (cfg m)) = true →
  ∃ m1 m2 m3,
    Update t1 m (KeyMsg "l") = Some (m1, None)
    ∧ Update t2 m1 (KeyMsg "l") = Some (m2, None)
    ∧ Update t3 m2 (KeyMsg "l") = Some (m3, None)
    ∧ (FilterLabel (cfg m) ≠ "" →
       cfg m3 = cfg m
       ∧ LabelMode (cfg m1) ≠ LabelMode (cfg m)
       ∧ LabelMode (cfg m2) ≠ LabelMode (cfg m1)
       ∧ LabelMode (cfg m) ≠ LabelMode (cfg m2))
    ∧ (FilterLabel (cfg m) = "" →
       LabelMode (cfg m1) ≠ LabelModeHideFiltered
       ∧ LabelMode (cfg m2) ≠ LabelModeHideFiltered
       ∧ LabelMode (cfg m2) ≠ LabelMode (cfg m1)
       ∧ cfg m3 = cfg m1).
Proof.
  intros Hmode.
  destruct (Update_key_l t1 m) as (m1 & H1 & Hc1).
  destruct (Update_key_l t2 m1) as (m2 & H2 & Hc2).
  destruct (Update_key_l t3 m2) as (m3 & H3 & Hc3).
  exists m1, m2, m3. split; [done|]. split; [done|]. split; [done|].
  rewrite Hc3, Hc2, Hc1. revert Hmode. generalize (cfg m).
  intros [u i h lm fm fl dm] Hmode. cbn [LabelMode FilterLabel] in *.
  split.
  - intros Hfilter. apply String.eqb_neq in Hfilter.
    unfold nextLabelMode, setLabelMode. cbn [LabelMode FilterLabel].
    rewrite Hfilter.
    destruct (isLabelMode_cases lm Hmode) as [->|[->| ->]]; cbn; by repeat split.
  - intros ->.
    destruct (isLabelMode_cases lm Hmode) as [->|[->| ->]]; vm_compute; by repeat split.
Qed.

End ModeKeys.

Lemma delta_key_cycles_witness :
  ∃ m1 m2 m3 : plainModel,
    plainUpdate 1 requestsModel (KeyMsg "d") = Some (m1, None)
    ∧ plainUpdate 2 m1 (KeyMsg "d") = Some (m2, None)
    ∧ plainUpdate 3 m2 (KeyMsg "d") = Some (m3, None)
    ∧ cfg m3 = cfg requestsModel.
Proof.
  destruct (delta_key_cycles (tables := asciiTables) (mem := memory64) (re := wordRegexp) (rt := plainRuntime)
              1 2 3 requestsModel eq_refl)
    as (m1 & m2 & m3 & H1 & H2 & H3 & Hcfg & _).
  exists m1, m2, m3. split; [exact H1|]. split; [exact H2|]. split; [exact H3|exact Hcfg].
Defined.

Lemma label_key_cycles_witness :
  ∃ m1 m2 m3 : plainModel,
    plainUpdate 1 hideFilteredModel (KeyMsg "l") = Some (m1, None)
    ∧ plainUpdate 2 m1 (KeyMsg "l") = Some (m2, None)
    ∧ plainUpdate 3 m2 (KeyMsg "l") = Some (m3, None)
    ∧ cfg m3 = cfg hideFilteredModel.
Proof.
  destruct (label_key_cycles (tables := asciiTables) (mem := memory64) (re := wordRegexp) (rt := plainRuntime)
              1 2 3 hideFilteredModel eq_refl)
    as (m1 & m2 & m3 & H1 & H2 & H3 & Hcycle & _).
  exists m1, m2, m3. split; [exact H1|]. split; [exact H2|]. split; [exact H3|].
  apply Hcycle. discriminate.
Defined.

(** ** The labels of a metric *)

Lemma insertLabels_lookup (labels : list dto.LabelPair) (acc : gmap string string)
    (name : string) :
  foldl (λ labels label,
           <[dto.LabelPair_GetName label := dto.LabelPair_GetValue label]> labels)
        acc labels !! name
  = match last (filter (λ label, dto.LabelPair_GetName label = name) labels) with
    | Some label => Some (dto.LabelPair_GetValue label)
    | None => acc !! name
    end.
Proof.
  revert acc. induction labels as [|label labels IH]; intros acc; [done|].
  cbn [foldl]. rewrite IH, filter_cons.
  destruct (decide (dto.LabelPair_GetName label = name)) as [Heq|Hne].
  - destruct (filter _ labels) as [|label' rest] eqn:Hf.
    + cbn. by rewrite <- Heq, lookup_insert_eq.
    + rewrite last_cons_cons. destruct (last (label' :: rest)) eqn:Hl; [done|].
      by apply last_None in Hl.
  - destruct (last (filter _ labels)); [done|]. by rewrite lookup_insert_ne.
Qed.

(** X16. The label map built for a metric holds, for every label name,
    the value of the last label pair of the metric with that name, and
    nothing for a name the metric does not carry. *)
Theorem metricLabels_last_wins (metric : dto.Metric) (name : string) :
  metricLabels metric !! name
  = dto.LabelPair_GetValue
      <$> last (filter (λ label, dto.LabelPair_GetName label = name)
                       (dto.GetLabel metric)).
Proof.
  unfold metricLabels. rewrite insertLabels_lookup, lookup_empty.
  by destruct (last _).
Qed.

(** ** The text of a value ([formatFloat]) *)

Lemma TrimRight_snoc (s : string) (a c : ascii) :
  TrimRight (s +:+ String a "") c
  = if Ascii.eqb a c then TrimRight s c else s +:+ String a "".
Proof.
  induction s as [|b s IH].
  - rewrite append_nil_l. cbn. by destruct (Ascii.eqb a c).
  - rewrite append_cons. cbn [TrimRight]. rewrite IH.
    destruct (Ascii.eqb a c); [done|].
    destruct s; reflexivity.
Qed.

Lemma TrimRight_no_byte (s : string) (c : ascii) :
  hasByte c s = false → TrimRight s c = s.
Proof.
  induction s as [|a s IH]; intros Hno; [done|].
  cbn in Hno. apply orb_false_iff in Hno as [Hac Hno].
  cbn [TrimRight]. rewrite (IH Hno). destruct s; [by rewrite Hac|done].
Qed.

Lemma append_assoc (s1 s2 s3 : string) : (s1 +:+ s2) +:+ s3 = s1 +:+ (s2 +:+ s3).
Proof.
  induction s1 as [|a s1 IH]; [done|]. rewrite !append_cons. by rewrite IH.
Qed.

Section FormatFloat.
Context {rt : GoRuntime}.

(** X17. When the two-decimal text of a value is a part without a dot, a
    dot and two digits, [formatFloat] drops the decimals that are zero from
    the right and the dot with them, and leaves the part before the dot as
    it is, zeros included. *)
Theorem formatFloat_trims (val : float) (whole : string) (d1 d2 : ascii) :
  Sprintf_2f val = whole +:+ String "." (String d1 (String d2 "")) →
  hasByte "." whole = false → d1 ≠ "."%char → d2 ≠ "."%char →
  formatFloat val
  = if Ascii.eqb d2 "0" then
      if Ascii.eqb d1 "0" then whole else whole +:+ String "." (String d1 "")
    else whole +:+ String "." (String d1 (String d2 "")).
Proof.
  intros Htext Hwhole Hd1 Hd2. unfold formatFloat. rewrite Htext.
  apply Ascii.eqb_neq in Hd1, Hd2.
  replace (whole +:+ String "." (String d1 (String d2 "")))
    with (((whole +:+ String "." "") +:+ String d1 "") +:+ String d2 "")
    by (by rewrite !append_assoc).
  rewrite TrimRight_snoc.
  destruct (Ascii.eqb d2 "0") eqn:Hz2.
  - rewrite TrimRight_snoc.
    destruct (Ascii.eqb d1 "0") eqn:Hz1.
    + rewrite TrimRight_snoc. cbn [Ascii.eqb Bool.eqb andb].
      rewrite TrimRight_snoc. cbn [Ascii.eqb Bool.eqb andb].
      by apply TrimRight_no_byte.
    + rewrite TrimRight_snoc, Hd1. by rewrite !append_assoc.
  - rewrite TrimRight_snoc, Hd2. by rewrite !append_assoc.
Qed.

End FormatFloat.
Lemma formatFloat_trims_witness : formatFloat (rt := plainRuntime) 4.5%float = "4.5".
Proof.
  assert (Sprintf_2f (GoRuntime := plainRuntime) 4.5%float
          = "4" +:+ String "." (String "5" (String "0" ""))) as Htext
    by (vm_compute; reflexivity).
  assert ("5"%char ≠ "."%char) as Hd1 by discriminate.
  assert ("0"%char ≠ "."%char) as Hd2 by discriminate.
  exact (formatFloat_trims (rt := plainRuntime) 4.5%float "4" "5" "0" Htext eq_refl Hd1 Hd2).
Defined.

(** ** The cells of a row ([buildTableRows]) *)

Section RowCells.
Context {tables : UnicodeTables} {mem : GoMemory} {re : Regexp} {lg : Lipgloss}
  {vp : Viewport} {rt : GoRuntime}.

Lemma valueCell_from_right (m : model) (vals : list float) (n : Z) (j : nat) :
  Z.of_nat j < n →
  match reverse vals !! j with
  | None => valueCell m vals n (n - 1 - Z.of_nat j) = ""
  | Some v =>
    if is_nan v then valueCell m vals n (n - 1 - Z.of_nat j) = "."
    else DeltaMode (cfg m) = DeltaModeOff →
         valueCell m vals n (n - 1 - Z.of_nat j)
         = if (j =? 0)%nat then Style_Render (currentValueStyle m) (formatFloat v)
           else formatFloat v
  end.
Proof.
  intros Hj. unfold valueCell.
  replace (n - 1 - (n - 1 - Z.of_nat j)) with (Z.of_nat j) by lia.
  destruct (reverse vals !! j) as [v|] eqn:Hv.
  - apply reverse_lookup_Some in Hv as [Hv Hlt].
    replace ((0 <=? Z.of_nat (length vals) - 1 - Z.of_nat j)
             && (Z.of_nat (length vals) - 1 - Z.of_nat j <? Z.of_nat (length vals)))
      with true by (symmetry; apply andb_true_iff; split; [apply Z.leb_le|apply Z.ltb_lt]; lia).
    replace (Z.to_nat (Z.of_nat (length vals) - 1 - Z.of_nat j))
      with (length vals - S j)%nat by lia.
    rewrite (list_lookup_total_correct _ _ _ Hv).
    destruct (is_nan v); [done|]. intros ->.
    cbn [String.eqb Ascii.eqb Bool.eqb DeltaModeOff DeltaModeNext DeltaModeView].
    change (String.eqb DeltaModeOff DeltaModeNext) with false.
    change (String.eqb DeltaModeOff DeltaModeView) with false. cbv iota.
    replace (n - 1 - Z.of_nat j =? n - 1) with (j =? 0)%nat; [done|].
    destruct j; cbn [Nat.eqb]; symmetry; [apply Z.eqb_eq|apply Z.eqb_neq]; lia.
  - apply lookup_ge_None in Hv. rewrite length_reverse in Hv.
    replace ((0 <=? Z.of_nat (length vals) - 1 - Z.of_nat j)
             && (Z.of_nat (length vals) - 1 - Z.of_nat j <? Z.of_nat (length vals)))
      with false; [done|].
    symmetry. apply andb_false_iff. left. apply Z.leb_gt. lia.
Qed.

(** X18. A row has the name and one cell for each of the [max History 1]
    value columns, and the cells are aligned to the right: the cell [j]
    columns left of the last one shows the sample [j] places before the
    newest one of the projected history. It is empty when the history is
    not that long and a dot when that sample is missing; with the delta mode
    off it is the formatted sample, styled in the last column only. *)
Theorem row_alignment (m : model) (series : MetricSeries) (j : nat) :
  Z.of_nat j < clampCols (History (cfg m)) →
  length (buildTableRow m series) = S (Z.to_nat (clampCols (History (cfg m))))
  ∧ ∃ cell,
      buildTableRow m series !! (Z.to_nat (clampCols (History (cfg m))) - j)%nat = Some cell
      ∧ match reverse (ValuesWithDeltas series (DeltaMode (cfg m))) !! j with
        | None => cell = ""
        | Some v =>
          if is_nan v then cell = "."
          else DeltaMode (cfg m) = DeltaModeOff →
               cell = if (j =? 0)%nat
                      then Style_Render (currentValueStyle m) (formatFloat v)
                      else formatFloat v
        end.
Proof.
  intros Hj. unfold buildTableRow.
  pose proof (clampCols_lower (History (cfg m))) as Hn.
  split.
  - cbn [length]. rewrite length_fmap, length_seqZ. done.
  - exists (valueCell m (ValuesWithDeltas series (DeltaMode (cfg m)))
              (clampCols (History (cfg m)))
              (clampCols (History (cfg m)) - 1 - Z.of_nat j)).
    split; [|by apply valueCell_from_right].
    replace (Z.to_nat (clampCols (History (cfg m))) - j)%nat
      with (S (Z.to_nat (clampCols (History (cfg m))) - 1 - j)) by lia.
    rewrite lookup_cons. cbv beta iota.
    rewrite list_lookup_fmap, lookup_seqZ_lt by lia.
    cbn [fmap option_fmap option_map]. f_equal. f_equal. lia.
Qed.

End RowCells.

Lemma row_alignment_witness :
  ∃ cell,
    buildTableRow (rt := plainRuntime) requestsModel upSeries !! 2%nat = Some cell
    ∧ cell = "".
Proof.
  assert (Z.of_nat 1 < clampCols (History (cfg requestsModel))) as Hj by (vm_compute; reflexivity).
  destruct (row_alignment (rt := plainRuntime) requestsModel upSeries 1 Hj)
    as (_ & cell & Hcell & Hshape).
  exists cell. split; [exact Hcell|exact Hshape].
Defined.

Section PlainNames.
Context {lg : Lipgloss} {vp : Viewport}.

(** X19. On a terminal whose styles leave the text as it is, the name
    column of a row is what [formatMetricName] gives for the series, with
    the labels hidden in the mode [hide-all] and shown in the mode [all]. *)
Theorem styledName_unstyled (m : model) (series : MetricSeries) :
  (∀ st text, Style_Render st text = text) →
  LabelMode (cfg m) ≠ LabelModeHideFiltered →
  styledName m series
  = formatMetricName series (String.eqb (LabelMode (cfg m)) LabelModeHideAll).
Proof.
  intros Hrender Hmode. unfold styledName, formatMetricName, labelParts.
  apply String.eqb_neq in Hmode. rewrite Hmode, !Hrender.
  destruct (String.eqb (LabelMode (cfg m)) LabelModeHideAll); cbn [negb andb]; [done|].
  destruct (Nat.ltb_spec 0 (size (Labels series))) as [Hsize|Hsize]; [|done].
  rewrite length_fmap, length_map_to_list.
  by replace (0 <? size (Labels series))%nat with true by (symmetry; by apply Nat.ltb_lt).
Qed.

End PlainNames.

Lemma styledName_unstyled_witness :
  styledName requestsModel prodSeries = formatMetricName prodSeries false.
Proof.
  apply (styledName_unstyled requestsModel prodSeries).
  - reflexivity.
  - discriminate.
Defined.

(** ** The commands and the pane ([Update]) *)

Section Commands.
Context {tables : UnicodeTables} {mem : GoMemory} {re : Regexp} {lg : Lipgloss}
  {vp : Viewport} {rt : GoRuntime}.

Ltac by_message :=
  cbn; repeat split;
  first [ done
        | by intros [_ [? ?]]
        | by intros [? _]
        | by intros [? ?]
        | by intros [[=]|[=]]
        | by intros [[= ?]|[= ?]]
        | by (intros [[= ->]|[= ->]])
        | by eauto
        | by eexists
        | by (intros _; eauto)
        | by (intros _; split; eauto)
        | by (intros _; left)
        | by (intros _; right) ].

(** X20. Which message makes [Update] return which command: a fetch is
    started only by a tick that arrives while the display is not paused,
    the next tick is scheduled by every tick and by nothing else, and the
    program is ended only by the keys [q] and [ctrl+c]. *)
Theorem commands_by_message (now : Z) (m m' : model) (msg : Msg) (cmd : option Cmd) :
  Update now m msg = Some (m', cmd) →
  (fetches cmd = true ↔ isPaused m = false ∧ ∃ t, msg = tickMsg t)
  ∧ (ticks cmd = true ↔ ∃ t, msg = tickMsg t)
  ∧ (quits cmd = true ↔ msg = KeyMsg "q" ∨ msg = KeyMsg "ctrl+c").
Proof.
  destruct msg as [key|t|families|e|w h|]; cbn [Update].
  - destruct (String.eqb_spec key "q") as [->|Hq]; [intros [= <- <-]; by_message|].
    destruct (String.eqb_spec key "ctrl+c") as [->|Hc]; [intros [= <- <-]; by_message|].
    cbn [orb].
    destruct (String.eqb key "?"); [intros [= <- <-]; by_message|].
    destruct (String.eqb key "l"); [intros [= <- <-]; by_message|].
    destruct (String.eqb key "d"); [intros [= <- <-]; by_message|].
    destruct (String.eqb key "p"); [intros [= <- <-]; by_message|].
    destruct (viewportReady m); [|intros [= <- <-]; by_message].
    destruct (viewport_Update (viewport m) key) as [v [c|]]; intros [= <- <-]; by_message.
  - destruct (isPaused m) eqn:Hpaused; intros [= <- <-]; by_message.
  - destruct (isPaused m) eqn:Hpaused; [intros [= <- <-]; by_message|].
    destruct (UpdateFromFamilies (store m) families); [|done].
    intros [= <- <-]; by_message.
  - intros [= <- <-]; by_message.
  - intros [= <- <-]; by_message.
  - intros [= <- <-]; by_message.
Qed.

End Commands.

Lemma commands_by_message_witness :
  ∃ cmd, plainUpdate 1 requestsModel (tickMsg 1) = Some (requestsModel, cmd)
         ∧ fetches cmd = true ∧ ticks cmd = true.
Proof.
  eexists. split; [reflexivity|].
  match goal with |- fetches ?c = true ∧ _ =>
    pose proof (commands_by_message (tables := asciiTables) (mem := memory64) (re := wordRegexp)
                  (rt := plainRuntime) 1 requestsModel requestsModel (tickMsg 1) c eq_refl)
      as (Hfetch & Hticks & _) end.
  split.
  - apply Hfetch. split; [reflexivity|]. by exists 1.
  - apply Hticks. by exists 1.
Defined.

Section Refresh.
Context {tables : UnicodeTables} {mem : GoMemory} {re : Regexp} {lg : Lipgloss}
  {vp : Viewport} {rt : GoRuntime}.

(** The table depends on the model through the configuration, the store,
    the width and the styles only. *)
Lemma buildTable_refreshViewport (m : model) :
  buildTable (refreshViewport m) = buildTable m.
Proof.
  unfold refreshViewport. destruct (viewportReady m); [|done]. by destruct m.
Qed.

Lemma refreshViewport_shown (m : model) :
  viewportReady m = true →
  viewportReady (refreshViewport m) = true
  ∧ viewport (refreshViewport m)
    = viewport_SetContent (viewport m) (buildTable (refreshViewport m)).
Proof.
  intros Hready. rewrite buildTable_refreshViewport.
  unfold refreshViewport. by rewrite Hready.
Qed.

Lemma refreshViewport_ready (m : model) :
  viewportReady (refreshViewport m) = viewportReady m
  ∧ width (refreshViewport m) = width m.
Proof. unfold refreshViewport. destruct (viewportReady m) eqn:Hready; by split. Qed.

(** X21. The pane never shows a stale table: whenever a message changes
    the configuration, the store or the width of a model whose pane exists
    afterwards, the content of the pane is set to the table of the new
    model. The pane exists after the first window size and from then on. *)
Theorem table_refreshed (now : Z) (m m' : model) (msg : Msg) (cmd : option Cmd) :
  Update now m msg = Some (m', cmd) →
  (viewportReady m = true ∨ (∃ w h, msg = WindowSizeMsg w h) → viewportReady m' = true)
  ∧ (viewportReady m' = true →
     cfg m' ≠ cfg m ∨ store m' ≠ store m ∨ width m' ≠ width m →
     ∃ v, viewport m' = viewport_SetContent v (buildTable m')).
Proof.
  destruct msg as [key|t|families|e|w h|]; cbn [Update].
  - destruct (String.eqb key "q" || String.eqb key "ctrl+c").
    { intros [= <- <-]. split; [by intros [?|(? & ? & ?)]|]. intuition congruence. }
    destruct (String.eqb key "?").
    { intros [= <- <-]. cbn. split; [by intros [?|(? & ? & ?)]|]. intuition congruence. }
    destruct (String.eqb key "l").
    { intros [= <- <-].
      destruct (refreshViewport_ready
                  (setCfg m (setLabelMode (cfg m) (nextLabelMode (cfg m))))) as [Hr _].
      split; [rewrite Hr; by intros [?|(? & ? & ?)]|].
      intros Hready _. rewrite Hr in Hready. eexists.
      by apply refreshViewport_shown. }
    destruct (String.eqb key "d").
    { intros [= <- <-].
      destruct (refreshViewport_ready
                  (setCfg m (setDeltaMode (cfg m) (nextDeltaMode (cfg m))))) as [Hr _].
      split; [rewrite Hr; by intros [?|(? & ? & ?)]|].
      intros Hready _. rewrite Hr in Hready. eexists.
      by apply refreshViewport_shown. }
    destruct (String.eqb key "p").
    { intros [= <- <-]. cbn. split; [by intros [?|(? & ? & ?)]|]. intuition congruence. }
    destruct (viewportReady m) eqn:Hready.
    + destruct (viewport_Update (viewport m) key) as [v c]. intros [= <- <-]. cbn.
      split; [done|]. intuition congruence.
    + intros [= <- <-]. split; [by intros [?|(? & ? & ?)]|]. intuition congruence.
  - destruct (isPaused m); intros [= <- <-];
      (split; [by intros [?|(? & ? & ?)]|]); intuition congruence.
  - destruct (isPaused m).
    { intros [= <- <-]. split; [by intros [?|(? & ? & ?)]|]. intuition congruence. }
    destruct (UpdateFromFamilies (store m) families) as [updated|]; [|done].
    intros [= <- <-].
    match goal with |- context [refreshViewport ?x] =>
      destruct (refreshViewport_ready x) as [Hr _];
      pose proof (refreshViewport_shown x) as Hshown end.
    split; [rewrite Hr; by intros [?|(? & ? & ?)]|].
    intros Hready _. rewrite Hr in Hready. eexists. by apply Hshown.
  - intros [= <- <-]. cbn. split; [by intros [?|(? & ? & ?)]|]. intuition congruence.
  - intros [= <- <-].
    match goal with |- context [refreshViewport ?x] =>
      destruct (refreshViewport_ready x) as [Hr _];
      pose proof (refreshViewport_shown x) as Hshown end.
    split; [by rewrite Hr|].
    intros _ _. eexists. by apply Hshown.
  - intros [= <- <-]. split; [by intros [?|(? & ? & ?)]|]. intuition congruence.
Qed.

End Refresh.

Lemma table_refreshed_witness :
  ∃ (m' : plainModel) cmd v,
    plainUpdate 1 requestsModel (WindowSizeMsg 100 30) = Some (m', cmd)
    ∧ viewport m' = viewport_SetContent v (buildTable (re := wordRegexp) (rt := plainRuntime) m').
Proof.
  destruct (plainUpdate 1 requestsModel (WindowSizeMsg 100 30)) as [[m' cmd]|] eqn:Hupd;
    [|vm_compute in Hupd; discriminate].
  pose proof (table_refreshed (tables := asciiTables) (mem := memory64) (re := wordRegexp) (rt := plainRuntime)
                1 requestsModel m' (WindowSizeMsg 100 30) cmd Hupd) as [Hready Hshown].
  assert (viewportReady m' = true) as Hr by (apply Hready; right; by exists 100, 30).
  assert (width m' ≠ width requestsModel) as Hwidth.
  { vm_compute in Hupd. injection Hupd as <- _. vm_compute. discriminate. }
  destruct (Hshown Hr (or_intror (or_intror Hwidth))) as [v Hv].
  exists m', cmd, v. split; [reflexivity|exact Hv].
Defined.

(** ** The screen ([View]) *)

Section Screens.
Context {tables : UnicodeTables} {mem : GoMemory} {re : Regexp} {lg : Lipgloss}
  {lgv : LipglossView} {vp : Viewport} {vpv : ViewportView} {rt : GoRuntime}.

Lemma Update_viewportReady (now : Z) (m m' : model) (msg : Msg) (cmd : option Cmd) :
  Update now m msg = Some (m', cmd) →
  viewportReady m' = viewportReady m || isWindowSize msg.
Proof.
  destruct msg as [key|t|families|e|w h|]; cbn [Update isWindowSize];
    rewrite ?orb_false_r, ?orb_true_r.
  - destruct (String.eqb key "q" || String.eqb key "ctrl+c"); [by intros [= <- <-]|].
    destruct (String.eqb key "?"); [by intros [= <- <-]|].
    destruct (String.eqb key "l");
      [intros [= <- <-]; by rewrite (proj1 (refreshViewport_ready _))|].
    destruct (String.eqb key "d");
      [intros [= <- <-]; by rewrite (proj1 (refreshViewport_ready _))|].
    destruct (String.eqb key "p"); [by intros [= <- <-]|].
    destruct (viewportReady m) eqn:Hready; [|by intros [= <- <-]].
    destruct (viewport_Update (viewport m) key) as [v c]. by intros [= <- <-].
  - by destruct (isPaused m); intros [= <- <-].
  - destruct (isPaused m); [by intros [= <- <-]|].
    destruct (UpdateFromFamilies (store m) families); [|done].
    intros [= <- <-]. by rewrite (proj1 (refreshViewport_ready _)).
  - by intros [= <- <-].
  - intros [= <- <-]. by rewrite (proj1 (refreshViewport_ready _)).
  - by intros [= <- <-].
Qed.

Lemma runUpdates_screen (m m' : model) (events : list (Z * Msg)) :
  runUpdates m events = Some m' →
  viewportReady m' = viewportReady m || existsb (λ ev, isWindowSize ev.2) events.
Proof.
  revert m. induction events as [|[now msg] events IH]; intros m Hrun.
  - cbn in Hrun. injection Hrun as <-. cbn. by rewrite orb_false_r.
  - unfold runUpdates in Hrun. cbn [foldlOpt fst snd] in Hrun.
    destruct (Update now m msg) as [[m1 cmd]|] eqn:Hupd; [|done].
    cbn [fmap option_fmap option_map fst] in Hrun.
    rewrite (IH m1 Hrun), (Update_viewportReady now m m1 msg cmd Hupd).
    cbn [existsb snd]. by rewrite orb_assoc.
Qed.

(** X22. What the program shows along a run from its start: the text
    [Initializing...] as long as no window size has arrived, and from the
    first window size on the pane with the footer under it, or, when the
    help is switched on, the help alone, which does not depend on what it
    covers. The screen of the fatal error is never shown. *)
Theorem screen_of_run (parsed : Config) (m0 m' : model) (events : list (Z * Msg)) :
  main parsed = Proceed m0 →
  runUpdates m0 events = Some m' →
  View m'
  = if existsb (λ ev, isWindowSize ev.2) events then
      if showHelp m' then renderHelpOverlay m' ""
      else viewport_View (viewport m') +:+ lineFeed +:+ footer m'
    else "Initializing...".
Proof.
  intros Hmain Hrun.
  pose proof (main_invariant parsed m0 Hmain) as [Hinv _].
  assert (modelInvariant m') as (_ & _ & _ & _ & _ & Herr).
  { clear Hmain. revert m0 Hinv Hrun.
    induction events as [|[now msg] events IH]; intros m0 Hinv Hrun.
    - cbn in Hrun. by injection Hrun as <-.
    - unfold runUpdates in Hrun. cbn [foldlOpt fst snd] in Hrun.
      destruct (Update now m0 msg) as [[m1 cmd]|] eqn:Hupd; [|done].
      cbn [fmap option_fmap option_map fst] in Hrun.
      apply (IH m1); [|done]. by apply (Update_invariant now m0 m1 msg cmd). }
  assert (viewportReady m0 = false) as Hstart.
  { revert Hmain. unfold main. destruct (parseFlags parsed); [done|].
    repeat case_match; try done. by intros [= <-]. }
  unfold View. rewrite Herr, (runUpdates_screen m0 m' events Hrun), Hstart.
  cbn [orb]. by destruct (existsb _ events).
Qed.

End Screens.

Lemma screen_of_run_witness :
  ∃ m0 m' : plainModel,
    plainMain (exampleConfig 3 "next") = Proceed m0
    ∧ runUpdates (tables := asciiTables) (mem := memory64) (re := wordRegexp) (rt := plainRuntime) m0
        [(1, fetchResult [family "up" [gaugeMetric 1]]); (2, KeyMsg "d")] = Some m'
    ∧ View (lgv := plainLipglossView) (vpv := plainViewportView) m' = "Initializing...".
Proof.
  destruct (plainMain (exampleConfig 3 "next")) as [message|m0] eqn:Hmain;
    [vm_compute in Hmain; discriminate|].
  destruct (runUpdates (tables := asciiTables) (mem := memory64) (re := wordRegexp) (rt := plainRuntime) m0
              [(1, fetchResult [family "up" [gaugeMetric 1]]); (2, KeyMsg "d")])
    as [m'|] eqn:Hrun.
  - exists m0, m'. split; [done|]. split; [done|].
    exact (screen_of_run (tables := asciiTables) (mem := memory64) (re := wordRegexp) (rt := plainRuntime)
             (lgv := plainLipglossView) (vpv := plainViewportView)
             _ _ _ _ Hmain Hrun).
  - exfalso. vm_compute in Hmain. injection Hmain as <-.
    vm_compute in Hrun. discriminate.
Defined.
